(** * cupyimg.scipy.ndimage.interpolation: dispatch, validation and geometry

    A shallow embedding of [src/cupyimg/scipy/ndimage/interpolation.py].
    The module is the host side of the resampling engine: it validates the
    arguments, chooses the working dtype, allocates the workspace, launches
    the CUDA kernels and computes the shapes, matrices and offsets handed
    to them.  The kernels themselves, [cupy] and [numpy] are collaborators
    from outside the file; they appear here as the fields of a record of
    externals, and every kernel launch is logged in a trace.

    Numbers: array extents and spline orders are [Z].  A host-side float
    (a zoom factor, an entry of a matrix or an offset, an angle) is kept as
    the rational [Q] it denotes.  The arithmetic of [zoom], which decides
    the extents of its output, rounds every result to binary64 as the
    interpreter does; the matrices and offsets of [rotate] and
    [affine_transform] are computed without rounding. *)

From Stdlib Require Import ZArith QArith Qround Qabs Qpower Bool Lia Lqa.
From stdpp Require Import list strings.

Set Implicit Arguments.
Unset Strict Implicit.

Open Scope Z_scope.

(** ** Element types *)

Module Dtype.

(** The numeric dtypes of numpy/cupy. *)
Inductive dtype :=
  | Bool
  | Int8 | Int16 | Int32 | Int64
  | UInt8 | UInt16 | UInt32 | UInt64
  | Float16 | Float32 | Float64
  | Complex64 | Complex128.

#[export] Instance dtype_eq_dec : EqDecision dtype.
Proof. solve_decision. Defined.

Definition dtype_eqb (a b : dtype) : bool := bool_decide (a = b).

(** [dtype.kind]: one of the characters b, i, u, f, c. *)
Inductive kind_t := Kb | Ki | Ku | Kf | Kc.

Definition kind (d : dtype) : kind_t :=
  match d with
  | Bool => Kb
  | Int8 | Int16 | Int32 | Int64 => Ki
  | UInt8 | UInt16 | UInt32 | UInt64 => Ku
  | Float16 | Float32 | Float64 => Kf
  | Complex64 | Complex128 => Kc
  end.

(** [d.kind in "iu"] *)
Definition kind_in_iu (d : dtype) : bool :=
  match kind d with Ki | Ku => true | _ => false end.

(** [d.kind == "c"] *)
Definition kind_is_c (d : dtype) : bool :=
  match kind d with Kc => true | _ => false end.

(** [d.kind == "f"] *)
Definition kind_is_f (d : dtype) : bool :=
  match kind d with Kf => true | _ => false end.

(** [dtype.itemsize], in bytes. *)
Definition itemsize (d : dtype) : nat :=
  match d with
  | Bool | Int8 | UInt8 => 1
  | Int16 | UInt16 | Float16 => 2
  | Int32 | UInt32 | Float32 => 4
  | Int64 | UInt64 | Float64 | Complex64 => 8
  | Complex128 => 16
  end%nat.

Definition int_of_size (n : nat) : dtype :=
  match n with
  | 1 => Int8 | 2 => Int16 | 4 => Int32 | _ => Int64
  end%nat.

(** The smallest real floating type every value of a non-complex dtype
    converts to without loss; for a complex dtype, the type of its parts. *)
Definition float_part (d : dtype) : dtype :=
  match d with
  | Bool | Int8 | UInt8 | Float16 => Float16
  | Int16 | UInt16 | Float32 | Complex64 => Float32
  | _ => Float64
  end.

Definition float_max (a b : dtype) : dtype :=
  if (itemsize a <? itemsize b)%nat then b else a.

(** [numpy.promote_types] (which [cupy.promote_types] is): the smallest
    dtype to which both arguments can be safely cast. *)
Definition promote_types (a b : dtype) : dtype :=
  match kind a, kind b with
  | Kb, _ => b
  | _, Kb => a
  | Kc, _ | _, Kc =>
      match float_max (float_part a) (float_part b) with
      | Float64 => Complex128
      | _ => Complex64
      end
  | Kf, _ | _, Kf => float_max (float_part a) (float_part b)
  | Ki, Ki | Ku, Ku => if (itemsize a <? itemsize b)%nat then b else a
  | Ki, Ku =>
      if (itemsize b <? itemsize a)%nat then a
      else if (itemsize b =? 8)%nat then Float64
      else int_of_size (2 * itemsize b)
  | Ku, Ki =>
      if (itemsize a <? itemsize b)%nat then b
      else if (itemsize a =? 8)%nat then Float64
      else int_of_size (2 * itemsize a)
  end.


Definition all_dtypes : list dtype :=
  [Bool; Int8; Int16; Int32; Int64; UInt8; UInt16; UInt32; UInt64;
   Float16; Float32; Float64; Complex64; Complex128].

End Dtype.
Export Dtype.


(** ** Device arrays, the store and the trace *)

(** A [cupy.ndarray] is a view on an allocation: [oid] is the identity of
    the Python object ([a is b]), [mem] the allocation it points into
    ([a.data.mem.ptr]), [idx] the positions of its elements inside the
    allocation, listed in the C order of the view.  Positions count
    elements, not bytes, so a view that reinterprets the bytes under
    another dtype is outside the model. *)
Record ndarray := Ndarray {
  oid : nat;
  mem : nat;
  idx : list nat;
  dt : dtype;
  shape : list Z
}.

(** The [output] argument: [None], a dtype, or an existing array. *)
Inductive out_arg :=
  | ONone
  | ODtype (d : dtype)
  | OArr (a : ndarray).

Definition prod (sh : list Z) : Z := foldr Z.mul 1 sh.

(** [a.size], [a.ndim] *)
Definition size (a : ndarray) : Z := prod (shape a).
Definition ndim (a : ndarray) : nat := length (shape a).

Definition shape_eqb (s1 s2 : list Z) : bool := bool_decide (s1 = s2).

(** [a.flags.c_contiguous]: the elements lie next to each other, in order. *)
Definition c_contiguous (a : ndarray) : bool :=
  bool_decide (idx a = seq (hd 0%nat (idx a)) (length (idx a))).

(** [a is b] *)
Definition is_ (a b : ndarray) : bool := (oid a =? oid b)%nat.

(** Lowest and highest position an array touches. *)
Definition ptr_min (a : ndarray) : nat := foldr Nat.min (hd 0%nat (idx a)) (idx a).
Definition ptr_max (a : ndarray) : nat := foldr Nat.max 0%nat (idx a).

(** [cupy.shares_memory(a, b, "MAY_SHARE_BOUNDS")]: the same object, or two
    non-empty views of one allocation whose extents overlap. *)
Definition shares_memory (a b : ndarray) : bool :=
  if is_ a b && negb (size a =? 0) then true
  else if negb (mem a =? mem b)%nat || (size a =? 0) || (size b =? 0) then false
  else negb ((ptr_max a <? ptr_min b)%nat || (ptr_max b <? ptr_min a)%nat).

(** Numpy broadcasting of a source shape to a destination shape. *)
Fixpoint broadcastable_rev (src dst : list Z) : bool :=
  match src, dst with
  | [], _ => true
  | _ :: _, [] => false
  | s :: src', d :: dst' => ((s =? d) || (s =? 1)) && broadcastable_rev src' dst'
  end.
Definition broadcastable (src dst : list Z) : bool :=
  broadcastable_rev (rev src) (rev dst).

(** The exceptions the module raises, named after the error kinds of the
    specification, with the text of the [raise] they stand for. *)
Inductive error :=
  | InvalidOrder            (* "spline order is not supported", "spline order not supported" *)
  | InvalidMode             (* "boundary mode is not supported" *)
  | ShapeMismatch           (* "output shape is not correct" *)
  | DtypeMismatch           (* "output must have complex dtype for complex inputs",
                               "coordinates should have floating point dtype" *)
  | InvalidParameterShape   (* "shift must be 1d", "len(shift) must equal input.ndim",
                               "zoom must be 1d", "len(zoom) must equal input.ndim" *)
  | InvalidTransformMatrix  (* "no proper affine matrix provided" *)
  | InvalidRotationPlane    (* "invalid rotation plane specified" *)
  | LibraryError.           (* any exception raised inside cupy, numpy or a builtin *)

#[export] Instance error_eq_dec : EqDecision error.
Proof. solve_decision. Defined.

Inductive result (A : Type) :=
  | Ok (a : A)
  | Raise (e : error).
Arguments Ok {A} a.
Arguments Raise {A} e.

(** ** Host-side parameter arrays *)

(** Matrices, offsets and shift vectors are small arrays whose values the
    host code slices and combines; they are kept by value.  [P2 cols rows]
    is a matrix of [length rows] rows and [cols] columns; of an array of
    rank three or more only the shape matters to the code. *)
Inductive parr :=
  | P0 (x : Q)
  | P1 (v : list Q)
  | P2 (cols : nat) (rows : list (list Q))
  | PN (d1 d2 d3 : nat) (rest : list nat).

(** A parameter the caller gives as a float or as an array-like. *)
Inductive vec_arg :=
  | Scalar (x : Q)
  | Arr (a : parr).

Definition pshape (a : parr) : list nat :=
  match a with
  | P0 _ => []
  | P1 v => [length v]
  | P2 cols rows => [length rows; cols]
  | PN d1 d2 d3 rest => d1 :: d2 :: d3 :: rest
  end.

Definition pndim (a : parr) : nat := length (pshape a).

(** The factories of [_kernels.interp]. *)
Inductive kernel_name := MapK | ShiftK | ZoomK | ZoomShiftK | AffineK.

(** What the sampling kernels are specialised on. *)
Record kernel_cfg := KernelCfg {
  k_name : kernel_name;
  k_ndim : nat;
  k_large_int : bool;
  k_shape : list Z;
  k_mode : string;
  k_order : Z;
  k_integer_output : bool
}.

(** Device work, in the order it is issued. *)
Inductive event :=
  | EAlloc (a : ndarray)                      (* a fresh device array *)
  | EAssign (dst src : ndarray)               (* dst[...] = src[...] *)
  | EScale (order : Z) (temp : ndarray)       (* temp *= gain *)
  | KSpline1d (order : Z) (mode : string) (axis : nat) (info : list Z)
              (temp : ndarray)                (* the prefilter kernel, in place *)
  | KMap (c : kernel_cfg) (filtered coordinates ret : ndarray)
  | KShift (c : kernel_cfg) (filtered : ndarray) (shift : list Q) (output : ndarray)
  | KZoom (c : kernel_cfg) (filtered : ndarray) (zoom : list Q) (output : ndarray)
  | KZoomShift (c : kernel_cfg) (filtered : ndarray) (offset : parr)
               (matrix : list Q) (output : ndarray)
      (* launched on [-offset / matrix] and [matrix]; the operands are kept *)
  | KAffine (c : kernel_cfg) (filtered : ndarray) (m : list (list Q))
            (output : ndarray).

Definition is_prefilter_work (e : event) : bool :=
  match e with EScale _ _ | KSpline1d _ _ _ _ _ => true | _ => false end.

Definition is_sampling_kernel (e : event) : bool :=
  match e with
  | KMap _ _ _ _ | KShift _ _ _ _ | KZoom _ _ _ _
  | KZoomShift _ _ _ _ _ | KAffine _ _ _ _ => true
  | _ => false
  end.

Definition is_kernel_work (e : event) : bool :=
  is_prefilter_work e || is_sampling_kernel e.

(** The array a sampling kernel reads its samples from. *)
Definition sampled_array (e : event) : option ndarray :=
  match e with
  | KMap _ f _ _ | KShift _ f _ _ | KZoom _ f _ _
  | KZoomShift _ f _ _ _ | KAffine _ f _ _ => Some f
  | _ => None
  end.

(** ** The collaborators outside the file *)

Record externals (V : Type) := Externals {
  (** element values: zero, conversion on store into a dtype *)
  zero : V;
  cast : dtype -> V -> V;
  (** [cupy.add(x, 1)], elementwise *)
  add_one : V -> V;
  (** values of [cupy.pad(a, [(1, 1)] * ndim, "constant", constant_values=cval)] *)
  pad_constant : list Z -> V -> list V -> list V;
  (** values of an array of the first shape broadcast to the second *)
  broadcast_values : list Z -> list Z -> list V -> list V;
  (** [_misc._normalize_axis_index(axis, ndim)]; [None] when it raises *)
  normalize_axis_index : Z -> nat -> option nat;
  (** multiplication by [get_gain(get_poles(order))] *)
  times_gain : Z -> V -> V;
  (** whether [get_raw_spline1d_kernel] builds a kernel for mode, order, dtype *)
  spline1d_builds : string -> Z -> dtype -> bool;
  (** the prefilter kernel on the values of its workspace *)
  spline1d_run : Z -> string -> nat -> list Z -> list V -> list V;
  (** whether the factories of [_kernels.interp] build a kernel *)
  interp_builds : kernel_cfg -> bool;
  (** the sampling kernels: values written to the output *)
  map_run : kernel_cfg -> V -> list V -> list V -> list V;
  shift_run : kernel_cfg -> V -> list V -> list Q -> list V;
  zoom_run : kernel_cfg -> list V -> list Q -> list V;
  zoom_shift_run : kernel_cfg -> V -> list V -> parr -> list Q -> list V;
  affine_run : kernel_cfg -> V -> list V -> list (list Q) -> list V;
  (** [cupy.linalg.inv] *)
  linalg_inv : list (list Q) -> list (list Q);
  (** [math.cos(numpy.deg2rad(angle))], [math.sin(numpy.deg2rad(angle))] *)
  cos_deg : Q -> Q;
  sin_deg : Q -> Q
}.

(** ** The state and the monad of a call *)

Record state (V : Type) := State {
  next_oid : nat;             (* identity of the next Python object *)
  next_mem : nat;             (* address of the next allocation *)
  store : nat -> list V;      (* the elements of each allocation *)
  trace : list event          (* device work issued so far, oldest first *)
}.

Definition M (V A : Type) : Type := state V -> result A * state V.

Definition ret {V A} (a : A) : M V A := fun s => (Ok a, s).

Definition raise {V A} (e : error) : M V A := fun s => (Raise e, s).

Definition bind {V A B} (m : M V A) (f : A -> M V B) : M V B :=
  fun s =>
    match m s with
    | (Ok a, s') => f a s'
    | (Raise e, s') => (Raise e, s')
    end.

Declare Scope py_scope.
Delimit Scope py_scope with py.
Notation "'let*' x ':=' c1 'in' c2" := (bind c1 (fun x => c2))
  (at level 10, x name, c1 at level 100, c2 at level 200) : py_scope.
Notation "'let*' ' p ':=' c1 'in' c2" :=
  (bind c1 (fun x => match x with p => c2 end))
  (at level 10, p pattern, c1 at level 100, c2 at level 200) : py_scope.
Notation "c1 ';;' c2" := (bind c1 (fun _ => c2))
  (at level 100, c2 at level 200, right associativity) : py_scope.
Open Scope py_scope.

(** [for x in xs: acc = body(acc, x)] *)
Fixpoint for_each {V A B} (xs : list A) (acc : B) (body : B -> A -> M V B) : M V B :=
  match xs with
  | [] => ret acc
  | x :: xs' => let* acc' := body acc x in for_each xs' acc' body
  end.

Section Memory.
Context {V : Type} (ext : externals V).

Definition emit (e : event) : M V unit :=
  fun s => (Ok tt, State (next_oid s) (next_mem s) (store s) (trace s ++ [e])).

(** The values of a view, in its C order. *)
Definition read_in (s : state V) (a : ndarray) : list V :=
  map (fun i => nth i (store s (mem a)) (zero ext)) (idx a).

Definition read (a : ndarray) : M V (list V) := fun s => (Ok (read_in s a), s).

(** Elementwise store of values through the positions of a view. *)
Definition put_all (ixs : list nat) (vals : list V) (cells : list V) : list V :=
  foldl (fun c iv => <[iv.1 := iv.2]> c) cells (zip ixs vals).

Definition write (a : ndarray) (vals : list V) : M V unit :=
  fun s =>
    let st' := fun m => if (m =? mem a)%nat then put_all (idx a) vals (store s m)
                        else store s m in
    (Ok tt, State (next_oid s) (next_mem s) st' (trace s)).

(** A fresh C-contiguous array holding the given values; cupy refuses a
    negative extent. *)
Definition alloc (d : dtype) (sh : list Z) (vals : list V) : M V ndarray :=
  fun s =>
    if existsb (fun n => n <? 0) sh then (Raise LibraryError, s)
    else
      let a := Ndarray (next_oid s) (next_mem s) (seq 0 (length vals)) d sh in
      let st' := fun m => if (m =? next_mem s)%nat then vals else store s m in
      (Ok a, State (S (next_oid s)) (S (next_mem s)) st' (trace s ++ [EAlloc a])).

(** [cupy.zeros(shape, dtype)] *)
Definition zeros (sh : list Z) (d : dtype) : M V ndarray :=
  alloc d sh (repeat (zero ext) (Z.to_nat (prod sh))).

(** [a.astype(dtype)] *)
Definition astype (a : ndarray) (d : dtype) : M V ndarray :=
  let* vals := read a in alloc d (shape a) (map (cast ext d) vals).

(** [a.astype(dtype, copy=False)]: the array itself when it has the dtype. *)
Definition astype_nocopy (a : ndarray) (d : dtype) : M V ndarray :=
  if dtype_eqb (dt a) d then ret a else astype a d.

(** [a.copy()] *)
Definition copy (a : ndarray) : M V ndarray :=
  let* vals := read a in alloc (dt a) (shape a) vals.

(** [cupy.ascontiguousarray(a)]: the array itself when it is contiguous. *)
Definition ascontiguousarray (a : ndarray) : M V ndarray :=
  if c_contiguous a then ret a else copy a.

(** [dst[...] = src[...]]: the source is read, broadcast to the shape of the
    destination, converted and stored. *)
Definition assign (dst src : ndarray) : M V unit :=
  if negb (broadcastable (shape src) (shape dst)) then raise LibraryError
  else
    let* vals := read src in
    let vals := if shape_eqb (shape src) (shape dst) then vals
                else broadcast_values ext (shape src) (shape dst) vals in
    emit (EAssign dst src) ;;
    write dst (map (cast ext (dt dst)) vals).

(** [a *= gain], [kern(grid, block, (temp, info))] and the sampling
    kernels: the event is logged and the values are replaced. *)
Definition update (e : event) (a : ndarray) (f : list V -> list V) : M V unit :=
  let* vals := read a in
  emit e ;;
  write a (f vals).

End Memory.

(** ** The spline prefilter: [spline_filter1d] and [spline_filter] *)

Section Prefilter.
Context {V : Type} (ext : externals V).

(** [_get_output(output, input, shape=None)], lines 42-53. *)
Definition _get_output (output : out_arg) (input : ndarray)
    (shape_ : option (list Z)) : M V ndarray :=
  let shape_ := match shape_ with None => shape input | Some sh => sh end in
  match output with
  | OArr o =>
      if negb (shape_eqb (shape o) shape_) then raise ShapeMismatch
      else ret o
  | ODtype d => zeros ext shape_ d
  | ONone => zeros ext shape_ (dt input)
  end.

Definition supported_modes : list string :=
  ["constant"; "nearest"; "mirror"; "reflect"; "wrap"; "opencv";
   "_opencv_edge"]%string.

Definition mode_in (mode : string) (ms : list string) : bool :=
  existsb (String.eqb mode) ms.

(** [_check_parameter(func_name, order, mode)], lines 56-88.  The block
    under [warn = False] never runs. *)
Definition _check_parameter (func_name : string) (order : Z) (mode : string)
    : M V unit :=
  if (order <? 0) || (5 <? order) then raise InvalidOrder
  else if negb (mode_in mode supported_modes) then raise InvalidMode
  else ret tt.

(** The second branch of [_get_spline_output], lines 126-129: a workspace
    derived from the input. *)
Definition workspace_from_input (input : ndarray) (float_dtype : dtype)
    : M V ndarray :=
  let* temp := astype_nocopy ext input float_dtype in
  let* temp := ascontiguousarray ext temp in
  if shares_memory temp input then copy ext temp else ret temp.

(** [_get_spline_output(input, output, allow_float32)], lines 91-130:
    the workspace [temp], the working dtype and the dtype of the result. *)
Definition _get_spline_output (input : ndarray) (output : out_arg)
    (allow_float32 : bool) : M V (ndarray * dtype * dtype) :=
  let complex_data := kind_is_c (dt input) in
  let min_float_dtype :=
    if complex_data then (if allow_float32 then Complex64 else Complex128)
    else (if allow_float32 then Float32 else Float64) in
  match output with
  | OArr o =>
      if complex_data && negb (kind_is_c (dt o)) then raise DtypeMismatch
      else
        let float_dtype := promote_types (dt o) min_float_dtype in
        let output_dtype := dt o in
        if dtype_eqb (dt o) float_dtype && dtype_eqb float_dtype output_dtype
           && c_contiguous o
        then
          (if negb (is_ o input) then assign ext o input else ret tt) ;;
          ret (o, float_dtype, output_dtype)
        else
          let* temp := workspace_from_input input float_dtype in
          ret (temp, float_dtype, output_dtype)
  | ONone =>
      let output_dtype := dt input in
      let float_dtype := promote_types (dt input) min_float_dtype in
      let* temp := workspace_from_input input float_dtype in
      ret (temp, float_dtype, output_dtype)
  | ODtype d =>
      let output_dtype := d in
      let float_dtype := promote_types d min_float_dtype in
      let* temp := workspace_from_input input float_dtype in
      ret (temp, float_dtype, output_dtype)
  end.

(** [spline_filter1d(input, order=3, axis=-1, output=cupy.float64,
    mode="mirror", *, allow_float32=True)], lines 133-225. *)
Definition spline_filter1d (input : ndarray) (order : Z) (axis : Z)
    (output : out_arg) (mode : string) (allow_float32 : bool) : M V ndarray :=
  if (order <? 0) || (5 <? order) then raise InvalidOrder
  else
    let x := input in
    let ndim_ := ndim x in
    match normalize_axis_index ext axis ndim_ with
    | None => raise LibraryError
    | Some axis =>
        let run_kernel :=
          negb ((order <? 2) || (ndim_ =? 0)%nat || (nth axis (shape x) 0 =? 1)) in
        if negb run_kernel then
          let* output := _get_output output input None in
          assign ext output x ;;
          ret output
        else
          let* '(temp, data_dtype, output_dtype) :=
            _get_spline_output x output allow_float32 in
          if negb (spline1d_builds ext mode order (dt temp)) then raise LibraryError
          else
            let n_samples := nth axis (shape x) 0 in
            if n_samples =? 0 then raise LibraryError  (* ZeroDivisionError *)
            else
              let n_signals := size x / n_samples in
              let info := n_signals :: n_samples :: shape x in
              update ext (EScale order temp) temp (map (times_gain ext order)) ;;
              update ext (KSpline1d order mode axis info temp) temp
                (spline1d_run ext order mode axis (shape temp)) ;;
              match output with
              | OArr o =>
                  if negb (is_ temp o) then assign ext o temp ;; ret o
                  else astype_nocopy ext temp output_dtype
              | _ => astype_nocopy ext temp output_dtype
              end
    end.

(** [spline_filter(input, order=3, output=numpy.float64, mode="mirror", *,
    allow_float32=True)], lines 228-278. *)
Definition spline_filter (input : ndarray) (order : Z) (output : out_arg)
    (mode : string) (allow_float32 : bool) : M V ndarray :=
  if (order <? 2) || (5 <? order) then raise InvalidOrder
  else
    let x := input in
    let* '(temp, data_dtype, output_dtype) :=
      _get_spline_output x output allow_float32 in
    (if negb ((order =? 0) || (order =? 1)) && (0 <? ndim input)%nat then
       for_each (seq 0 (ndim x)) x
         (fun x axis =>
            spline_filter1d x order (Z.of_nat axis) (OArr temp) mode
              allow_float32 ;;
            ret temp) ;;
       ret tt
     else ret tt) ;;
    let* output :=
      match output with
      | OArr o => assign ext o temp ;; ret o
      | _ => ret temp
      end in
    if negb (dtype_eqb (dt output) output_dtype) then astype ext output output_dtype
    else ret output.

End Prefilter.

(** ** Host arithmetic *)

(** [x.astype(int)], [int(x)]: truncation towards zero. *)
Definition trunc (x : Q) : Z := Z.quot (Qnum x) (Z.pos (Qden x)).

(** Python's [round(x)]: to the nearest integer, a tie to the even one. *)
Definition py_round (x : Q) : Z :=
  let f := Qfloor x in
  let r := (x - inject_Z f)%Q in
  match (r ?= 1 # 2)%Q with
  | Lt => f
  | Gt => f + 1
  | Eq => if Z.even f then f else f + 1
  end.

(** *** Binary64

    A Python float is a binary64 number; infinities and NaNs, of which the
    module makes no use, are left out, and a finite one is the rational it
    denotes.  An arithmetic operation returns the binary64 number nearest
    to the exact result, the one with the even significand at a tie;
    [None] stands for a result beyond the largest float. *)

Definition pow2 (e : Z) : Q := (2 ^ e)%Q.

(** The largest [k] with [2 ^ k <= |x|], for [x] other than 0. *)
Definition ilog2 (x : Q) : Z :=
  let k := Z.log2 (Z.abs (Qnum x)) - Z.log2 (Z.pos (Qden x)) in
  if Qle_bool (pow2 k) (Qabs x) then k else k - 1.

(** Rounding to binary64: 53 bits of significand above the exponent
    -1074 of the subnormal numbers, and below [2 ^ 1024]. *)
Definition b64 (x : Q) : option Q :=
  if Qeq_bool x 0 then Some 0%Q
  else
    let e := Z.max (ilog2 x - 52) (-1074) in
    let m := py_round (x / pow2 e) in
    let p := (inject_Z m * pow2 e)%Q in
    if Qle_bool (pow2 1024) (Qabs p) then None else Some p.

(** [float(n)], and an integer operand of a float operation; [a * b],
    [a - b] and [a / b] on floats, the divisor being other than 0. *)
Definition float_of_int (n : Z) : option Q := b64 (inject_Z n).
Definition fmul (a b : Q) : option Q := b64 (a * b).
Definition fsub (a b : Q) : option Q := b64 (a - b).
Definition fdiv (a b : Q) : option Q := b64 (a / b).

Definition qmin (a b : Q) : Q := if Qle_bool a b then a else b.
Definition qmax (a b : Q) : Q := if Qle_bool a b then b else a.
Definition qmin_list (x : Q) (l : list Q) : Q := foldl qmin x l.
Definition qmax_list (x : Q) (l : list Q) : Q := foldl qmax x l.

(** [row.ptp()]: largest minus smallest entry. *)
Definition ptp (l : list Q) : Q :=
  match l with
  | [] => 0
  | x :: l' => qmax_list x l' - qmin_list x l'
  end%Q.

(** [numpy.identity(n)] *)
Definition identity (n : nat) : list (list Q) :=
  map (fun i => map (fun j => if (i =? j)%nat then 1%Q else 0%Q) (seq 0 n)) (seq 0 n).

(** [m[i, j] = v] *)
Definition set2 (m : list (list Q)) (i j : nat) (v : Q) : list (list Q) :=
  alter (fun row => <[j := v]> row) i m.

(** [row[-1]] and [l[:-1]] *)
Definition last0 (row : list Q) : Q := List.last row 0%Q.
Definition but_last {A} (l : list A) : list A := take (length l - 1) l.

(** [cupy.negative(a)] *)
Definition pneg (a : parr) : parr :=
  match a with
  | P0 x => P0 (- x)
  | P1 v => P1 (map Qopp v)
  | P2 cols rows => P2 cols (map (map Qopp) rows)
  | PN d1 d2 d3 rest => PN d1 d2 d3 rest
  end.

(** Shapes of two operands of an elementwise operation agree up to
    broadcasting. *)
Fixpoint broadcast_ok_rev (a b : list nat) : bool :=
  match a, b with
  | [], _ | _, [] => true
  | x :: a', y :: b' =>
      ((x =? y) || (x =? 1) || (y =? 1))%nat && broadcast_ok_rev a' b'
  end.
Definition broadcast_ok (a b : list nat) : bool :=
  broadcast_ok_rev (rev a) (rev b).

(** A vector stored into a row or column of length [n]. *)
Definition bcast_vec (n : nat) (v : list Q) : option (list Q) :=
  if (length v =? n)%nat then Some v
  else match v with
       | [x] => Some (repeat x n)
       | _ => None
       end.

(** [column[:] = cupy.asarray(offset)] for a column of length [n]. *)
Definition to_column (n : nat) (a : parr) : option (list Q) :=
  match a with
  | P0 x => Some (repeat x n)
  | P1 v => bcast_vec n v
  | _ => None
  end.

(** [block[:, :] = matrix] for a block of [n] rows and [n] columns. *)
Definition bcast_mat (n : nat) (a : parr) : option (list (list Q)) :=
  match a with
  | P0 x => Some (repeat (repeat x n) n)
  | P1 v => match bcast_vec n v with
            | Some row => Some (repeat row n)
            | None => None
            end
  | P2 cols rows =>
      if negb ((cols =? n) || (cols =? 1))%nat then None
      else
        let rows' := if (length rows =? n)%nat then Some rows
                     else match rows with
                          | [r] => Some (repeat r n)
                          | _ => None
                          end in
        match rows' with
        | Some rs => Some (map (fun r => default r (bcast_vec n r)) rs)
        | None => None
        end
  | PN _ _ _ _ => None
  end.

(** [cupy.roll(l, 1)] *)
Definition roll1 {A} (l : list A) : list A :=
  match l with
  | [] => []
  | x :: l' => List.last l x :: but_last l
  end.

(** [m[:2] = cupy.roll(m[:2], 1, axis=0)] *)
Definition roll_rows (m : list (list Q)) : list (list Q) :=
  roll1 (take 2 m) ++ drop 2 m.

(** [m[:2, :2] = cupy.roll(m[:2, :2], 1, axis=1)] *)
Definition roll_cols (m : list (list Q)) : list (list Q) :=
  map (fun row => roll1 (take 2 row) ++ drop 2 row) (take 2 m) ++ drop 2 m.

(** [m = zeros((n, n + 1)); m[:, :-1] = matrix; m[:, -1] = offset] *)
Definition augment (mm : list (list Q)) (oo : list Q) : list (list Q) :=
  zip_with (fun row o => row ++ [o]) mm oo.


(** ** The transforms *)

Section Transforms.
Context {V : Type} (ext : externals V).

Definition launch (e : event) (out : ndarray) (vals : list V) : M V unit :=
  emit e ;; write out vals.

(** [if input.dtype.kind in "iu": input = input.astype(cupy.float32)] *)
Definition integers_to_float32 (input : ndarray) : M V ndarray :=
  if kind_in_iu (dt input) then astype ext input Float32 else ret input.

(** [spline_filter(input, order, output=input.dtype, ...)] when
    [prefilter and order > 1], the input itself otherwise. *)
Definition prefiltered (input : ndarray) (order : Z) (mode : string)
    (prefilter allow_float32 : bool) : M V ndarray :=
  if prefilter && (1 <? order) then
    spline_filter ext input order (ODtype (dt input)) mode allow_float32
  else ret input.

(** [if not a.flags.c_contiguous: a = cupy.ascontiguousarray(a)] *)
Definition contiguous (a : ndarray) : M V ndarray :=
  if negb (c_contiguous a) then ascontiguousarray ext a else ret a.

Definition build (c : kernel_cfg) : M V unit :=
  if interp_builds ext c then ret tt else raise LibraryError.

(** The dtype of [cupy.add(x, 1)]. *)
Definition add_dtype (d : dtype) : dtype :=
  match d with Bool => Int64 | _ => d end.

(** [map_coordinates(input, coordinates, output=None, order=3,
    mode="constant", cval=0.0, prefilter=True, *, allow_float32=True)],
    lines 281-402. *)
Definition map_coordinates (input coordinates : ndarray) (output : out_arg)
    (order : Z) (mode : string) (cval : V) (prefilter allow_float32 : bool)
    : M V ndarray :=
  _check_parameter "map_coordinates" order mode ;;
  let* '(input, coordinates, mode) :=
    if String.eqb mode "opencv" || String.eqb mode "_opencv_edge" then
      let* vals := read ext input in
      let* input' := alloc (dt input) (map (fun n => n + 2) (shape input))
                       (pad_constant ext (shape input) cval vals) in
      let* cvals := read ext coordinates in
      let* coordinates' := alloc (add_dtype (dt coordinates)) (shape coordinates)
                             (map (add_one ext) cvals) in
      ret (input', coordinates', "constant"%string)
    else ret (input, coordinates, mode) in
  let* ret_ := _get_output ext output input (Some (tail (shape coordinates))) in
  let integer_output := kind_in_iu (dt ret_) in
  let* input := integers_to_float32 input in
  let* coordinates :=
    if kind_in_iu (dt coordinates) then
      if 1 <? order then
        astype ext coordinates
          (promote_types (dt coordinates) (if allow_float32 then Float32 else Float64))
      else ret coordinates
    else if negb (kind_is_f (dt coordinates)) then raise DtypeMismatch
    else
      astype_nocopy ext coordinates
        (promote_types (dt coordinates) (if allow_float32 then Float32 else Float64)) in
  let* filtered := prefiltered input order mode prefilter allow_float32 in
  match shape coordinates with
  | [] => raise LibraryError   (* coordinates.shape[0] of a 0-d array *)
  | c0 :: _ =>
      let large_int := 2 ^ 31 <? Z.max (prod (shape input)) c0 in
      let cfg := KernelCfg MapK (ndim filtered) large_int (shape coordinates)
                   mode order integer_output in
      build cfg ;;
      let* filtered := contiguous filtered in
      let* coordinates := contiguous coordinates in
      let* fvals := read ext filtered in
      let* cvals := read ext coordinates in
      launch (KMap cfg filtered coordinates ret_) ret_
        (map_run ext cfg cval fvals cvals) ;;
      ret ret_
  end.

(** Lines 485-494 of [affine_transform]: the rank test and the
    normalisation of an augmented or a homogeneous matrix. *)
Definition normalize_matrix (ndim_ : nat) (matrix offset : parr)
    : M V (parr * parr) :=
  if negb ((pndim matrix =? 1) || (pndim matrix =? 2))%nat then
    raise InvalidTransformMatrix
  else
    match matrix with
    | P2 cols rows =>
        if Z.of_nat (length rows) =? Z.of_nat cols - 1 then
          ret (P2 (cols - 1) (map but_last rows), P1 (map last0 rows))
        else if (length rows =? ndim_ + 1)%nat then
          if (cols =? 0)%nat then raise LibraryError   (* index -1 of an empty axis *)
          else ret (P2 (cols - 1) (map but_last (but_last rows)),
                    P1 (map last0 (but_last rows)))
        else ret (matrix, offset)
    | _ => ret (matrix, offset)
    end.

(** Lines 496-505 of [affine_transform]: the matrix and the offset under
    mode [opencv]. *)
Definition opencv_matrix (ndim_ : nat) (matrix offset : parr)
    : M V (parr * parr) :=
  match bcast_mat ndim_ matrix, to_column ndim_ offset with
  | Some mm, Some oo =>
      let m := augment mm oo ++ [repeat 0%Q ndim_ ++ [1%Q]] in
      let m := linalg_inv ext m in
      let m := roll_rows m in
      let m := roll_cols m in
      ret (P2 ndim_ (map but_last (but_last m)),
           P1 (map last0 (but_last m)))
  | _, _ => raise LibraryError
  end.

(** [affine_transform(input, matrix, offset=0.0, output_shape=None,
    output=None, order=3, mode="constant", cval=0.0, prefilter=True, *,
    allow_float32=True)], lines 405-566. *)
Definition affine_transform (input : ndarray) (matrix : parr)
    (offset : vec_arg) (output_shape : option (list Z)) (output : out_arg)
    (order : Z) (mode : string) (cval : V) (prefilter allow_float32 : bool)
    : M V ndarray :=
  _check_parameter "affine_transform" order mode ;;
  let offset := match offset with
                | Scalar x => P1 (repeat x (ndim input))
                | Arr a => a
                end in
  let* '(matrix, offset) := normalize_matrix (ndim input) matrix offset in
  let* '(matrix, offset) :=
    if String.eqb mode "opencv" then opencv_matrix (ndim input) matrix offset
    else ret (matrix, offset) in
  let output_shape := match output_shape with
                      | None => shape input
                      | Some sh => sh
                      end in
  let ndim_ := ndim input in
  let* output := _get_output ext output input (Some output_shape) in
  let* input := integers_to_float32 input in
  let* filtered := prefiltered input order mode prefilter allow_float32 in
  let* filtered := contiguous filtered in
  let integer_output := kind_in_iu (dt output) in
  let large_int := 2 ^ 31 <? Z.max (prod (shape input)) (prod output_shape) in
  match matrix with
  | P1 mv =>
      if negb (broadcast_ok (pshape offset) (pshape matrix)) then raise LibraryError
      else
        let cfg := KernelCfg ZoomShiftK ndim_ large_int output_shape mode order
                     integer_output in
        build cfg ;;
        let* fvals := read ext filtered in
        launch (KZoomShift cfg filtered offset mv output) output
          (zoom_shift_run ext cfg cval fvals offset mv) ;;
        ret output
  | _ =>
      let cfg := KernelCfg AffineK ndim_ large_int output_shape mode order
                   integer_output in
      build cfg ;;
      match bcast_mat ndim_ matrix, to_column ndim_ offset with
      | Some mm, Some oo =>
          let m := augment mm oo in
          let* fvals := read ext filtered in
          launch (KAffine cfg filtered m output) output
            (affine_run ext cfg cval fvals m) ;;
          ret output
      | _, _ => raise LibraryError
      end
  end.

(** The corners of the input plane under the rotation, line 668:
    [rot_matrix @ [[0, 0, iy, iy], [0, ix, 0, ix]]]. *)
Definition out_bounds (cos sin : Q) (iy ix : Z) : list Q * list Q :=
  let ys := [0; 0; inject_Z iy; inject_Z iy]%Q in
  let xs := [0; inject_Z ix; 0; inject_Z ix]%Q in
  (zip_with (fun y x => cos * y + sin * x) ys xs,
   zip_with (fun y x => - sin * y + cos * x) ys xs)%Q.

(** Lines 665-672 of [rotate]: the shape of the output plane. *)
Definition out_plane_shape (cos sin : Q) (iy ix : Z) (reshape : bool) : Z * Z :=
  if reshape then
    let '(r0, r1) := out_bounds cos sin iy ix in
    (trunc (ptp r0 + (1 # 2)), trunc (ptp r1 + (1 # 2)))%Q
  else (iy, ix).

Definition half (n : Z) : Q := (inject_Z (n - 1) / 2)%Q.

(** Lines 674-675 of [rotate]. *)
Definition out_center (cos sin : Q) (o : Z * Z) : Q * Q :=
  (cos * half o.1 + sin * half o.2, - sin * half o.1 + cos * half o.2)%Q.
Definition in_center (iy ix : Z) : Q * Q := (half iy, half ix).

(** Lines 655-688 of [rotate]: the matrix, the offset and the output shape
    handed to [affine_transform], for the plane of the axes [a0 <= a1]. *)
Definition rotate_plan (img_shape : list Z) (cos sin : Q) (a0 a1 : nat)
    (reshape : bool) : list (list Q) * list Q * list Z :=
  let ndim_ := length img_shape in
  let iy := nth a0 img_shape 0 in
  let ix := nth a1 img_shape 0 in
  let o := out_plane_shape cos sin iy ix reshape in
  let oc := out_center cos sin o in
  let ic := in_center iy ix in
  let output_shape := <[a1 := o.2]> (<[a0 := o.1]> img_shape) in
  let matrix := identity ndim_ in
  let matrix := set2 matrix a0 a0 cos in
  let matrix := set2 matrix a0 a1 sin in
  let matrix := set2 matrix a1 a0 (- sin)%Q in
  let matrix := set2 matrix a1 a1 cos in
  let offset := repeat 0%Q ndim_ in
  let offset := <[a1 := (ic.2 - oc.2)%Q]> (<[a0 := (ic.1 - oc.1)%Q]> offset) in
  (matrix, offset, output_shape).

(** [rotate(input, angle, axes=(1, 0), reshape=True, output=None, order=3,
    mode="constant", cval=0.0, prefilter=True, *, allow_float32=True)],
    lines 581-704. *)
Definition rotate (input : ndarray) (angle : Q) (axes : Z * Z)
    (reshape : bool) (output : out_arg) (order : Z) (mode : string)
    (cval : V) (prefilter allow_float32 : bool) : M V ndarray :=
  _check_parameter "rotate" order mode ;;
  let mode := if String.eqb mode "opencv" then "_opencv_edge"%string else mode in
  let input_arr := input in
  let n := Z.of_nat (ndim input_arr) in
  let a0 := if axes.1 <? 0 then axes.1 + n else axes.1 in
  let a1 := if axes.2 <? 0 then axes.2 + n else axes.2 in
  let '(a0, a1) := if a1 <? a0 then (a1, a0) else (a0, a1) in
  if (a0 <? 0) || (n <=? a1) then raise InvalidRotationPlane
  else
    let cos := cos_deg ext angle in
    let sin := sin_deg ext angle in
    let '(matrix, offset, output_shape) :=
      rotate_plan (shape input_arr) cos sin (Z.to_nat a0) (Z.to_nat a1) reshape in
    affine_transform input (P2 (ndim input_arr) matrix) (Arr (P1 offset))
      (Some output_shape) output order mode cval prefilter allow_float32.

(** [shift(input, shift, output=None, order=3, mode="constant", cval=0.0,
    prefilter=True, *, allow_float32=True)], lines 707-819. *)
Definition shift (input : ndarray) (shift_ : vec_arg) (output : out_arg)
    (order : Z) (mode : string) (cval : V) (prefilter allow_float32 : bool)
    : M V ndarray :=
  _check_parameter "shift" order mode ;;
  let shift_ := match shift_ with
                | Scalar x => P1 (repeat x (ndim input))
                | Arr a => a
                end in
  if String.eqb mode "opencv" then
    affine_transform input (P1 (repeat 1%Q (ndim input))) (Arr (pneg shift_))
      None output order "_opencv_edge" cval prefilter true
  else
    let* output := _get_output ext output input None in
    let* input := integers_to_float32 input in
    let* filtered := prefiltered input order mode prefilter allow_float32 in
    let* filtered := contiguous filtered in
    let integer_output := kind_in_iu (dt output) in
    let large_int := 2 ^ 31 <? prod (shape input) in
    let cfg := KernelCfg ShiftK (ndim input) large_int (shape input) mode order
                 integer_output in
    build cfg ;;
    match shift_ with
    | P1 sv =>
        if negb (length sv =? ndim filtered)%nat then raise InvalidParameterShape
        else
          let* fvals := read ext filtered in
          launch (KShift cfg filtered sv output) output
            (shift_run ext cfg cval fvals sv) ;;
          ret output
    | _ => raise InvalidParameterShape     (* shift.ndim != 1 *)
    end.

(** The [zoom] argument: a float or a sequence of floats. *)
Inductive seq_arg :=
  | SFloat (x : Q)
  | SList (l : list Q).

(** Line 880 of [zoom]: [int(round(s * z))].  The extent becomes a float,
    the product is rounded to binary64 and [round] takes it to the nearest
    integer; a product beyond the largest float is an [OverflowError]. *)
Definition zoom_extent (s : Z) (z : Q) : option Z :=
  fs ← float_of_int s; p ← fmul fs z; Some (py_round p).

(** Lines 878-881: one extent per pair of [zip(input.shape, zoom)]. *)
Definition zoom_shape (sh : list Z) (zs : list Q) : option (list Z) :=
  mapM (fun sz => zoom_extent sz.1 sz.2) (zip sh zs).

(** Lines 912-916: [float(in_size - 1) / (out_size - 1)], or 0. *)
Definition zoom_factor (in_size out_size : Z) : option Q :=
  if 1 <? out_size then
    a ← float_of_int (in_size - 1); b ← float_of_int (out_size - 1); fdiv a b
  else Some 0%Q.

(** Lines 886-892, under mode [opencv]: [float(in_size) / out_size] and
    [(zoom[-1] - 1) / 2.0], or 0 and 0. *)
Definition opencv_zoom_factor (in_size out_size : Z) : option (Q * Q) :=
  if 1 <? out_size then
    a ← float_of_int in_size; b ← float_of_int out_size; z ← fdiv a b;
    d ← fsub z 1; o ← fdiv d 2; Some (z, o)
  else Some (0%Q, 0%Q).

(** [zoom(input, zoom, output=None, order=3, mode="constant", cval=0.0,
    prefilter=True, *, allow_float32=True)], lines 822-954.  The
    exceptions of the host arithmetic are raised before any device
    work. *)
Definition zoom (input : ndarray) (zoom_ : seq_arg) (output : out_arg)
    (order : Z) (mode : string) (cval : V) (prefilter allow_float32 : bool)
    : M V ndarray :=
  _check_parameter "zoom" order mode ;;
  let zoom_ := match zoom_ with
               | SFloat x => repeat x (ndim input)
               | SList l => l
               end in
  match zoom_shape (shape input) zoom_ with
  | None => raise LibraryError
  | Some output_shape =>
      if String.eqb mode "opencv" then
        match mapM (fun io => opencv_zoom_factor io.1 io.2)
                (zip (shape input) output_shape) with
        | None => raise LibraryError
        | Some zo =>
            affine_transform input (P1 (map fst zo)) (Arr (P1 (map snd zo)))
              (Some output_shape) output order "nearest" cval prefilter true
        end
      else
        match mapM (fun io => zoom_factor io.1 io.2)
                (zip (shape input) output_shape) with
        | None => raise LibraryError
        | Some zoom_ =>
            let* output := _get_output ext output input (Some output_shape) in
            let* input := integers_to_float32 input in
            let* filtered := prefiltered input order mode prefilter allow_float32 in
            let* filtered := contiguous filtered in
            let integer_output := kind_in_iu (dt output) in
            let large_int :=
              2 ^ 31 <? Z.max (prod (shape input)) (prod output_shape) in
            let cfg := KernelCfg ZoomK (ndim input) large_int output_shape mode
                         order integer_output in
            build cfg ;;
            (* [zoom.ndim != 1] cannot hold: the list was rebuilt above *)
            if negb (length zoom_ =? ndim filtered)%nat
            then raise InvalidParameterShape
            else
              let* fvals := read ext filtered in
              launch (KZoom cfg filtered zoom_ output) output
                (zoom_run ext cfg fvals zoom_) ;;
              ret output
        end
  end.

End Transforms.

(** ** A small instance of the collaborators

    Elements are rationals; the kernels leave the values as they are.  It
    serves to run the host code on concrete calls. *)

Module Toy.

Definition normalize_axis (axis : Z) (n : nat) : option nat :=
  let axis := if axis <? 0 then axis + Z.of_nat n else axis in
  if (0 <=? axis) && (axis <? Z.of_nat n) then Some (Z.to_nat axis) else None.

Definition ext : externals Q := {|
  zero := 0%Q;
  cast := fun d x => if kind_in_iu d then inject_Z (trunc x) else x;
  add_one := fun x => (x + 1)%Q;
  pad_constant := fun _ c vals => c :: vals ++ [c];
  broadcast_values := fun _ dst vals => repeat (hd 0%Q vals) (Z.to_nat (prod dst));
  normalize_axis_index := normalize_axis;
  times_gain := fun order x => (inject_Z order * x)%Q;
  spline1d_builds := fun _ _ _ => true;
  spline1d_run := fun _ _ _ _ vals => vals;
  interp_builds := fun _ => true;
  map_run := fun _ _ fvals _ => fvals;
  shift_run := fun _ _ fvals _ => fvals;
  zoom_run := fun _ fvals _ => fvals;
  zoom_shift_run := fun _ _ fvals _ _ => fvals;
  affine_run := fun _ _ fvals _ => fvals;
  linalg_inv := fun m => m;
  cos_deg := fun a => if Qeq_bool a 0 then 1%Q else (3 # 5)%Q;
  sin_deg := fun a => if Qeq_bool a 0 then 0%Q else (4 # 5)%Q
|}.

(** A state holding one allocation, number 0, with the given values. *)
Definition st0 (vals : list Q) : state Q :=
  State 1 1 (fun m => if (m =? 0)%nat then vals else []) [].

(** A contiguous array over the whole of allocation 0. *)
Definition arr0 (d : dtype) (sh : list Z) : ndarray :=
  Ndarray 0 0 (seq 0 (Z.to_nat (prod sh))) d sh.

(** Two allocations: the input in number 0, coordinates in number 1. *)
Definition st1 (vals cvals : list Q) : state Q :=
  State 2 2 (fun m => if (m =? 0)%nat then vals
                      else if (m =? 1)%nat then cvals else []) [].

Definition arr1 (d : dtype) (sh : list Z) : ndarray :=
  Ndarray 1 1 (seq 0 (Z.to_nat (prod sh))) d sh.

End Toy.

(** ** Specifications of calls

    [runs m G]: from every state, the call [m] appends some events [tr]
    to the trace, and [G] relates them to the outcome. *)

Definition runs {V A} (m : M V A) (G : list event -> result A -> Prop) : Prop :=
  forall s, exists tr, trace (m s).2 = trace s ++ tr /\ G tr (m s).1.

(** No kernel has worked; no sampling kernel has been launched. *)
Definition idle (tr : list event) : Prop :=
  Forall (fun e => is_kernel_work e = false) tr.
Definition unsampled (tr : list event) : Prop :=
  Forall (fun e => is_sampling_kernel e = false) tr.

Definition order_ok (order : Z) : bool := (0 <=? order) && (order <=? 5).

(** The dtype requested through [output], for an input of dtype [din]. *)
Definition requested (output : out_arg) (din : dtype) : dtype :=
  match output with
  | ONone => din
  | ODtype d => d
  | OArr o => dt o
  end.

(** The floor of the working precision. *)
Definition min_float (din : dtype) (allow_float32 : bool) : dtype :=
  if kind_is_c din then (if allow_float32 then Complex64 else Complex128)
  else (if allow_float32 then Float32 else Float64).

(** The dtype of the input after [integers_to_float32]. *)
Definition converted (din : dtype) : dtype :=
  if kind_in_iu din then Float32 else din.

(** Outcomes of the memory primitives. *)
Definition fresh_array (d : dtype) (sh : list Z) (tr : list event)
    (r : result ndarray) : Prop :=
  match r with
  | Ok a => tr = [EAlloc a] /\ dt a = d /\ shape a = sh
  | Raise e => tr = [] /\ e = LibraryError
  end.

Definition same_or_fresh (a0 : ndarray) (d : dtype) (tr : list event)
    (r : result ndarray) : Prop :=
  match r with
  | Ok a => (tr = [] /\ a = a0 \/ tr = [EAlloc a]) /\ dt a = d /\ shape a = shape a0
  | Raise e => tr = [] /\ e = LibraryError
  end.

Definition assigned (dst src : ndarray) (tr : list event) (r : result unit) : Prop :=
  match r with
  | Ok _ => tr = [EAssign dst src]
  | Raise e => tr = [] /\ e = LibraryError
  end.

Definition emitted {A} (e : event) (tr : list event) (r : result A) : Prop :=
  tr = [e] /\ exists a, r = Ok a.

Definition silent {A} (tr : list event) (r : result A) : Prop :=
  tr = [] /\ exists a, r = Ok a.

(** Outcome of [_get_output]. *)
Definition got_output (output : out_arg) (din : dtype) (sh : list Z)
    (tr : list event) (r : result ndarray) : Prop :=
  match r with
  | Ok a => idle tr /\ dt a = requested output din /\ shape a = sh
  | Raise e =>
      tr = [] /\
      (e = LibraryError \/
       e = ShapeMismatch /\ exists o, output = OArr o /\ shape o <> sh)
  end.

(** Outcome of [_check_parameter]. *)
Definition checked (order : Z) (mode : string) (tr : list event)
    (r : result unit) : Prop :=
  tr = [] /\
  r = (if negb (order_ok order) then Raise InvalidOrder
       else if negb (mode_in mode supported_modes) then Raise InvalidMode
       else Ok tt).

(** Outcome of [_get_spline_output]. *)
Definition got_workspace (input : ndarray) (output : out_arg)
    (allow_float32 : bool) (tr : list event)
    (r : result (ndarray * dtype * dtype)) : Prop :=
  idle tr /\
  match r with
  | Ok (temp, fd, od) =>
      dt temp = fd /\ od = requested output (dt input) /\
      fd = promote_types od (min_float (dt input) allow_float32) /\
      (shape temp = shape input \/ output = OArr temp)
  | Raise e =>
      e = LibraryError \/
      e = DtypeMismatch /\ exists o, output = OArr o /\
        kind_is_c (dt input) = true /\ kind_is_c (dt o) = false
  end.

(** The workspace fits the array to be filtered. *)
Definition fits (x temp : ndarray) : Prop :=
  shape temp = shape x /\ (kind_is_c (dt x) = true -> kind_is_c (dt temp) = true).

Definition fit_of (x : ndarray) (output : out_arg) : Prop :=
  match output with
  | OArr o => fits x o
  | _ => True
  end.

Definition not_an_array (output : out_arg) : Prop :=
  match output with
  | OArr _ => False
  | _ => True
  end.

(** Outcome of [spline_filter1d] and of [spline_filter]; [lo] is the least
    order the function accepts, [fit] whether the output is known to fit. *)
Definition filtered_outcome (lo order : Z) (fit : Prop) (d : dtype)
    (tr : list event) (r : result ndarray) : Prop :=
  unsampled tr /\
  match r with
  | Ok a => lo <= order <= 5 /\ dt a = d
  | Raise InvalidOrder => tr = [] /\ ~ lo <= order <= 5
  | Raise LibraryError => lo <= order <= 5
  | Raise ShapeMismatch | Raise DtypeMismatch => lo <= order <= 5 /\ ~ fit
  | Raise _ => False
  end.

(** When an error may surface: the checks on the order, the mode, the
    matrix and the plane come before any device work; the checks on the
    output and the dtypes before any kernel; any error before the sampling
    kernel is launched. *)
Definition timely (e : error) (tr : list event) : Prop :=
  match e with
  | InvalidOrder | InvalidMode | InvalidTransformMatrix
  | InvalidRotationPlane => tr = []
  | ShapeMismatch | DtypeMismatch => idle tr
  | InvalidParameterShape | LibraryError => unsampled tr
  end.

(** Outcome of a transform on an input of dtype [din]: the order and the
    mode are judged first; a successful call ends with the one launch of a
    sampling kernel, which samples an array of the converted dtype; [may]
    lists the errors the rest of the call can raise. *)
Definition transformed (din : dtype) (order : Z) (mode : string)
    (may : error -> Prop) (tr : list event) (r : result ndarray) : Prop :=
  if negb (order_ok order) then tr = [] /\ r = Raise InvalidOrder
  else if negb (mode_in mode supported_modes) then tr = [] /\ r = Raise InvalidMode
  else
    match r with
    | Ok out =>
        exists tr' k f, tr = tr' ++ [k] /\ unsampled tr' /\
          sampled_array k = Some f /\ dt f = converted din
    | Raise e => may e /\ timely e tr
    end.

(** The errors of the calls, beyond the order and the mode. *)
Definition may_map (e : error) : Prop :=
  e = ShapeMismatch \/ e = DtypeMismatch \/ e = LibraryError.
Definition may_affine (matrix : parr) (e : error) : Prop :=
  e = ShapeMismatch \/ e = LibraryError \/
  e = InvalidTransformMatrix /\ ~ (pndim matrix = 1 \/ pndim matrix = 2)%nat.
Definition may_rotate (e : error) : Prop :=
  e = ShapeMismatch \/ e = LibraryError \/ e = InvalidRotationPlane.
Definition may_shift (e : error) : Prop :=
  e = ShapeMismatch \/ e = LibraryError \/ e = InvalidParameterShape.

(** Outcome of a step that hands on an array of dtype [d] and shape [sh]. *)
Definition stage (d : dtype) (sh : list Z) (tr : list event)
    (r : result ndarray) : Prop :=
  idle tr /\
  match r with
  | Ok a => dt a = d /\ shape a = sh
  | Raise e => e = LibraryError
  end.

(** The shapes of [matrix] that the docstring of [affine_transform] lists
    for an input of rank [n]. *)
Definition accepted_form (n : nat) (sh : list nat) : bool :=
  bool_decide (sh ∈ [[n; n]; [n]; [n + 1; n + 1]; [n; n + 1]]%nat).



(** A step leaves the counters where they are or moves them forward, and
    an array it creates lies beyond the old counters. *)
Definition later {V} (s s' : state V) : Prop :=
  (next_oid s <= next_oid s')%nat /\ (next_mem s <= next_mem s')%nat.

Definition beyond {V} (s : state V) (a : ndarray) : Prop :=
  (next_oid s <= oid a)%nat /\ (next_mem s <= mem a)%nat.

(** ** Helpers of the module that the transforms do not call *)

(** [highest_power_of_2(n)], lines 31-39: [n & (~(n - 1))] on Python's
    unbounded integers. *)
Definition highest_power_of_2 (n : Z) : Z := Z.land n (Z.lnot (n - 1)).



(** The launches of the prefilter kernel in a trace, oldest first: the
    order, the mode and the axis of each. *)
Definition spline_launches (tr : list event) : list (Z * string * nat) :=
  omap (fun e => match e with
                 | KSpline1d order mode axis _ _ => Some (order, mode, axis)
                 | _ => None
                 end) tr.

(** What a call leaves alone.  [n0] is the address of the first allocation
    the call can create and [W] holds of the allocations it may write, the
    new ones among them.  An array may be written when it has no cell or
    lies in such an allocation; a step [frames] when it keeps every other
    allocation as it was, and [Q] holds of its result. *)
Definition may_write (W : nat -> Prop) (a : ndarray) : Prop :=
  idx a = [] \/ W (mem a).

Definition frames {V A} (n0 : nat) (W : nat -> Prop) (m : M V A)
    (Q : A -> Prop) : Prop :=
  forall s, (n0 <= next_mem s)%nat ->
    (n0 <= next_mem (m s).2)%nat /\
    (forall k, ~ W k -> store (m s).2 k = store s k) /\
    match (m s).1 with Ok a => Q a | Raise _ => True end.

(** An array that a filter may take as its workspace without harm: it may
    be written, or it has no cell when it has no element. *)
Definition tame (W : nat -> Prop) (a : ndarray) : Prop :=
  may_write W a \/ (size a = 0 -> idx a = []).

(** The output argument names no array that may not be written. *)
Definition output_within (W : nat -> Prop) (output : out_arg) : Prop :=
  match output with
  | OArr o => may_write W o
  | _ => True
  end.

(** What the host arithmetic of [zoom] guarantees.  [half_even x n]: the
    integer [n] is nearest to [x], and even when [x] lies midway between
    two integers.  [binary64 p]: [p] is a binary64 number, a significand
    of at most 53 bits times a power of two from [2 ^ -1074] on.
    [rounds_to x p]: among the binary64 numbers [p] is nearest to [x], and
    at a tie the one with the even significand, that is an even multiple
    of its distance to the other. *)
Definition half_even (x : Q) (n : Z) : Prop :=
  (Qabs (x - inject_Z n) <= 1 # 2)%Q /\
  (Qabs (x - inject_Z n) == 1 # 2 -> Z.even n = true)%Q.

Definition binary64 (p : Q) : Prop :=
  exists m e, (p == inject_Z m * pow2 e)%Q /\ Z.abs m < 2 ^ 53 /\ -1074 <= e <= 971.

Definition rounds_to (x p : Q) : Prop :=
  binary64 p /\
  forall y, binary64 y ->
    (Qabs (x - p) <= Qabs (x - y))%Q /\
    ((Qabs (x - p) == Qabs (x - y))%Q -> ~ (y == p)%Q ->
     exists n : Z, (p == inject_Z (2 * n) * (y - p))%Q).

(** A step [keeps] the allocations that exist: it may add new ones, and
    leaves the contents of the old ones as they are. *)
Definition keeps {V} (s s1 : state V) : Prop :=
  (next_mem s <= next_mem s1)%nat /\
  forall m, (m < next_mem s)%nat -> store s1 m = store s m.


(** * Proofs *)

(** ** Sanity checks of the host arithmetic *)

Example promote_int64_float32 : promote_types Int64 Float32 = Float64.
Proof. reflexivity. Qed.
Example promote_uint64_int64 : promote_types UInt64 Int64 = Float64.
Proof. reflexivity. Qed.
Example promote_uint8_int8 : promote_types UInt8 Int8 = Int16.
Proof. reflexivity. Qed.
Example promote_int16_float16 : promote_types Int16 Float16 = Float32.
Proof. reflexivity. Qed.
Example promote_float64_complex64 : promote_types Float64 Complex64 = Complex128.
Proof. reflexivity. Qed.
Example promote_int8_complex64 : promote_types Int8 Complex64 = Complex64.
Proof. reflexivity. Qed.
Example py_round_half_even : map py_round [1 # 2; 3 # 2; 5 # 2; -(1 # 2); 7 # 4]%Q = [0; 2; 2; 0; 2].
Proof. reflexivity. Qed.
Example trunc_towards_zero : map trunc [7 # 2; -(7 # 2); 19 # 10]%Q = [3; -3; 1].
Proof. reflexivity. Qed.
Example roll_rows_swaps : roll_rows [[1; 2; 3]; [4; 5; 6]; [7; 8; 9]]%Q = [[4; 5; 6]; [1; 2; 3]; [7; 8; 9]]%Q.
Proof. reflexivity. Qed.
Example roll_cols_swaps : roll_cols [[1; 2; 3]; [4; 5; 6]; [7; 8; 9]]%Q = [[2; 1; 3]; [5; 4; 6]; [7; 8; 9]]%Q.
Proof. reflexivity. Qed.

(** ** Rules for [runs] *)

Section Rules.
Context {V : Type}.

Lemma runs_ret {A} (a : A) (G : list event -> result A -> Prop) :
  G [] (Ok a) -> runs (V:=V) (ret a) G.
Proof. intros H s. exists []. simpl. rewrite app_nil_r. auto. Qed.

Lemma runs_raise {A} (e : error) (G : list event -> result A -> Prop) :
  G [] (Raise e) -> runs (V:=V) (raise e) G.
Proof. intros H s. exists []. simpl. rewrite app_nil_r. auto. Qed.

Lemma runs_bind {A B} (m : M V A) (f : A -> M V B) G1
    (G : list event -> result B -> Prop) :
  runs m G1 ->
  (forall tr1 r1, G1 tr1 r1 ->
     match r1 with
     | Ok a => runs (f a) (fun tr2 r => G (tr1 ++ tr2) r)
     | Raise e => G tr1 (Raise e)
     end) ->
  runs (bind m f) G.
Proof.
  intros Hm Hf s. unfold bind.
  destruct (Hm s) as (tr1 & Ht1 & H1).
  specialize (Hf _ _ H1).
  destruct (m s) as [[a|e] s1]; simpl in *.
  - destruct (Hf s1) as (tr2 & Ht2 & H2).
    exists (tr1 ++ tr2). rewrite Ht2, Ht1, app_assoc. auto.
  - exists tr1. auto.
Qed.

Lemma runs_weaken {A} (m : M V A) (G1 G : list event -> result A -> Prop) :
  runs m G1 -> (forall tr r, G1 tr r -> G tr r) -> runs m G.
Proof.
  intros Hm HG s. destruct (Hm s) as (tr & Ht & H). exists tr. auto.
Qed.

Lemma runs_assoc {A B C} (m : M V A) (f : A -> M V B) (g : B -> M V C) G :
  runs (bind m (fun a => bind (f a) g)) G -> runs (bind (bind m f) g) G.
Proof.
  intros H s. specialize (H s). unfold bind in *.
  destruct (m s) as [[a|e] s1]; exact H.
Qed.

Lemma runs_bind_ret {A B} (a : A) (f : A -> M V B) G :
  runs (f a) G -> runs (bind (ret a) f) G.
Proof. intros H s. exact (H s). Qed.

Lemma runs_elim {A} (m : M V A) G s r s' :
  runs m G -> m s = (r, s') -> exists tr, trace s' = trace s ++ tr /\ G tr r.
Proof. intros Hm E. specialize (Hm s). rewrite E in Hm. exact Hm. Qed.

Lemma runs_for_each {A B} (xs : list A) (body : B -> A -> M V B)
    (I : B -> Prop) (P : list event -> Prop) (E : error -> Prop) :
  P [] -> (forall t1 t2, P t1 -> P t2 -> P (t1 ++ t2)) ->
  (forall acc x, I acc ->
     runs (body acc x)
       (fun tr r => P tr /\ match r with Ok acc' => I acc' | Raise e => E e end)) ->
  forall acc, I acc ->
    runs (for_each xs acc body)
      (fun tr r => P tr /\ match r with Ok acc' => I acc' | Raise e => E e end).
Proof.
  intros P0 Papp Hbody. induction xs as [|x xs IH]; intros acc Hacc; simpl.
  - apply runs_ret. auto.
  - eapply runs_bind; [apply Hbody, Hacc|].
    intros tr1 [acc'|e] [HP H]; [|auto].
    eapply runs_weaken; [apply IH, H|].
    intros tr r [HP' H']. split; auto.
Qed.

End Rules.

(** Stepping through a call, one statement at a time. *)
Tactic Notation "run_with" uconstr(lem) :=
  eapply runs_bind; [eapply lem|]; cbv beta.

Ltac run_ret := apply runs_ret; cbv beta; rewrite ?app_nil_r.
Ltac run_raise := apply runs_raise; cbv beta; rewrite ?app_nil_r.

Ltac run_case :=
  match goal with
  | |- runs (bind (if ?b then _ else _) _) _ => destruct b eqn:?
  | |- runs (if ?b then _ else _) _ => destruct b eqn:?
  | |- runs (match ?x with _ => _ end) _ => destruct x eqn:?
  | |- runs (ret _) _ => apply runs_ret
  | |- runs (raise _) _ => apply runs_raise
  end.

Lemma idle_nil : idle [].
Proof. constructor. Qed.

Lemma idle_app t1 t2 : idle t1 -> idle t2 -> idle (t1 ++ t2).
Proof. apply Forall_app_2. Qed.

Lemma unsampled_nil : unsampled [].
Proof. constructor. Qed.

Lemma unsampled_app t1 t2 : unsampled t1 -> unsampled t2 -> unsampled (t1 ++ t2).
Proof. apply Forall_app_2. Qed.

Lemma idle_unsampled tr : idle tr -> unsampled tr.
Proof.
  intros H. eapply Forall_impl; [exact H|]. intros e. unfold is_kernel_work.
  destruct (is_sampling_kernel e); [rewrite orb_true_r|]; congruence.
Qed.

Lemma idle_alloc a : idle [EAlloc a].
Proof. repeat constructor. Qed.

Lemma idle_assign a b : idle [EAssign a b].
Proof. repeat constructor. Qed.

Lemma unsampled_scale o a : unsampled [EScale o a].
Proof. repeat constructor. Qed.

Lemma unsampled_spline o m ax i a : unsampled [KSpline1d o m ax i a].
Proof. repeat constructor. Qed.

Create HintDb trace.
#[local] Hint Resolve idle_nil idle_app unsampled_nil unsampled_app
  idle_unsampled idle_alloc idle_assign unsampled_scale unsampled_spline : trace.

Ltac trace_facts :=
  repeat match goal with
         | H : idle ?t |- _ =>
             lazymatch goal with
             | _ : unsampled t |- _ => fail
             | _ => pose proof (idle_unsampled H)
             end
         end.

Ltac solve_trace :=
  trace_facts; unfold unsampled, idle in *;
  rewrite ?Forall_app, ?Forall_cons, ?Forall_nil;
  intuition (auto; try reflexivity).

(** ** The memory primitives *)

Section MemoryRules.
Context {V : Type} (ext : externals V).

Lemma runs_emit e : runs (V:=V) (emit e) (emitted e).
Proof. intros s. exists [e]. simpl. split; [reflexivity|]. split; eauto. Qed.

Lemma runs_read a : runs (read ext a) silent.
Proof. intros s. exists []. simpl. rewrite app_nil_r. repeat split; eauto. Qed.

Lemma runs_write a vals : runs (write (V:=V) a vals) silent.
Proof. intros s. exists []. simpl. rewrite app_nil_r. repeat split; eauto. Qed.

Lemma runs_alloc d sh (vals : list V) : runs (alloc d sh vals) (fresh_array d sh).
Proof.
  intros s. unfold alloc. destruct (existsb _ sh); simpl.
  - exists []. rewrite app_nil_r. auto.
  - eexists. split; [reflexivity|]. simpl. auto.
Qed.

Lemma runs_zeros sh d : runs (zeros ext sh d) (fresh_array d sh).
Proof. apply runs_alloc. Qed.

Lemma runs_astype a d : runs (astype ext a d) (fresh_array d (shape a)).
Proof.
  unfold astype. run_with runs_read. intros tr1 [vals|e] [-> [x Hx]]; [|discriminate].
  apply runs_alloc.
Qed.

Lemma runs_copy a : runs (copy ext a) (fresh_array (dt a) (shape a)).
Proof.
  unfold copy. run_with runs_read. intros tr1 [vals|e] [-> [x Hx]]; [|discriminate].
  apply runs_alloc.
Qed.

Lemma fresh_same_or_fresh a0 d tr r :
  fresh_array d (shape a0) tr r -> same_or_fresh a0 d tr r.
Proof. destruct r; simpl; intuition. Qed.

Lemma runs_astype_nocopy a d : runs (astype_nocopy ext a d) (same_or_fresh a d).
Proof.
  unfold astype_nocopy, dtype_eqb. case_bool_decide.
  - apply runs_ret. simpl. auto.
  - eapply runs_weaken; [apply runs_astype|]. apply fresh_same_or_fresh.
Qed.

Lemma runs_ascontiguousarray a :
  runs (ascontiguousarray ext a) (same_or_fresh a (dt a)).
Proof.
  unfold ascontiguousarray. destruct (c_contiguous a).
  - apply runs_ret. simpl. auto.
  - eapply runs_weaken; [apply runs_copy|]. apply fresh_same_or_fresh.
Qed.

Lemma runs_assign dst src : runs (assign ext dst src) (assigned dst src).
Proof.
  unfold assign. destruct (broadcastable _ _); simpl.
  - run_with runs_read. intros tr1 [vals|e] [-> [x Hx]]; [|discriminate].
    run_with runs_emit. intros tr2 [[]|e] [-> [y Hy]]; [|discriminate].
    eapply runs_weaken; [apply runs_write|].
    intros tr r [-> [[] ->]]. reflexivity.
  - apply runs_raise. simpl. auto.
Qed.

Lemma runs_update e a f : runs (update ext e a f) (emitted e).
Proof.
  unfold update. run_with runs_read. intros tr1 [vals|e'] [-> [x Hx]]; [|discriminate].
  run_with runs_emit. intros tr2 [[]|e'] [-> [y Hy]]; [|discriminate].
  eapply runs_weaken; [apply runs_write|].
  intros tr r [-> [[] ->]]. split; eauto.
Qed.

Lemma runs_launch e out (vals : list V) : runs (launch e out vals) (emitted e).
Proof.
  unfold launch. run_with runs_emit. intros tr2 [[]|e'] [-> [y Hy]]; [|discriminate].
  eapply runs_weaken; [apply runs_write|].
  intros tr r [-> [[] ->]]. split; eauto.
Qed.

End MemoryRules.

(** ** The prefilter *)

Lemma promote_complex_floor d (allow : bool) :
  kind_is_c (promote_types d (if allow then Complex64 else Complex128)) = true.
Proof. destruct d, allow; reflexivity. Qed.

Lemma order_ok_spec order : order_ok order = true <-> 0 <= order <= 5.
Proof. unfold order_ok. rewrite andb_true_iff, !Z.leb_le. tauto. Qed.

Section PrefilterRules.
Context {V : Type} (ext : externals V).

Lemma runs_get_output output input shp :
  runs (_get_output ext output input shp)
    (got_output output (dt input)
       (match shp with None => shape input | Some sh => sh end)).
Proof.
  unfold _get_output. destruct output as [|d|o].
  - eapply runs_weaken; [apply runs_zeros|].
    intros tr [a|e]; simpl; [intros (-> & ? & ?)|]; auto with trace.
    intuition.
  - eapply runs_weaken; [apply runs_zeros|].
    intros tr [a|e]; simpl; [intros (-> & ? & ?)|]; auto with trace.
    intuition.
  - unfold shape_eqb. case_bool_decide; simpl.
    + apply runs_ret. simpl. auto with trace.
    + apply runs_raise. simpl. split; [auto|]. right. eauto.
Qed.

Lemma runs_check_parameter name order mode :
  runs (V:=V) (_check_parameter name order mode) (checked order mode).
Proof.
  unfold _check_parameter, checked, order_ok.
  replace ((order <? 0) || (5 <? order)) with (negb ((0 <=? order) && (order <=? 5)))
    by (rewrite negb_andb, !Z.leb_antisym, !negb_involutive; reflexivity).
  destruct (negb _); [apply runs_raise; auto|].
  destruct (negb _); [apply runs_raise; auto|].
  apply runs_ret; auto.
Qed.

Lemma runs_workspace_from_input input fd :
  runs (workspace_from_input ext input fd)
    (fun tr r => idle tr /\
       match r with
       | Ok t => dt t = fd /\ shape t = shape input
       | Raise e => e = LibraryError
       end).
Proof.
  unfold workspace_from_input.
  run_with runs_astype_nocopy. intros tr1 [t1|e] H1; simpl in H1;
    [|destruct H1 as [-> ->]; auto with trace].
  destruct H1 as (Htr1 & Hd1 & Hs1).
  assert (idle tr1) by (destruct Htr1 as [[-> _]| ->]; auto with trace).
  run_with runs_ascontiguousarray. intros tr2 [t2|e] H2; simpl in H2;
    [|destruct H2 as [-> ->]; rewrite app_nil_r; auto].
  destruct H2 as (Htr2 & Hd2 & Hs2).
  assert (idle tr2) by (destruct Htr2 as [[-> _]| ->]; auto with trace).
  destruct (shares_memory t2 input).
  - eapply runs_weaken; [apply runs_copy|].
    intros tr3 [t3|e]; simpl.
    + intros (-> & ? & ?). split; [auto with trace|]. split; congruence.
    + intros (-> & ->). rewrite app_nil_r. auto with trace.
  - apply runs_ret. rewrite app_nil_r. split; [auto with trace|].
    split; congruence.
Qed.

Lemma runs_get_spline_output input output allow :
  runs (_get_spline_output ext input output allow)
    (got_workspace input output allow).
Proof.
  unfold _get_spline_output, got_workspace.
  fold (min_float (dt input) allow).
  destruct output as [|d|o]; simpl.
  - run_with runs_workspace_from_input. intros tr1 [t|e] [Hi H]; [|auto].
    destruct H. run_ret. auto 10.
  - run_with runs_workspace_from_input. intros tr1 [t|e] [Hi H]; [|auto].
    destruct H. run_ret. auto 10.
  - destruct (kind_is_c (dt input)) eqn:Hc, (kind_is_c (dt o)) eqn:Ho; simpl;
      try (run_raise; split; [auto with trace|]; right; split; eauto).
    all: match goal with
         | |- runs (if ?b then _ else _) _ => destruct b eqn:Hb
         end.
    all: try (run_with runs_workspace_from_input; intros tr1 [t|e] [Hi H]; [|auto];
              destruct H; run_ret; auto 10).
    all: apply andb_true_iff in Hb as [Hb _]; apply andb_true_iff in Hb as [Hb _];
         unfold dtype_eqb in Hb; apply bool_decide_eq_true in Hb.
    all: destruct (negb (is_ o input)).
    all: try (run_with runs_assign; intros tr1 [[]|e] H1; simpl in H1;
              [subst tr1|destruct H1 as [-> ->]; auto with trace]).
    all: try (run_with (runs_ret (V:=V) tt (G:=silent)); [split; eauto|];
              intros tr1 [[]|e] [-> [x Hx]]; [|discriminate]).
    all: run_ret; split; [auto with trace|]; auto.
Qed.

Lemma runs_spline_filter1d x order axis output mode allow :
  runs (spline_filter1d ext x order axis output mode allow)
    (filtered_outcome 0 order (fit_of x output) (requested output (dt x))).
Proof.
  unfold spline_filter1d, filtered_outcome.
  destruct ((order <? 0) || (5 <? order)) eqn:Ho.
  { run_raise. split; [auto with trace|]. split; [auto|].
    apply orb_true_iff in Ho as [Ho|Ho]; apply Z.ltb_lt in Ho; lia. }
  assert (Hord : 0 <= order <= 5).
  { apply orb_false_iff in Ho as [H1 H2]. apply Z.ltb_ge in H1, H2. lia. }
  destruct (normalize_axis_index ext axis (ndim x)) as [ax|];
    [|run_raise; auto with trace].
  destruct (negb (negb _)) eqn:Hrun.
  - run_with runs_get_output. intros tr1 [out|e] H1; simpl in H1.
    + destruct H1 as (Hi & Hd & Hs).
      run_with runs_assign. intros tr2 [[]|e] H2; simpl in H2.
      * subst tr2. run_ret. split; [solve_trace|]. auto.
      * destruct H2 as [-> ->]. split; [solve_trace|auto].
    + destruct H1 as [-> [->|[-> (o & -> & Hne)]]]; split; auto with trace.
      split; [auto|]. simpl. unfold fits. tauto.
  - run_with runs_get_spline_output. intros tr1 [[[temp fd] od]|e] [Hi H1].
    2:{ split; [auto with trace|].
        destruct H1 as [->|[-> (o & -> & Hc1 & Hc2)]]; [auto|].
        split; [auto|]. simpl. unfold fits. intros [_ Hf].
        rewrite Hf in Hc2; [discriminate|auto]. }
    destruct H1 as (Hd & Hod & Hfd & Hsh).
    destruct (negb (spline1d_builds _ _ _ _)); [run_raise; split; [solve_trace|auto]|].
    destruct (_ =? 0); [run_raise; split; [solve_trace|auto]|].
    run_with runs_update. intros tr2 [[]|e] [-> [y Hy]]; [|discriminate].
    run_with runs_update. intros tr3 [[]|e] [-> [z Hz]]; [|discriminate].
    destruct output as [|d|o]; simpl in *.
    + eapply runs_weaken; [apply runs_astype_nocopy|].
      intros tr [a|e] H; simpl in H.
      * destruct H as ([[-> _]| ->] & ? & ?); (split; [solve_trace|split; congruence]).
      * destruct H as [-> ->]. split; [solve_trace|auto].
    + eapply runs_weaken; [apply runs_astype_nocopy|].
      intros tr [a|e] H; simpl in H.
      * destruct H as ([[-> _]| ->] & ? & ?); (split; [solve_trace|split; congruence]).
      * destruct H as [-> ->]. split; [solve_trace|auto].
    + destruct (negb (is_ temp o)).
      * run_with runs_assign. intros tr2 [[]|e] H2; simpl in H2.
        -- subst tr2. run_ret. split; [solve_trace|auto].
        -- destruct H2 as [-> ->]. split; [solve_trace|auto].
      * eapply runs_weaken; [apply runs_astype_nocopy|].
        intros tr [a|e] H; simpl in H.
        -- destruct H as ([[-> _]| ->] & ? & ?); (split; [solve_trace|split; congruence]).
        -- destruct H as [-> ->]. split; [solve_trace|auto].
Qed.

Lemma fits_refl t : fits t t.
Proof. split; auto. Qed.

Lemma runs_spline_filter input order output mode allow :
  runs (spline_filter ext input order output mode allow)
    (filtered_outcome 2 order (not_an_array output) (requested output (dt input))).
Proof.
  unfold spline_filter, filtered_outcome.
  destruct ((order <? 2) || (5 <? order)) eqn:Ho.
  { run_raise. split; [auto with trace|]. split; [auto|].
    apply orb_true_iff in Ho as [Ho|Ho]; apply Z.ltb_lt in Ho; lia. }
  assert (Hord : 2 <= order <= 5).
  { apply orb_false_iff in Ho as [H1 H2]. apply Z.ltb_ge in H1, H2. lia. }
  run_with runs_get_spline_output. intros tr1 [[[temp fd] od]|e] [Hi H1].
  2:{ split; [auto with trace|].
      destruct H1 as [->|[-> (o & -> & Hc1 & Hc2)]]; [auto|].
      split; [auto|]. simpl. tauto. }
  destruct H1 as (Hd & Hod & Hfd & Hsh).
  assert (Hfit : not_an_array output -> fits input temp).
  { intros Hn. destruct Hsh as [Hsh| ->]; [|destruct Hn]. split; [auto|].
    intros Hc. rewrite Hd, Hfd. unfold min_float. rewrite Hc.
    apply promote_complex_floor. }
  set (E := fun e : error =>
              match e with
              | LibraryError => True
              | ShapeMismatch | DtypeMismatch => ~ not_an_array output
              | _ => False
              end).
  assert (Hloop : forall xs x0, (not_an_array output -> fits x0 temp) ->
    runs (for_each xs x0
            (fun x axis =>
               spline_filter1d ext x order (Z.of_nat axis) (OArr temp) mode allow ;;
               ret temp))
      (fun tr r => unsampled tr /\
         match r with
         | Ok x' => not_an_array output -> fits x' temp
         | Raise e => E e
         end)).
  { intros xs. apply runs_for_each; [auto with trace|auto with trace|].
    intros x ax Hx. run_with runs_spline_filter1d.
    intros tr2 [a|e] [Hu H2].
    - run_ret. split; [auto|]. intros _. apply fits_refl.
    - split; [auto|]. unfold E. destruct e; simpl in H2; try tauto.
      destruct H2; lia. }
  assert (Hpre : runs
    (if negb ((order =? 0) || (order =? 1)) && (0 <? ndim input)%nat
     then
       for_each (seq 0 (ndim input)) input
         (fun x axis =>
            spline_filter1d ext x order (Z.of_nat axis) (OArr temp) mode allow ;;
            ret temp) ;;
       ret tt
     else ret tt)
    (fun tr r => unsampled tr /\
       match r with Ok _ => True | Raise e => E e end)).
  { destruct (_ && _); [|run_ret; auto with trace].
    run_with Hloop; [exact Hfit|]. intros tr2 [a|e] [Hu H2]; [|auto].
    run_ret. auto. }
  eapply runs_bind; [exact Hpre|]. clear Hpre Hloop.
  intros tr2 [[]|e] [Hu2 H2].
  2:{ split; [solve_trace|]. unfold E in H2. destruct e; tauto. }
  assert (Htail : forall out tr3, unsampled tr3 ->
    runs (if negb (dtype_eqb (dt out) od) then astype ext out od else ret out)
      (fun tr4 r => unsampled (tr3 ++ tr4) /\
         match r with
         | Ok a => 2 <= order <= 5 /\ dt a = requested output (dt input)
         | Raise InvalidOrder => tr3 ++ tr4 = [] /\ ~ 2 <= order <= 5
         | Raise LibraryError => 2 <= order <= 5
         | Raise ShapeMismatch | Raise DtypeMismatch =>
             2 <= order <= 5 /\ ~ not_an_array output
         | Raise _ => False
         end)).
  { intros out tr3 Hu3. unfold dtype_eqb. case_bool_decide; simpl.
    - run_ret. split; [auto|]. split; [auto|]. congruence.
    - eapply runs_weaken; [apply runs_astype|].
      intros tr4 [a|e] H4; simpl in H4.
      + destruct H4 as (-> & ? & ?). split; [solve_trace|]. split; congruence.
      + destruct H4 as [-> ->]. split; [solve_trace|auto]. }
  destruct output as [|d|o].
  - apply runs_bind_ret. eapply runs_weaken; [apply (Htail temp (tr1 ++ tr2))|];
      [solve_trace|]. cbv beta. intros tr r. rewrite app_assoc. auto.
  - apply runs_bind_ret. eapply runs_weaken; [apply (Htail temp (tr1 ++ tr2))|];
      [solve_trace|]. cbv beta. intros tr r. rewrite app_assoc. auto.
  - apply runs_assoc. run_with runs_assign. intros tr3 [[]|e] H3; simpl in H3.
    + subst tr3. apply runs_bind_ret.
      eapply runs_weaken; [apply (Htail o (tr1 ++ tr2 ++ [EAssign o temp]))|];
        [solve_trace|]. cbv beta. intros tr r. rewrite <- !app_assoc. auto.
    + destruct H3 as [-> ->]. split; [solve_trace|auto].
Qed.

End PrefilterRules.

(** ** The transforms *)

Section TransformRules.
Context {V : Type} (ext : externals V).

Lemma runs_integers_to_float32 input :
  runs (integers_to_float32 ext input) (stage (converted (dt input)) (shape input)).
Proof.
  unfold integers_to_float32, converted, stage. destruct (kind_in_iu (dt input)).
  - eapply runs_weaken; [apply runs_astype|].
    intros tr [a|e]; simpl; [intros (-> & ? & ?)|intros [-> ->]]; auto with trace.
  - run_ret. auto with trace.
Qed.

Lemma runs_contiguous a :
  runs (contiguous ext a) (stage (dt a) (shape a)).
Proof.
  unfold contiguous, stage. destruct (negb _).
  - eapply runs_weaken; [apply runs_ascontiguousarray|].
    intros tr [a'|e]; simpl.
    + intros ([[-> _]| ->] & ? & ?); auto with trace.
    + intros [-> ->]; auto with trace.
  - run_ret. auto with trace.
Qed.

Lemma runs_prefiltered input order mode prefilter allow :
  order_ok order = true ->
  runs (prefiltered ext input order mode prefilter allow)
    (fun tr r => unsampled tr /\
       match r with
       | Ok a => dt a = dt input
       | Raise e => e = LibraryError
       end).
Proof.
  intros Ho%order_ok_spec. unfold prefiltered.
  destruct (prefilter && (1 <? order)) eqn:Hp; [|run_ret; auto with trace].
  apply andb_true_iff in Hp as [_ Hp%Z.ltb_lt].
  eapply runs_weaken; [apply runs_spline_filter|].
  intros tr r [Hu H]. split; [auto|].
  destruct r as [a|e]; [tauto|]. simpl in H. destruct e; try tauto; try lia.
Qed.

Lemma runs_build cfg :
  runs (build ext cfg) (fun tr r => tr = [] /\ (r = Ok tt \/ r = Raise LibraryError)).
Proof. unfold build. destruct (interp_builds _ _); [run_ret|run_raise]; auto. Qed.

Lemma runs_normalize_matrix n matrix offset :
  runs (V:=V) (normalize_matrix n matrix offset)
    (fun tr r => tr = [] /\
       match r with
       | Ok _ => (pndim matrix = 1 \/ pndim matrix = 2)%nat
       | Raise e =>
           e = LibraryError /\ (pndim matrix = 1 \/ pndim matrix = 2)%nat \/
           e = InvalidTransformMatrix /\ ~ (pndim matrix = 1 \/ pndim matrix = 2)%nat
       end).
Proof.
  unfold normalize_matrix.
  destruct (negb _) eqn:Hr.
  - run_raise. split; [auto|]. right. split; [auto|].
    apply negb_true_iff, orb_false_iff in Hr as [H1%Nat.eqb_neq H2%Nat.eqb_neq]. tauto.
  - assert (Hk : (pndim matrix = 1 \/ pndim matrix = 2)%nat).
    { apply negb_false_iff, orb_true_iff in Hr as [H1%Nat.eqb_eq|H2%Nat.eqb_eq]; auto. }
    destruct matrix; repeat run_case; auto.
Qed.

Lemma runs_opencv_matrix n matrix offset :
  runs (opencv_matrix ext n matrix offset)
    (fun tr r => tr = [] /\
       match r with Ok _ => True | Raise e => e = LibraryError end).
Proof. unfold opencv_matrix. repeat run_case; auto. Qed.

Lemma timely_nil e : timely e [].
Proof. destruct e; simpl; auto with trace. Qed.

Lemma runs_sample pre k a flt out (sampler : list V -> list V) din
    (may : error -> Prop) :
  unsampled pre -> sampled_array k = Some flt -> dt flt = converted din ->
  runs (let* fvals := read ext a in launch k out (sampler fvals) ;; ret out)
    (fun tr2 r =>
       match r with
       | Ok _ => exists tr' k' f, pre ++ tr2 = tr' ++ [k'] /\ unsampled tr' /\
                   sampled_array k' = Some f /\ dt f = converted din
       | Raise e => may e /\ timely e (pre ++ tr2)
       end).
Proof.
  intros Hu Hk Hd.
  run_with runs_read. intros tr1 [vals|e] [-> [x Hx]]; [|discriminate].
  run_with runs_launch. intros tr2 [[]|e] [-> [y Hy]]; [|discriminate].
  run_ret. simpl. exists pre, k, flt. auto.
Qed.

Ltac err may :=
  subst; cbv beta; simpl app; rewrite ?app_nil_r;
  split; [unfold may; auto 6|simpl; solve_trace].

Ltac sample pre d :=
  eapply runs_weaken;
  [eapply (@runs_sample pre _ _ _ _ _ d _); [solve_trace|reflexivity|congruence]|];
  cbv beta; intros ? ?; simpl app; rewrite <- ?app_assoc; exact id.

Lemma runs_affine_transform input matrix offset output_shape output order mode
    cval prefilter allow :
  runs (affine_transform ext input matrix offset output_shape output order mode
          cval prefilter allow)
    (transformed (dt input) order mode (may_affine matrix)).
Proof.
  unfold affine_transform, transformed.
  run_with runs_check_parameter. intros tr0 r0 [-> ->].
  destruct (negb (order_ok order)) eqn:Ho; [auto|].
  destruct (negb (mode_in mode supported_modes)) eqn:Hm; [auto|].
  apply negb_false_iff in Ho.
  run_with runs_normalize_matrix. intros tr1 [[m1 o1]|e] [-> H1]; simpl app.
  2:{ split; [unfold may_affine; tauto|apply timely_nil]. }
  assert (Hocv : runs
    (if String.eqb mode "opencv" then opencv_matrix ext (ndim input) m1 o1
     else ret (m1, o1))
    (fun tr r => tr = [] /\
       match r with Ok _ => True | Raise e => e = LibraryError end)).
  { destruct (String.eqb _ _); [apply runs_opencv_matrix|run_ret; auto]. }
  eapply runs_bind; [exact Hocv|]. clear Hocv. intros tr2 [[m2 o2]|e] [-> H2]; simpl app.
  2:{ subst e. unfold may_affine; simpl. auto with trace. }
  run_with runs_get_output. intros tr3 [out|e] H3; simpl in H3.
  2:{ destruct H3 as [-> [->|[-> _]]]; unfold may_affine; simpl; auto with trace. }
  destruct H3 as (Hi3 & Hd3 & Hs3).
  run_with runs_integers_to_float32. intros tr4 [inp|e] [Hi4 H4].
  2:{ subst e. unfold may_affine. simpl. split; [auto|solve_trace]. }
  destruct H4 as [Hd4 Hs4].
  run_with runs_prefiltered; [exact Ho|]. intros tr5 [flt|e] [Hu5 H5].
  2:{ subst e. unfold may_affine. simpl. split; [auto|solve_trace]. }
  run_with runs_contiguous. intros tr6 [flt'|e] [Hi6 H6].
  2:{ subst e. unfold may_affine. simpl. split; [auto|solve_trace]. }
  destruct H6 as [Hd6 Hs6].
  assert (Hpre : unsampled (tr3 ++ tr4 ++ tr5 ++ tr6)) by solve_trace.
  assert (Hdt : dt flt' = converted (dt input)) by congruence.
  destruct m2.
  2:{ destruct (negb (broadcast_ok _ _)); [run_raise; err may_affine|].
      run_with runs_build. intros tb rb [-> [->| ->]]; [|err may_affine].
      sample (tr3 ++ tr4 ++ tr5 ++ tr6) (dt input). }
  all: run_with runs_build; intros tb rb [-> [->| ->]]; [|err may_affine].
  all: destruct (bcast_mat _ _); [|run_raise; err may_affine].
  all: destruct (to_column _ _); [|run_raise; err may_affine].
  all: sample (tr3 ++ tr4 ++ tr5 ++ tr6) (dt input).
Qed.


Lemma opencv_edge_supported mode :
  mode_in mode supported_modes = true ->
  mode_in (if String.eqb mode "opencv" then "_opencv_edge"%string else mode)
    supported_modes = true.
Proof. destruct (String.eqb mode "opencv"); auto. Qed.

Lemma transformed_affine_P1 din order mode v tr r (may : error -> Prop) :
  order_ok order = true -> mode_in mode supported_modes = true ->
  (forall e, e = ShapeMismatch \/ e = LibraryError -> may e) ->
  transformed din order mode (may_affine (P1 v)) tr r ->
  match r with
  | Ok out =>
      exists tr' k f, tr = tr' ++ [k] /\ unsampled tr' /\
        sampled_array k = Some f /\ dt f = converted din
  | Raise e => may e /\ timely e tr
  end.
Proof.
  intros Ho Hm Hmay. unfold transformed. rewrite Ho, Hm. simpl.
  destruct r as [out|e]; [auto|]. intros [Hmay' Ht]. split; [|auto].
  destruct Hmay' as [->|[->|[_ H]]]; auto. destruct H. auto.
Qed.

Lemma transformed_affine_P2 din order mode c m tr r (may : error -> Prop) :
  order_ok order = true -> mode_in mode supported_modes = true ->
  (forall e, e = ShapeMismatch \/ e = LibraryError -> may e) ->
  transformed din order mode (may_affine (P2 c m)) tr r ->
  match r with
  | Ok out =>
      exists tr' k f, tr = tr' ++ [k] /\ unsampled tr' /\
        sampled_array k = Some f /\ dt f = converted din
  | Raise e => may e /\ timely e tr
  end.
Proof.
  intros Ho Hm Hmay. unfold transformed. rewrite Ho, Hm. simpl.
  destruct r as [out|e]; [auto|]. intros [Hmay' Ht]. split; [|auto].
  destruct Hmay' as [->|[->|[_ H]]]; auto. destruct H. auto.
Qed.

Lemma runs_rotate input angle axes reshape output order mode cval prefilter allow :
  runs (rotate ext input angle axes reshape output order mode cval prefilter allow)
    (transformed (dt input) order mode may_rotate).
Proof.
  unfold rotate, transformed.
  run_with runs_check_parameter. intros tr0 r0 [-> ->].
  destruct (negb (order_ok order)) eqn:Ho; [auto|].
  destruct (negb (mode_in mode supported_modes)) eqn:Hm; [auto|].
  apply negb_false_iff in Ho, Hm. simpl app.
  destruct (if _ <? _ then _ else _) as [a0 a1].
  destruct ((a0 <? 0) || _); [run_raise; err may_rotate|].
  destruct (rotate_plan _ _ _ _ _ _) as [[matrix offset] output_shape].
  eapply runs_weaken; [apply runs_affine_transform|].
  intros tr r H. eapply transformed_affine_P2 in H;
    eauto using opencv_edge_supported.
  unfold may_rotate. tauto.
Qed.

Lemma runs_shift input shift_ output order mode cval prefilter allow :
  runs (shift ext input shift_ output order mode cval prefilter allow)
    (transformed (dt input) order mode may_shift).
Proof.
  unfold shift, transformed.
  run_with runs_check_parameter. intros tr0 r0 [-> ->].
  destruct (negb (order_ok order)) eqn:Ho; [auto|].
  destruct (negb (mode_in mode supported_modes)) eqn:Hm; [auto|].
  apply negb_false_iff in Ho, Hm. simpl app.
  destruct (String.eqb mode "opencv").
  { eapply runs_weaken; [apply runs_affine_transform|].
    intros tr r H. eapply transformed_affine_P1 in H; eauto.
    unfold may_shift. tauto. }
  run_with runs_get_output. intros tr3 [out|e] H3; simpl in H3.
  2:{ destruct H3 as [-> [->|[-> _]]]; unfold may_shift; simpl; auto with trace. }
  destruct H3 as (Hi3 & Hd3 & Hs3).
  run_with runs_integers_to_float32. intros tr4 [inp|e] [Hi4 H4]; [|err may_shift].
  destruct H4 as [Hd4 Hs4].
  run_with runs_prefiltered; [exact Ho|]. intros tr5 [flt|e] [Hu5 H5]; [|err may_shift].
  run_with runs_contiguous. intros tr6 [flt'|e] [Hi6 H6]; [|err may_shift].
  destruct H6 as [Hd6 Hs6].
  run_with runs_build. intros tb rb [-> [->| ->]]; [|err may_shift].
  destruct (match shift_ with Scalar x => _ | Arr a => a end);
    try (run_raise; err may_shift).
  destruct (negb _); [run_raise; err may_shift|].
  sample (tr3 ++ tr4 ++ tr5 ++ tr6) (dt input).
Qed.

Lemma runs_zoom input zoom_ output order mode cval prefilter allow :
  runs (zoom ext input zoom_ output order mode cval prefilter allow)
    (transformed (dt input) order mode may_shift).
Proof.
  unfold zoom, transformed.
  run_with runs_check_parameter. intros tr0 r0 [-> ->].
  destruct (negb (order_ok order)) eqn:Ho; [auto|].
  destruct (negb (mode_in mode supported_modes)) eqn:Hm; [auto|].
  apply negb_false_iff in Ho, Hm. simpl app.
  destruct (zoom_shape _ _) as [oshape|]; [|run_raise; err may_shift].
  destruct (String.eqb mode "opencv").
  { destruct (mapM _ _) as [zo|]; [|run_raise; err may_shift].
    eapply runs_weaken; [apply runs_affine_transform|].
    intros tr r H. eapply transformed_affine_P1 in H; eauto.
    unfold may_shift. tauto. }
  destruct (mapM _ _) as [zv|]; [|run_raise; err may_shift].
  run_with runs_get_output. intros tr3 [out|e] H3; simpl in H3.
  2:{ destruct H3 as [-> [->|[-> _]]]; unfold may_shift; simpl; auto with trace. }
  destruct H3 as (Hi3 & Hd3 & Hs3).
  run_with runs_integers_to_float32. intros tr4 [inp|e] [Hi4 H4]; [|err may_shift].
  destruct H4 as [Hd4 Hs4].
  run_with runs_prefiltered; [exact Ho|]. intros tr5 [flt|e] [Hu5 H5]; [|err may_shift].
  run_with runs_contiguous. intros tr6 [flt'|e] [Hi6 H6]; [|err may_shift].
  destruct H6 as [Hd6 Hs6].
  run_with runs_build. intros tb rb [-> [->| ->]]; [|err may_shift].
  destruct (negb _); [run_raise; err may_shift|].
  sample (tr3 ++ tr4 ++ tr5 ++ tr6) (dt input).
Qed.

Lemma runs_map_coordinates input coordinates output order mode cval prefilter allow :
  runs (map_coordinates ext input coordinates output order mode cval prefilter allow)
    (transformed (dt input) order mode may_map).
Proof.
  unfold map_coordinates, transformed.
  run_with runs_check_parameter. intros tr0 r0 [-> ->].
  destruct (negb (order_ok order)) eqn:Ho; [auto|].
  destruct (negb (mode_in mode supported_modes)) eqn:Hm; [auto|].
  apply negb_false_iff in Ho, Hm. simpl app.
  assert (Hpad : runs
    (if String.eqb mode "opencv" || String.eqb mode "_opencv_edge" then
       let* vals := read ext input in
       let* input' := alloc (dt input) (map (fun n => n + 2) (shape input))
                        (pad_constant ext (shape input) cval vals) in
       let* cvals := read ext coordinates in
       let* coordinates' := alloc (add_dtype (dt coordinates)) (shape coordinates)
                              (map (add_one ext) cvals) in
       ret (input', coordinates', "constant"%string)
     else ret (input, coordinates, mode))
    (fun tr r => idle tr /\
       match r with
       | Ok (i', _, _) => dt i' = dt input
       | Raise e => e = LibraryError
       end)).
  { destruct (_ || _); [|run_ret; auto with trace].
    run_with runs_read. intros t1 [vals|e] [-> [x Hx]]; [|discriminate].
    run_with runs_alloc. intros t2 [i'|e] H2; simpl in H2;
      [|destruct H2 as [-> ->]; auto with trace].
    destruct H2 as (-> & Hd & _).
    run_with runs_read. intros t3 [cvals|e] [-> [y Hy]]; [|discriminate].
    run_with runs_alloc. intros t4 [c'|e] H4; simpl in H4;
      [|destruct H4 as [-> ->]; split; [solve_trace|auto]].
    destruct H4 as (-> & _ & _). run_ret. split; [solve_trace|auto]. }
  eapply runs_bind; [exact Hpad|]. clear Hpad.
  intros tr1 [[[inp0 coords0] mode0]|e] [Hi1 H1]; [|err may_map].
  run_with runs_get_output. intros tr3 [out|e] H3; simpl in H3.
  2:{ destruct H3 as [-> [->|[-> _]]]; err may_map. }
  destruct H3 as (Hi3 & Hd3 & Hs3).
  run_with runs_integers_to_float32. intros tr4 [inp|e] [Hi4 H4]; [|err may_map].
  destruct H4 as [Hd4 Hs4].
  assert (Hco : runs
    (if kind_in_iu (dt coords0) then
       if 1 <? order then
         astype ext coords0
           (promote_types (dt coords0) (if allow then Float32 else Float64))
       else ret coords0
     else if negb (kind_is_f (dt coords0)) then raise DtypeMismatch
     else
       astype_nocopy ext coords0
         (promote_types (dt coords0) (if allow then Float32 else Float64)))
    (fun tr r => idle tr /\
       match r with
       | Ok _ => True
       | Raise e => e = LibraryError \/ e = DtypeMismatch
       end)).
  { repeat run_case; auto with trace.
    - eapply runs_weaken; [apply runs_astype|].
      intros tr [a|e]; simpl; [intros (-> & _)|intros [-> ->]]; auto with trace.
    - eapply runs_weaken; [apply runs_astype_nocopy|].
      intros tr [a|e]; simpl; [intros ([[-> _]| ->] & _)|intros [-> ->]];
        auto with trace. }
  eapply runs_bind; [exact Hco|]. clear Hco.
  intros tr5 [coords|e] [Hi5 H5].
  2:{ destruct H5 as [->| ->]; err may_map. }
  run_with runs_prefiltered; [exact Ho|]. intros tr6 [flt|e] [Hu6 H6]; [|err may_map].
  destruct (shape coords); [run_raise; err may_map|].
  run_with runs_build. intros tb rb [-> [->| ->]]; [|err may_map].
  run_with runs_contiguous. intros tr7 [flt'|e] [Hi7 H7]; [|err may_map].
  destruct H7 as [Hd7 Hs7].
  run_with runs_contiguous. intros tr8 [coords'|e] [Hi8 H8]; [|err may_map].
  run_with runs_read. intros t9 [fvals|e] [-> [x Hx]]; [|discriminate].
  sample (tr1 ++ tr3 ++ tr4 ++ tr5 ++ tr6 ++ tr7 ++ tr8) (dt input).
Qed.

End TransformRules.

(** ** What a transform outcome entails *)




Lemma filtered_order lo order fit d tr (r : result ndarray) :
  filtered_outcome lo order fit d tr r ->
  (r = Raise InvalidOrder <-> ~ lo <= order <= 5).
Proof.
  intros [_ H]. split.
  - intros ->. tauto.
  - intros Hn. destruct r as [a|e]; [tauto|]. destruct e; tauto.
Qed.

Lemma filtered_mode lo order fit d tr (r : result ndarray) :
  filtered_outcome lo order fit d tr r -> r <> Raise InvalidMode.
Proof. intros [_ H] ->. exact H. Qed.

Section Entails.
Variables (din : dtype) (order : Z) (mode : string) (may : error -> Prop).
Variables (tr : list event) (r : result ndarray).
Hypothesis Hmay : forall e, may e -> e <> InvalidOrder /\ e <> InvalidMode.
Hypothesis H : transformed din order mode may tr r.

Lemma transformed_order : r = Raise InvalidOrder <-> ~ 0 <= order <= 5.
Proof.
  unfold transformed in H. rewrite <- order_ok_spec.
  destruct (order_ok order); cbn [negb] in H.
  - split; [|intros Hn; destruct Hn; auto]. intros ->.
    destruct (negb (mode_in _ _)); [destruct H; discriminate|].
    destruct H as [Hm _]. apply Hmay in Hm. tauto.
  - destruct H as [_ ->]. split; auto.
Qed.

Lemma transformed_mode :
  r = Raise InvalidMode <->
  0 <= order <= 5 /\ mode_in mode supported_modes = false.
Proof.
  unfold transformed in H. rewrite <- order_ok_spec.
  destruct (order_ok order); cbn [negb] in H.
  - destruct (mode_in mode supported_modes); cbn [negb] in H.
    + split; [|intros [_ ?]; discriminate]. intros ->.
      destruct H as [Hm _]. apply Hmay in Hm. tauto.
    + destruct H as [_ ->]. tauto.
  - destruct H as [_ ->]. split; [discriminate|]. intros [? _]. discriminate.
Qed.



End Entails.

Lemma may_map_sound e : may_map e -> e <> InvalidOrder /\ e <> InvalidMode.
Proof. unfold may_map. intuition congruence. Qed.
Lemma may_affine_sound m e : may_affine m e -> e <> InvalidOrder /\ e <> InvalidMode.
Proof. unfold may_affine. intuition congruence. Qed.
Lemma may_rotate_sound e : may_rotate e -> e <> InvalidOrder /\ e <> InvalidMode.
Proof. unfold may_rotate. intuition congruence. Qed.
Lemma may_shift_sound e : may_shift e -> e <> InvalidOrder /\ e <> InvalidMode.
Proof. unfold may_shift. intuition congruence. Qed.

(** ** Validation of the spline order *)

(** C5, as the code has it: [spline_filter1d] and the five transforms
    raise the order error exactly for an order outside [0, 5];
    [spline_filter] raises it exactly for an order outside [2, 5], so it
    refuses the orders 0 and 1 that its siblings accept. *)
Theorem C5_order_validation {V} (ext : externals V) (order : Z) :
  (forall x axis output mode allow s,
     (spline_filter1d ext x order axis output mode allow s).1 = Raise InvalidOrder
     <-> ~ 0 <= order <= 5) /\
  (forall x output mode allow s,
     (spline_filter ext x order output mode allow s).1 = Raise InvalidOrder
     <-> ~ 2 <= order <= 5) /\
  (forall x c output mode cval prefilter allow s,
     (map_coordinates ext x c output order mode cval prefilter allow s).1
       = Raise InvalidOrder <-> ~ 0 <= order <= 5) /\
  (forall x m off osh output mode cval prefilter allow s,
     (affine_transform ext x m off osh output order mode cval prefilter allow s).1
       = Raise InvalidOrder <-> ~ 0 <= order <= 5) /\
  (forall x sh output mode cval prefilter allow s,
     (shift ext x sh output order mode cval prefilter allow s).1
       = Raise InvalidOrder <-> ~ 0 <= order <= 5) /\
  (forall x z output mode cval prefilter allow s,
     (zoom ext x z output order mode cval prefilter allow s).1
       = Raise InvalidOrder <-> ~ 0 <= order <= 5) /\
  (forall x angle axes reshape output mode cval prefilter allow s,
     (rotate ext x angle axes reshape output order mode cval prefilter allow s).1
       = Raise InvalidOrder <-> ~ 0 <= order <= 5).
Proof.
  repeat match goal with |- _ /\ _ => split end; intros.
  all: match goal with
       | |- context [spline_filter1d ?e ?x ?o ?a ?out ?m ?al ?s] =>
           destruct (runs_spline_filter1d e x o a out m al s) as (tr & _ & H);
           apply filtered_order in H
       | |- context [spline_filter ?e ?x ?o ?out ?m ?al ?s] =>
           destruct (runs_spline_filter e x o out m al s) as (tr & _ & H);
           apply filtered_order in H
       | |- context [map_coordinates ?e ?x ?c ?out ?o ?m ?cv ?p ?al ?s] =>
           destruct (runs_map_coordinates e x c out o m cv p al s) as (tr & _ & H);
           apply (transformed_order may_map_sound) in H
       | |- context [affine_transform ?e ?x ?mm ?off ?osh ?out ?o ?m ?cv ?p ?al ?s] =>
           destruct (runs_affine_transform e x mm off osh out o m cv p al s) as (tr & _ & H);
           apply (transformed_order (@may_affine_sound mm)) in H
       | |- context [shift ?e ?x ?sh ?out ?o ?m ?cv ?p ?al ?s] =>
           destruct (runs_shift e x sh out o m cv p al s) as (tr & _ & H);
           apply (transformed_order may_shift_sound) in H
       | |- context [zoom ?e ?x ?z ?out ?o ?m ?cv ?p ?al ?s] =>
           destruct (runs_zoom e x z out o m cv p al s) as (tr & _ & H);
           apply (transformed_order may_shift_sound) in H
       | |- context [rotate ?e ?x ?an ?ax ?rs ?out ?o ?m ?cv ?p ?al ?s] =>
           destruct (runs_rotate e x an ax rs out o m cv p al s) as (tr & _ & H);
           apply (transformed_order may_rotate_sound) in H
       end; exact H.
Qed.

(** [spline_filter] refuses order 1, an order in [0, 5]. *)
Lemma C5_spline_filter_refuses_order_1 :
  0 <= 1 <= 5 /\
  (spline_filter Toy.ext (Toy.arr0 Float64 [4]) 1 (ODtype Float64) "mirror" true
     (Toy.st0 [1; 2; 3; 4]%Q)).1 = Raise InvalidOrder /\
  (spline_filter1d Toy.ext (Toy.arr0 Float64 [4]) 1 (-1) (ODtype Float64) "mirror"
     true (Toy.st0 [1; 2; 3; 4]%Q)).1 <> Raise InvalidOrder.
Proof. split; [lia|]. split; [reflexivity|]. vm_compute. discriminate. Qed.

(** ** Validation of the boundary mode *)

(** C7, as the code has it: the five transforms, given a valid order, raise
    the mode error exactly for a mode outside the seven recognised ones;
    [spline_filter1d] and [spline_filter] never check the mode. *)
Theorem C7_mode_validation {V} (ext : externals V) (order : Z) (mode : string) :
  (forall x c output cval prefilter allow s,
     (map_coordinates ext x c output order mode cval prefilter allow s).1
       = Raise InvalidMode
     <-> 0 <= order <= 5 /\ mode_in mode supported_modes = false) /\
  (forall x m off osh output cval prefilter allow s,
     (affine_transform ext x m off osh output order mode cval prefilter allow s).1
       = Raise InvalidMode
     <-> 0 <= order <= 5 /\ mode_in mode supported_modes = false) /\
  (forall x sh output cval prefilter allow s,
     (shift ext x sh output order mode cval prefilter allow s).1
       = Raise InvalidMode
     <-> 0 <= order <= 5 /\ mode_in mode supported_modes = false) /\
  (forall x z output cval prefilter allow s,
     (zoom ext x z output order mode cval prefilter allow s).1
       = Raise InvalidMode
     <-> 0 <= order <= 5 /\ mode_in mode supported_modes = false) /\
  (forall x angle axes reshape output cval prefilter allow s,
     (rotate ext x angle axes reshape output order mode cval prefilter allow s).1
       = Raise InvalidMode
     <-> 0 <= order <= 5 /\ mode_in mode supported_modes = false) /\
  (forall x axis output allow s,
     (spline_filter1d ext x order axis output mode allow s).1 <> Raise InvalidMode) /\
  (forall x output allow s,
     (spline_filter ext x order output mode allow s).1 <> Raise InvalidMode).
Proof.
  repeat match goal with |- _ /\ _ => split end; intros.
  all: match goal with
       | |- context [spline_filter1d ?e ?x ?o ?a ?out ?m ?al ?s] =>
           destruct (runs_spline_filter1d e x o a out m al s) as (tr & _ & H);
           apply filtered_mode in H
       | |- context [spline_filter ?e ?x ?o ?out ?m ?al ?s] =>
           destruct (runs_spline_filter e x o out m al s) as (tr & _ & H);
           apply filtered_mode in H
       | |- context [map_coordinates ?e ?x ?c ?out ?o ?m ?cv ?p ?al ?s] =>
           destruct (runs_map_coordinates e x c out o m cv p al s) as (tr & _ & H);
           apply (transformed_mode may_map_sound) in H
       | |- context [affine_transform ?e ?x ?mm ?off ?osh ?out ?o ?m ?cv ?p ?al ?s] =>
           destruct (runs_affine_transform e x mm off osh out o m cv p al s) as (tr & _ & H);
           apply (transformed_mode (@may_affine_sound mm)) in H
       | |- context [shift ?e ?x ?sh ?out ?o ?m ?cv ?p ?al ?s] =>
           destruct (runs_shift e x sh out o m cv p al s) as (tr & _ & H);
           apply (transformed_mode may_shift_sound) in H
       | |- context [zoom ?e ?x ?z ?out ?o ?m ?cv ?p ?al ?s] =>
           destruct (runs_zoom e x z out o m cv p al s) as (tr & _ & H);
           apply (transformed_mode may_shift_sound) in H
       | |- context [rotate ?e ?x ?an ?ax ?rs ?out ?o ?m ?cv ?p ?al ?s] =>
           destruct (runs_rotate e x an ax rs out o m cv p al s) as (tr & _ & H);
           apply (transformed_mode may_rotate_sound) in H
       end; exact H.
Qed.

(** [spline_filter1d] accepts a mode that is not a boundary mode. *)
Lemma C7_spline_filter1d_accepts_any_mode :
  mode_in "bogus" supported_modes = false /\
  (spline_filter1d Toy.ext (Toy.arr0 Float64 [4]) 1 (-1) (ODtype Float64) "bogus"
     true (Toy.st0 [1; 2; 3; 4]%Q)).1
  = Ok (Ndarray 1 1 [0; 1; 2; 3]%nat Float64 [4]) /\
  (spline_filter Toy.ext (Toy.arr0 Float64 [4]) 3 (ODtype Float64) "bogus"
     true (Toy.st0 [1; 2; 3; 4]%Q)).1
  = Ok (Ndarray 1 1 [0; 1; 2; 3]%nat Float64 [4]).
Proof. repeat split; vm_compute; reflexivity. Qed.

(** ** When the errors surface *)



(** ** The transform matrix *)

Lemma check_parameter_passes {V} name order mode (s : state V) :
  order_ok order = true -> mode_in mode supported_modes = true ->
  _check_parameter name order mode s = (Ok tt, s).
Proof.
  intros Ho Hm. destruct (runs_check_parameter (V:=V) name order mode s) as (tr & Ht & -> & Hr).
  rewrite Ho, Hm in Hr. simpl in Hr.
  unfold _check_parameter in *.
  destruct ((order <? 0) || (5 <? order)); [discriminate|].
  destruct (negb (mode_in mode supported_modes)); [discriminate|]. reflexivity.
Qed.

(** C6, as the code has it: given a valid order and mode, the matrix error
    is raised exactly when the matrix is neither one- nor two-dimensional;
    the shape of a two-dimensional matrix is not checked.  A matrix of
    [ndim] rows and [ndim + 1] columns, and one of [ndim + 1] rows and
    columns, are split into the matrix and the offset, whatever offset
    the caller gave. *)
Theorem C6_matrix_validation {V} (ext : externals V) x matrix off osh output
    order mode cval prefilter allow (s : state V) :
  order_ok order = true -> mode_in mode supported_modes = true ->
  ((affine_transform ext x matrix off osh output order mode cval prefilter
      allow s).1 = Raise InvalidTransformMatrix
   <-> ~ (pndim matrix = 1 \/ pndim matrix = 2)%nat) /\
  (forall rows off',
     length rows = ndim x ->
     normalize_matrix (ndim x) (P2 (ndim x + 1) rows) off' s
     = (Ok (P2 (ndim x) (map but_last rows), P1 (map last0 rows)), s)) /\
  (forall rows off',
     length rows = (ndim x + 1)%nat ->
     normalize_matrix (ndim x) (P2 (ndim x + 1) rows) off' s
     = (Ok (P2 (ndim x) (map but_last (but_last rows)),
            P1 (map last0 (but_last rows))), s)).
Proof.
  intros Ho Hm. split; [|split].
  - split.
    + destruct (runs_affine_transform ext x matrix off osh output order mode cval
                  prefilter allow s) as (tr & _ & H).
      intros Hr. rewrite Hr in H. unfold transformed in H. rewrite Ho, Hm in H.
      simpl in H. destruct H as [[?|[?|[_ ?]]] _]; [discriminate|discriminate|auto].
    + intros Hn. unfold affine_transform, bind.
      rewrite check_parameter_passes by auto.
      unfold normalize_matrix.
      destruct ((pndim matrix =? 1)%nat || (pndim matrix =? 2)%nat) eqn:Hk;
        [|reflexivity].
      destruct Hn. apply orb_true_iff in Hk as [Hk|Hk]; apply Nat.eqb_eq in Hk; auto.
  - intros rows off' Hlen. unfold normalize_matrix. simpl.
    replace (Z.of_nat (length rows) =? Z.of_nat (ndim x + 1) - 1) with true
      by (symmetry; apply Z.eqb_eq; lia).
    replace (ndim x + 1 - 1)%nat with (ndim x) by lia. reflexivity.
  - intros rows off' Hlen. unfold normalize_matrix. simpl.
    replace (Z.of_nat (length rows) =? Z.of_nat (ndim x + 1) - 1) with false
      by (symmetry; apply Z.eqb_neq; lia).
    rewrite Hlen, Nat.eqb_refl.
    replace (ndim x + 1 =? 0)%nat with false by (symmetry; apply Nat.eqb_neq; lia).
    replace (ndim x + 1 - 1)%nat with (ndim x) by lia. reflexivity.
Qed.

Lemma C6_matrix_validation_witness :
  let x := Toy.arr0 Float64 [2; 2] in
  let s := Toy.st0 [1; 2; 3; 4]%Q in
  ((affine_transform Toy.ext x (P0 1%Q) (Scalar 0%Q) None ONone 1 "constant"
      0%Q true true s).1 = Raise InvalidTransformMatrix
   <-> ~ (pndim (P0 1%Q) = 1 \/ pndim (P0 1%Q) = 2)%nat) /\
  (forall rows off',
     length rows = ndim x ->
     normalize_matrix (ndim x) (P2 (ndim x + 1) rows) off' s
     = (Ok (P2 (ndim x) (map but_last rows), P1 (map last0 rows)), s)) /\
  (forall rows off',
     length rows = (ndim x + 1)%nat ->
     normalize_matrix (ndim x) (P2 (ndim x + 1) rows) off' s
     = (Ok (P2 (ndim x) (map but_last (but_last rows)),
            P1 (map last0 (but_last rows))), s)).
Proof.
  intros x s.
  apply (C6_matrix_validation Toy.ext x (P0 1%Q) (Scalar 0%Q) None ONone
           (order:=1) (mode:="constant") 0%Q true true s); reflexivity.
Defined.

(** A matrix of one row and one column, for an input of rank two, has none
    of the accepted shapes; it is broadcast, not refused. *)
Lemma C6_unlisted_shape_is_broadcast :
  let r := affine_transform Toy.ext (Toy.arr0 Float64 [2; 2]) (P2 1 [[2%Q]])
             (Scalar 0%Q) None ONone 1 "constant" 0%Q true true
             (Toy.st0 [1; 2; 3; 4]%Q) in
  accepted_form 2 (pshape (P2 1 [[2%Q]])) = false /\
  r.1 = Ok (Ndarray 1 1 [0; 1; 2; 3]%nat Float64 [2; 2]) /\
  List.last (trace r.2) (EAlloc (Toy.arr0 Float64 []))
  = KAffine (KernelCfg AffineK 2 false [2; 2] "constant" 1 false)
      (Toy.arr0 Float64 [2; 2]) [[2; 2; 0]; [2; 2; 0]]%Q
      (Ndarray 1 1 [0; 1; 2; 3]%nat Float64 [2; 2]).
Proof. vm_compute. auto. Qed.

(** ** Working precision *)



(** ** The conversion of integer inputs *)

Section Conversion.
Context {V : Type} (ext : externals V).




Lemma keeps_trans (s1 s2 s3 : state V) : keeps s1 s2 -> keeps s2 s3 -> keeps s1 s3.
Proof.
  intros [H1 H2] [H3 H4]. split; [lia|].
  intros m Hm. rewrite H4 by lia. apply H2, Hm.
Qed.









Lemma normalize_matrix_state n matrix offset (s : state V) :
  (normalize_matrix n matrix offset s).2 = s.
Proof.
  unfold normalize_matrix. destruct (negb _); [reflexivity|].
  destruct matrix; try reflexivity.
  destruct (_ =? _); [reflexivity|].
  destruct (_ =? _)%nat; [|reflexivity].
  destruct (_ =? _)%nat; reflexivity.
Qed.

Lemma opencv_matrix_state n matrix offset (s : state V) :
  (opencv_matrix ext n matrix offset s).2 = s.
Proof.
  unfold opencv_matrix. destruct (bcast_mat _ _); [|reflexivity].
  destruct (to_column _ _); reflexivity.
Qed.







End Conversion.



(** The call of the witness: the output, the float32 copy of the input,
    the float64 workspace of the prefilter, filled from the copy, its work
    along the one axis, the float32 result, and the shift kernel on that
    result. *)
Example integer_input_trace :
  let x := Toy.arr0 Int32 [4] in
  let a := Ndarray 2 2 (seq 0 4) Float32 [4] in
  let t := Ndarray 3 3 (seq 0 4) Float64 [4] in
  let f := Ndarray 4 4 (seq 0 4) Float32 [4] in
  let out := Ndarray 1 1 (seq 0 4) Int32 [4] in
  exists cfg info,
    trace (shift Toy.ext x (Scalar 1) ONone 3 "mirror" 0%Q true false
             (Toy.st0 [1; 2; 3; 4]%Q)).2
    = [EAlloc out; EAlloc a; EAlloc t; EAssign t a; EScale 3 t;
       KSpline1d 3 "mirror" 0 info t; EAlloc f; KShift cfg f [1%Q] out].
Proof. vm_compute. eauto. Qed.





(** ** The store *)

Section StoreFacts.
Context {V : Type} (ext : externals V).

Lemma put_all_length ixs (vals cells : list V) :
  length (put_all ixs vals cells) = length cells.
Proof.
  unfold put_all. revert vals cells.
  induction ixs as [|i ixs IH]; intros [|v vals] cells; simpl; auto.
  rewrite IH. apply length_insert.
Qed.






End StoreFacts.

(** ** The passthrough of [spline_filter1d] *)





(** The passthrough along an axis of extent 1, at order 3, into a buffer of
    the caller. *)
Example passthrough_extent_one :
  let x := Ndarray 0 0 [0; 1; 2]%nat Float64 [1; 3] in
  let o := Ndarray 1 1 [0; 1; 2]%nat Float32 [1; 3] in
  let s := State 2 2 (fun m => if (m =? 0)%nat then [5; 6; 7]%Q else [0; 0; 0]%Q) [] in
  let r := spline_filter1d Toy.ext x 3 0 (OArr o) "mirror" true s in
  r.1 = Ok o /\ trace r.2 = [EAssign o x] /\ store r.2 1%nat = [5; 6; 7]%Q.
Proof. vm_compute. auto. Qed.

(** C9, where the code departs from it: the axis is normalised before
    the test for a passthrough, so a call whose axis is refused ends in
    that error, at any order, and leaves the state as it was.  For an
    input of rank 0 no axis is in range: the passthrough that the test
    provides for it is never reached. *)
Theorem C9_rank_0_input_is_refused {V} (ext : externals V) x order axis output
    mode allow (s : state V) :
  ndim x = 0%nat ->
  normalize_axis_index ext axis 0 = None ->
  spline_filter1d ext x order axis output mode allow s
  = (Raise (if (order <? 0) || (5 <? order) then InvalidOrder else LibraryError),
     s).
Proof.
  intros Hn Hax. unfold spline_filter1d.
  destruct ((order <? 0) || (5 <? order)); [reflexivity|].
  rewrite Hn, Hax. reflexivity.
Qed.

Lemma C9_rank_0_input_is_refused_witness :
  let x := Ndarray 0 0 [0%nat] Float64 [] in
  let s := Toy.st0 [5%Q] in
  spline_filter1d Toy.ext x 1 (-1) (ODtype Float64) "mirror" true s
  = (Raise LibraryError, s).
Proof.
  intros x s.
  exact (@C9_rank_0_input_is_refused Q Toy.ext x 1 (-1) (ODtype Float64)
           "mirror"%string true s eq_refl eq_refl).
Defined.

(** ** Aliasing of the workspace *)

Section Aliasing.
Context {V : Type} (ext : externals V).

Lemma alloc_beyond d sh (vals : list V) s a s' :
  alloc d sh vals s = (Ok a, s') -> beyond s a /\ later s s'.
Proof.
  unfold alloc. destruct (existsb _ sh); [discriminate|].
  intros [= <- <-]. unfold beyond, later. simpl. lia.
Qed.

Lemma copy_beyond a0 s a s' :
  copy ext a0 s = (Ok a, s') -> beyond s a /\ later s s'.
Proof. unfold copy, bind, read. apply alloc_beyond. Qed.

Lemma astype_nocopy_beyond a0 d s a s' :
  astype_nocopy ext a0 d s = (Ok a, s') ->
  later s s' /\ (a = a0 \/ beyond s a).
Proof.
  unfold astype_nocopy. destruct (dtype_eqb _ _).
  - intros [= <- <-]. unfold later. split; [lia|auto].
  - unfold astype, bind, read. intros H%alloc_beyond. tauto.
Qed.

Lemma ascontiguousarray_beyond a0 s a s' :
  ascontiguousarray ext a0 s = (Ok a, s') ->
  later s s' /\ (a = a0 \/ beyond s a).
Proof.
  unfold ascontiguousarray. destruct (c_contiguous _).
  - intros [= <- <-]. unfold later. split; [lia|auto].
  - intros H%copy_beyond. tauto.
Qed.

Lemma beyond_disjoint (s : state V) a input :
  (oid input < next_oid s)%nat -> (mem input < next_mem s)%nat ->
  beyond s a -> shares_memory a input = false.
Proof.
  intros Ho Hm [Ho' Hm']. unfold shares_memory, is_.
  replace (oid a =? oid input)%nat with false by (symmetry; apply Nat.eqb_neq; lia).
  replace (mem a =? mem input)%nat with false by (symmetry; apply Nat.eqb_neq; lia).
  reflexivity.
Qed.

Lemma workspace_from_input_private input fd s temp s' :
  (oid input < next_oid s)%nat -> (mem input < next_mem s)%nat ->
  workspace_from_input ext input fd s = (Ok temp, s') ->
  shares_memory temp input = false.
Proof.
  intros Ho Hm. unfold workspace_from_input, bind.
  destruct (astype_nocopy ext input fd s) as [[t1|e] s1] eqn:H1; [|discriminate].
  apply astype_nocopy_beyond in H1 as [[L1o L1m] _].
  destruct (ascontiguousarray ext t1 s1) as [[t2|e] s2] eqn:H2; [|discriminate].
  apply ascontiguousarray_beyond in H2 as [[L2o L2m] _].
  destruct (shares_memory t2 input) eqn:Hs.
  - intros [B _]%copy_beyond. eapply (@beyond_disjoint s2); eauto; lia.
  - intros [= <- <-]. exact Hs.
Qed.

End Aliasing.

(** C8, as the code has it: the workspace the prefilter mutates either
    does not share memory with the input, or is the caller's output array
    itself, taken as it is because it has the working dtype and is
    C-contiguous; no aliasing test is made on that array. *)
Theorem C8_workspace_private_or_output {V} (ext : externals V) input output
    allow (s : state V) temp fd od :
  (oid input < next_oid s)%nat -> (mem input < next_mem s)%nat ->
  (_get_spline_output ext input output allow s).1 = Ok (temp, fd, od) ->
  shares_memory temp input = false \/
  output = OArr temp /\ dt temp = fd /\ c_contiguous temp = true.
Proof.
  intros Ho Hm. unfold _get_spline_output.
  assert (Hw : forall d od',
    ((let* t := workspace_from_input ext input d in ret (t, d, od')) s).1
      = Ok (temp, fd, od) -> shares_memory temp input = false).
  { intros d od'. unfold bind.
    destruct (workspace_from_input ext input d s) as [[t|e] s1] eqn:H1;
      [|discriminate].
    intros [= <- _ _]. eapply workspace_from_input_private; eauto. }
  destruct output as [|d|o].
  - intros H%Hw. auto.
  - intros H%Hw. auto.
  - destruct (kind_is_c (dt input) && negb (kind_is_c (dt o))); [discriminate|].
    destruct (dtype_eqb (dt o) _ && _ && c_contiguous o) eqn:Hb.
    + apply andb_true_iff in Hb as [Hb Hc]. apply andb_true_iff in Hb as [Hb _].
      unfold dtype_eqb in Hb. apply bool_decide_eq_true in Hb.
      unfold bind.
      destruct ((if negb (is_ o input) then assign ext o input else ret tt) s)
        as [[[]|e] s1]; [|discriminate].
      intros [= <- <- _]. right. auto.
    + intros H%Hw. auto.
Qed.


Lemma C8_workspace_private_or_output_witness :
  let input := Toy.arr0 Float64 [4] in
  let temp := Ndarray 1 1 [0; 1; 2; 3]%nat Float64 [4] in
  shares_memory temp input = false \/
  ODtype Float64 = OArr temp /\ dt temp = Float64 /\ c_contiguous temp = true.
Proof.
  intros input temp.
  refine (@C8_workspace_private_or_output Q Toy.ext input (ODtype Float64) true
            (Toy.st0 [1; 2; 3; 4]%Q) temp Float64 Float64 _ _ _).
  - simpl. lia.
  - simpl. lia.
  - vm_compute. reflexivity.
Defined.

(** An output array that overlaps the input is taken as the workspace: the
    prefilter then works in place on cells of the input. *)
Lemma C8_overlapping_output_is_the_workspace :
  let x := Ndarray 0 0 [0; 1; 2; 3]%nat Float64 [4] in
  let o := Ndarray 1 0 [2; 3; 4; 5]%nat Float64 [4] in
  let s := State 2 1 (fun m => if (m =? 0)%nat then [1; 2; 3; 4; 5; 6]%Q else []) [] in
  let r := spline_filter1d Toy.ext x 3 (-1) (OArr o) "mirror" true s in
  shares_memory o x = true /\
  (_get_spline_output Toy.ext x (OArr o) true s).1 = Ok (o, Float64, Float64) /\
  r.1 = Ok o /\
  trace r.2 = [EAssign o x; EScale 3 o; KSpline1d 3 "mirror" 0 [1; 4; 4] o] /\
  read_in Toy.ext s x = [1; 2; 3; 4]%Q /\
  read_in Toy.ext r.2 x = [1; 2; 3; 6]%Q.
Proof. vm_compute. repeat split; reflexivity. Qed.

(** ** Shapes through the prefilter *)

Section ShapeRules.
Context {V : Type} (ext : externals V).

Lemma runs_spline_filter_shape input order output mode allow :
  not_an_array output ->
  runs (spline_filter ext input order output mode allow)
    (fun tr r => match r with
                 | Ok a => shape a = shape input
                 | Raise _ => True
                 end).
Proof.
  intros Hna. unfold spline_filter.
  destruct ((order <? 2) || (5 <? order)); [run_raise; exact I|].
  run_with runs_get_spline_output. intros tr1 [[[temp fd] od]|e] [_ H1]; [|exact I].
  destruct H1 as (_ & _ & _ & Hsh).
  assert (Hs : shape temp = shape input).
  { destruct Hsh as [Hsh| ->]; [exact Hsh|destruct Hna]. }
  assert (Hpre : runs
    (if negb ((order =? 0) || (order =? 1)) && (0 <? ndim input)%nat
     then
       for_each (seq 0 (ndim input)) input
         (fun x axis =>
            spline_filter1d ext x order (Z.of_nat axis) (OArr temp) mode allow ;;
            ret temp) ;;
       ret tt
     else ret tt)
    (fun _ _ => True)).
  { destruct (_ && _); [|run_ret; exact I].
    eapply runs_bind.
    - apply (@runs_for_each V _ _ _ _ (fun _ => True) (fun _ => True)
               (fun _ => True)); auto.
      intros acc ax _. run_with runs_spline_filter1d.
      intros tr2 [a|e] _; [run_ret|]; auto.
    - intros tr2 [a|e] _; [run_ret|]; exact I. }
  eapply runs_bind; [exact Hpre|]. clear Hpre. intros tr2 [[]|e] _; [|exact I].
  destruct output as [|d|o]; [| |destruct Hna].
  all: apply runs_bind_ret; destruct (negb _); [|run_ret; exact Hs].
  all: eapply runs_weaken; [apply runs_astype|].
  all: intros tr [a|e] H; simpl in H; [|exact I].
  all: destruct H as (_ & _ & H); congruence.
Qed.

Lemma runs_prefiltered_shape input order mode prefilter allow :
  runs (prefiltered ext input order mode prefilter allow)
    (fun tr r => match r with
                 | Ok a => shape a = shape input
                 | Raise _ => True
                 end).
Proof.
  unfold prefiltered. destruct (_ && _); [|run_ret; reflexivity].
  apply runs_spline_filter_shape. exact I.
Qed.

End ShapeRules.

Lemma runs_conj {V A} (m : M V A) (G1 G2 : list event -> result A -> Prop) :
  runs m G1 -> runs m G2 -> runs m (fun tr r => G1 tr r /\ G2 tr r).
Proof.
  intros H1 H2 s. destruct (H1 s) as (tr1 & Ht1 & Hg1).
  destruct (H2 s) as (tr2 & Ht2 & Hg2).
  rewrite Ht1 in Ht2. apply app_inv_head in Ht2. subst tr2.
  exists tr1. auto.
Qed.

(** ** Host floats *)

Lemma py_round_half_even_spec x : half_even x (py_round x).
Proof.
  unfold half_even, py_round.
  pose proof (Qfloor_le x) as H1. pose proof (Qlt_floor x) as H2.
  rewrite inject_Z_plus in H2. change (inject_Z 1) with 1%Q in H2.
  set (f := Qfloor x) in *.
  destruct (Qcompare_spec (x - inject_Z f) (1 # 2)) as [E|E|E].
  - destruct (Z.even f) eqn:Ev.
    + split; [|auto]. rewrite E. discriminate.
    + rewrite inject_Z_plus. change (inject_Z 1) with 1%Q. split.
      * apply Qabs_Qle_condition. split; lra.
      * intros _. rewrite Z.even_add, Ev. reflexivity.
  - split.
    + apply Qabs_Qle_condition. split; lra.
    + intros Ha. exfalso. rewrite Qabs_pos in Ha by lra. lra.
  - rewrite inject_Z_plus. change (inject_Z 1) with 1%Q. split.
    + apply Qabs_Qle_condition. split; lra.
    + intros Ha. exfalso. rewrite Qabs_neg in Ha by lra. lra.
Qed.

Lemma half_even_nearest x m n :
  half_even x m ->
  (Qabs (x - inject_Z m) <= Qabs (x - inject_Z n))%Q /\
  ((Qabs (x - inject_Z m) == Qabs (x - inject_Z n))%Q -> n <> m ->
   Z.even m = true /\ (n - m = 1 \/ n - m = -1)).
Proof.
  intros [Hle Hev].
  apply Qabs_Qle_condition in Hle as [Hl Hu].
  destruct (Z.eq_dec n m) as [->|Hne].
  { split; [apply Qle_refl|]. intros _ H. contradiction. }
  assert (Hd : (inject_Z n <= inject_Z m - 1 \/ inject_Z m + 1 <= inject_Z n)%Q).
  { destruct (Z_lt_le_dec n m) as [H|H].
    - left. assert (n <= m - 1) by lia.
      rewrite <- (inject_Z_plus m (-1)) || idtac.
      change (inject_Z m - 1)%Q with (inject_Z m + - inject_Z 1)%Q.
      rewrite <- inject_Z_opp, <- inject_Z_plus, <- Zle_Qle. lia.
    - right. change 1%Q with (inject_Z 1). rewrite <- inject_Z_plus, <- Zle_Qle. lia. }
  split.
  - apply Qabs_case; intros Hs; apply Qabs_case; intros Hs'; destruct Hd; lra.
  - intros Heq _.
    assert (Hhalf : (Qabs (x - inject_Z m) == 1 # 2)%Q).
    { revert Heq. apply Qabs_case; intros Hs; apply Qabs_case; intros Hs' Heq;
        destruct Hd; lra. }
    split; [apply Hev, Hhalf|].
    assert (Hn : (Qabs (x - inject_Z n) == 1 # 2)%Q) by (rewrite <- Heq; exact Hhalf).
    assert (Hb : (inject_Z m - 1 <= inject_Z n <= inject_Z m + 1)%Q).
    { revert Hhalf Hn. apply Qabs_case; intros Hs; apply Qabs_case; intros Hs' A B;
        split; lra. }
    destruct Hb as [Hb1 Hb2].
    change (inject_Z m - 1)%Q with (inject_Z m + - inject_Z 1)%Q in Hb1.
    rewrite <- inject_Z_opp, <- inject_Z_plus, <- Zle_Qle in Hb1.
    change 1%Q with (inject_Z 1) in Hb2.
    rewrite <- inject_Z_plus, <- Zle_Qle in Hb2. lia.
Qed.

(** Powers of two *)
Lemma pow2_pos e : (0 < pow2 e)%Q.
Proof. apply Qpower_0_lt. reflexivity. Qed.

Lemma pow2_add a b : (pow2 (a + b) == pow2 a * pow2 b)%Q.
Proof. apply Qpower_plus. discriminate. Qed.

Lemma pow2_le a b : a <= b -> (pow2 a <= pow2 b)%Q.
Proof. intros H. apply Qpower_le_compat_l; [exact H|discriminate]. Qed.

Lemma pow2_lt a b : a < b -> (pow2 a < pow2 b)%Q.
Proof. intros H. apply Qpower_lt_compat_l; [exact H|reflexivity]. Qed.

Lemma pow2_Z n : 0 <= n -> (pow2 n == inject_Z (2 ^ n))%Q.
Proof. intros H. unfold pow2. rewrite Zpower_Qpower by exact H. reflexivity. Qed.

Lemma pow2_succ a : (pow2 (a + 1) == 2 * pow2 a)%Q.
Proof. rewrite pow2_add. change (pow2 1) with 2%Q. ring. Qed.

Lemma ilog2_spec x :
  ~ (x == 0)%Q -> (pow2 (ilog2 x) <= Qabs x)%Q /\ (Qabs x < pow2 (ilog2 x + 1))%Q.
Proof.
  intros Hx. unfold ilog2.
  set (n := Z.abs (Qnum x)). set (d := Z.pos (Qden x)).
  assert (Hn : 0 < n).
  { unfold n. destruct x as [xn xd]. unfold Qeq in Hx. simpl in *. lia. }
  assert (Hd : 0 < d) by (unfold d; lia).
  assert (Habs : (Qabs x == inject_Z n / inject_Z d)%Q).
  { destruct x as [xn xd]. unfold n, d. simpl. apply Qmake_Qdiv. }
  pose proof (Z.log2_spec n Hn) as [Hn1 Hn2].
  pose proof (Z.log2_spec d Hd) as [Hd1 Hd2].
  pose proof (Z.log2_nonneg n) as Hln. pose proof (Z.log2_nonneg d) as Hld.
  set (ln := Z.log2 n) in *. set (ld := Z.log2 d) in *.
  assert (HD : (0 < inject_Z d)%Q) by (change 0%Q with (inject_Z 0); rewrite <- Zlt_Qlt; lia).
  assert (Hn1q : (pow2 ln <= inject_Z n)%Q).
  { rewrite pow2_Z by lia. rewrite <- Zle_Qle. exact Hn1. }
  assert (Hn2q : (inject_Z n < pow2 (ln + 1))%Q).
  { rewrite pow2_Z by lia. rewrite <- Zlt_Qlt. rewrite <- Z.add_1_r in Hn2. exact Hn2. }
  assert (Hd1q : (pow2 ld <= inject_Z d)%Q).
  { rewrite pow2_Z by lia. rewrite <- Zle_Qle. exact Hd1. }
  assert (Hd2q : (inject_Z d < pow2 (ld + 1))%Q).
  { rewrite pow2_Z by lia. rewrite <- Zlt_Qlt. rewrite <- Z.add_1_r in Hd2. exact Hd2. }
  assert (Hlow : (pow2 (ln - ld - 1) <= Qabs x)%Q).
  { rewrite Habs. apply Qle_shift_div_l; [exact HD|].
    apply Qle_trans with (pow2 (ln - ld - 1) * pow2 (ld + 1))%Q.
    - apply Qmult_le_l; [apply pow2_pos|]. apply Qlt_le_weak. exact Hd2q.
    - rewrite <- pow2_add. replace (ln - ld - 1 + (ld + 1)) with ln by lia. exact Hn1q. }
  assert (Hup : (Qabs x < pow2 (ln - ld + 1))%Q).
  { rewrite Habs. apply Qlt_shift_div_r; [exact HD|].
    apply Qlt_le_trans with (pow2 (ln - ld + 1) * pow2 ld)%Q.
    - rewrite <- pow2_add. replace (ln - ld + 1 + ld) with (ln + 1) by lia. exact Hn2q.
    - apply Qmult_le_l; [apply pow2_pos|]. exact Hd1q. }
  destruct (Qle_bool (pow2 (ln - ld)) (Qabs x)) eqn:E.
  - apply Qle_bool_iff in E. split; assumption.
  - split; [exact Hlow|].
    replace (ln - ld - 1 + 1) with (ln - ld) by lia.
    apply Qnot_le_lt. intros H. apply Qle_bool_iff in H. congruence.
Qed.

Lemma Qabs_scale a E : (0 < E)%Q -> (Qabs (a * E) == Qabs a * E)%Q.
Proof. intros H. rewrite Qabs_Qmult, (Qabs_pos E) by lra. reflexivity. Qed.

Lemma abs_int_bound (t : Q) (m : Z) (B : Z) :
  (Qabs (t - inject_Z m) <= 1 # 2)%Q -> (Qabs t < inject_Z B)%Q -> Z.abs m <= B.
Proof.
  intros H1 H2.
  assert (H : (Qabs (inject_Z m) < inject_Z (B + 1))%Q).
  { rewrite inject_Z_plus. change (inject_Z 1) with 1%Q.
    pose proof (Qabs_triangle_reverse (inject_Z m) t) as H3.
    rewrite (Qabs_Qminus (inject_Z m) t) in H3. lra. }
  change (Qabs (inject_Z m)) with (inject_Z (Z.abs m)) in H.
  rewrite <- Zlt_Qlt in H. lia.
Qed.

Lemma abs_int_lower (t : Q) (m : Z) (B : Z) :
  (Qabs (t - inject_Z m) <= 1 # 2)%Q -> (inject_Z B <= Qabs t)%Q -> B <= Z.abs m.
Proof.
  intros H1 H2.
  assert (H : (inject_Z B - 1 < Qabs (inject_Z m))%Q).
  { pose proof (Qabs_triangle_reverse t (inject_Z m)) as H3. lra. }
  change (Qabs (inject_Z m)) with (inject_Z (Z.abs m)) in H.
  change (inject_Z B - 1)%Q with (inject_Z B + - inject_Z 1)%Q in H.
  rewrite <- inject_Z_opp, <- inject_Z_plus, <- Zlt_Qlt in H. lia.
Qed.

Lemma binary64_zero : binary64 0.
Proof. exists 0, 0. split; [reflexivity|]. split; [reflexivity|lia]. Qed.

Lemma b64_rounds x p : b64 x = Some p -> rounds_to x p.
Proof.
  unfold b64. destruct (Qeq_bool x 0) eqn:Ez.
  { intros [= <-]. apply Qeq_bool_iff in Ez. split; [apply binary64_zero|].
    intros y Hy. split.
    - rewrite Ez. change (Qabs (0 - 0)) with 0%Q. apply Qabs_nonneg.
    - intros Ht Hne. exfalso. apply Hne. rewrite Ez in Ht.
      change (Qabs (0 - 0)) with 0%Q in Ht.
      revert Ht. apply Qabs_case; intros; lra. }
  apply Qeq_bool_neq in Ez.
  set (lg := ilog2 x). set (e := Z.max (lg - 52) (-1074)).
  set (E := pow2 e). set (t := (x / E)%Q). set (m := py_round t).
  destruct (Qle_bool (pow2 1024) (Qabs (inject_Z m * E))) eqn:Eo; [discriminate|].
  intros [= <-].
  assert (Hov : (Qabs (inject_Z m * E) < pow2 1024)%Q).
  { apply Qnot_le_lt. intros H. apply Qle_bool_iff in H. congruence. }
  assert (HE : (0 < E)%Q) by apply pow2_pos.
  assert (Hx : (x == t * E)%Q) by (unfold t; field; lra).
  pose proof (py_round_half_even_spec t) as Hhe. fold m in Hhe.
  destruct (ilog2_spec Ez) as [Hlg1 Hlg2]. fold lg in Hlg1, Hlg2.
  assert (He1 : lg - 52 <= e) by (unfold e; lia).
  assert (He2 : -1074 <= e) by (unfold e; lia).
  assert (He0 : e = lg - 52 \/ e = -1074) by (unfold e; lia).
  assert (Hax : (Qabs x == Qabs t * E)%Q) by (rewrite Hx at 1; apply Qabs_scale, HE).
  assert (Ht_up : (Qabs t < inject_Z (2 ^ 53))%Q).
  { rewrite <- pow2_Z by lia. apply (Qmult_lt_r _ _ E HE).
    rewrite <- Hax. fold E. unfold E. rewrite <- pow2_add.
    eapply Qlt_le_trans; [exact Hlg2|]. apply pow2_le. lia. }
  assert (Hm_up : Z.abs m <= 2 ^ 53) by (eapply abs_int_bound; [apply Hhe|exact Ht_up]).
  assert (Hnorm : e = lg - 52 -> (pow2 (52 + e) <= Qabs x)%Q /\ 2 ^ 52 <= Z.abs m).
  { intros He. assert (HP : (pow2 (52 + e) <= Qabs x)%Q).
    { replace (52 + e) with lg by lia. exact Hlg1. }
    split; [exact HP|].
    eapply abs_int_lower; [apply Hhe|].
    rewrite <- pow2_Z by lia. apply (Qmult_le_r _ _ E HE).
    rewrite <- Hax. unfold E. rewrite <- pow2_add. exact HP. }
  assert (Hap : (Qabs (inject_Z m * E) == inject_Z (Z.abs m) * E)%Q).
  { rewrite Qabs_scale by exact HE. reflexivity. }
  assert (He3 : e <= 971).
  { destruct (Z_le_gt_dec e 971) as [H|H]; [exact H|exfalso].
    destruct Hnorm as [_ Hm]; [lia|].
    apply (Qlt_not_le _ _ Hov). rewrite Hap.
    apply Qle_trans with (pow2 52 * E)%Q.
    - unfold E. rewrite <- pow2_add. apply pow2_le. lia.
    - apply Qmult_le_compat_r; [|lra]. rewrite pow2_Z by lia.
      rewrite <- Zle_Qle. exact Hm. }
  split.
  { destruct (Z.eq_dec (Z.abs m) (2 ^ 53)) as [Hm|Hm].
    - exists (m / 2), (e + 1).
      assert (Hm2 : m = 2 * (m / 2)).
      { apply Z.div_exact; [lia|].
        destruct (Z.abs_spec m) as [[_ H]|[_ H]]; rewrite H in Hm.
        - rewrite Hm. reflexivity.
        - replace m with (- 2 ^ 53) by lia. reflexivity. }
      split; [|split].
      + rewrite pow2_succ. fold E. rewrite Hm2 at 1. rewrite inject_Z_mult. ring.
      + assert (Z.abs (m / 2) = 2 ^ 52); [|lia].
        destruct (Z.abs_spec m) as [[_ H]|[_ H]]; rewrite H in Hm.
        * rewrite Hm. reflexivity.
        * replace m with (- 2 ^ 53) by lia. reflexivity.
      + split; [lia|].
        assert (53 + e < 1024); [|lia].
        apply (@Qpower_lt_compat_l_inv 2); [|reflexivity].
        change (pow2 (53 + e) < pow2 1024)%Q. rewrite pow2_add. fold E.
        rewrite pow2_Z by lia. rewrite <- Hm, <- Hap. exact Hov.
    - exists m, e. split; [reflexivity|]. split; lia. }
  intros y (m' & e' & Hy & Hm' & He1' & He2').
  destruct (Z_le_gt_dec e e') as [Hee|Hee].
  - set (n := m' * 2 ^ (e' - e)).
    assert (Hyn : (y == inject_Z n * E)%Q).
    { rewrite Hy. unfold n. rewrite inject_Z_mult, <- pow2_Z by lia.
      unfold E. rewrite <- Qmult_assoc, <- pow2_add.
      replace (e' - e + e) with e' by lia. reflexivity. }
    destruct (half_even_nearest n Hhe) as [Hn1 Hn2].
    assert (Hxp : (x - inject_Z m * E == (t - inject_Z m) * E)%Q) by (rewrite Hx at 1; ring).
    assert (Hxy : (x - y == (t - inject_Z n) * E)%Q) by (rewrite Hyn, Hx at 1; ring).
    split.
    + rewrite Hxp, Hxy, !Qabs_scale by exact HE. apply Qmult_le_compat_r; [exact Hn1|lra].
    + intros Htie Hne. rewrite Hxp, Hxy, !Qabs_scale in Htie by exact HE.
      apply Qmult_inj_r in Htie; [|lra].
      assert (Hnm : n <> m).
      { intros ->. apply Hne. exact Hyn. }
      destruct (Hn2 Htie Hnm) as [Hev Hd].
      apply Z.even_spec in Hev as [k Hk].
      destruct Hd as [Hd|Hd].
      * exists k. rewrite Hyn. replace n with (m + 1) by lia.
        rewrite <- Hk, inject_Z_plus. change (inject_Z 1) with 1%Q.
        ring.
      * exists (- k). rewrite Hyn. replace n with (m + -1) by lia.
        replace (2 * - k) with (- m) by lia.
        rewrite inject_Z_plus, inject_Z_opp. change (inject_Z (-1)) with (-1)%Q.
        ring.
  - assert (He : e = lg - 52) by lia.
    destruct (Hnorm He) as [HP _].
    assert (Hyabs : (Qabs y < pow2 (52 + e))%Q).
    { rewrite Hy, Qabs_scale by apply pow2_pos.
      change (Qabs (inject_Z m')) with (inject_Z (Z.abs m')).
      apply Qlt_le_trans with (pow2 53 * pow2 e')%Q.
      - apply Qmult_lt_compat_r; [apply pow2_pos|].
        rewrite pow2_Z by lia. rewrite <- Zlt_Qlt. exact Hm'.
      - rewrite <- pow2_add. apply pow2_le. lia. }
    assert (Hxp : (x - inject_Z m * E == (t - inject_Z m) * E)%Q) by (rewrite Hx at 1; ring).
    assert (Hstrict : (Qabs (x - inject_Z m * E) < Qabs (x - y))%Q).
    { assert (HPc : (pow2 (52 + e) == inject_Z (2 ^ 52) * E)%Q).
      { rewrite pow2_add, pow2_Z by lia. reflexivity. }
      destruct (Qlt_le_dec x 0) as [Hneg|Hpos].
      - destruct (half_even_nearest (- 2 ^ 52) Hhe) as [Hn1 _].
        assert (Hc : (Qabs (x - inject_Z m * E) <= Qabs (x + pow2 (52 + e)))%Q).
        { rewrite Hxp, Qabs_scale by exact HE.
          assert (Hr : (x + pow2 (52 + e) == (t - inject_Z (- 2 ^ 52)) * E)%Q)
            by (rewrite HPc, inject_Z_opp, Hx at 1; ring).
          rewrite Hr, Qabs_scale by exact HE.
          apply Qmult_le_compat_r; [exact Hn1|lra]. }
        rewrite Qabs_neg in HP by lra.
        rewrite (Qabs_neg (x + pow2 (52 + e))) in Hc by lra.
        eapply Qle_lt_trans; [exact Hc|].
        revert Hyabs. apply Qabs_case; intros; apply Qabs_case; intros; lra.
      - destruct (half_even_nearest (2 ^ 52) Hhe) as [Hn1 _].
        assert (Hc : (Qabs (x - inject_Z m * E) <= Qabs (x - pow2 (52 + e)))%Q).
        { rewrite Hxp, Qabs_scale by exact HE.
          assert (Hr : (x - pow2 (52 + e) == (t - inject_Z (2 ^ 52)) * E)%Q)
            by (rewrite HPc, Hx at 1; ring).
          rewrite Hr, Qabs_scale by exact HE.
          apply Qmult_le_compat_r; [exact Hn1|lra]. }
        rewrite Qabs_pos in HP by lra.
        rewrite (Qabs_pos (x - pow2 (52 + e))) in Hc by lra.
        eapply Qle_lt_trans; [exact Hc|].
        revert Hyabs. apply Qabs_case; intros; apply Qabs_case; intros; lra. }
    split; [apply Qlt_le_weak, Hstrict|].
    intros Htie. rewrite Htie in Hstrict. exfalso. exact (Qlt_irrefl _ Hstrict).
Qed.

Lemma rounds_to_exact x p : binary64 x -> rounds_to x p -> (p == x)%Q.
Proof.
  intros Hx [_ Hn]. destruct (Hn x Hx) as [Hle _].
  assert (H0 : (x - x == 0)%Q) by ring. rewrite H0 in Hle.
  change (Qabs 0) with 0%Q in Hle.
  revert Hle. apply Qabs_case; intros; lra.
Qed.

Lemma binary64_small_integer n : Z.abs n <= 2 ^ 53 -> binary64 (inject_Z n).
Proof.
  intros Hn. destruct (Z.eq_dec (Z.abs n) (2 ^ 53)) as [E|E].
  - exists (n / 2), 1. split; [|split; [|lia]].
    + change (pow2 1) with 2%Q. change 2%Q with (inject_Z 2).
      rewrite <- inject_Z_mult. apply inject_Z_injective.
      destruct (Z.abs_spec n) as [[_ H]|[_ H]]; rewrite H in E.
      * rewrite E. reflexivity.
      * replace n with (- 2 ^ 53) by lia. reflexivity.
    + destruct (Z.abs_spec n) as [[_ H]|[_ H]]; rewrite H in E.
      * rewrite E. reflexivity.
      * replace n with (- 2 ^ 53) by lia. reflexivity.
  - exists n, 0. split; [|split; lia]. change (pow2 0) with 1%Q. ring.
Qed.

(** ** Geometry of [zoom] *)

Lemma runs_zoom_kernel {V} (ext : externals V) input zoom_ output order mode
    cval prefilter allow :
  String.eqb mode "opencv" = false ->
  let zs := match zoom_ with
            | SFloat x => repeat x (ndim input)
            | SList l => l
            end in
  runs (zoom ext input zoom_ output order mode cval prefilter allow)
    (fun tr r =>
       match r with
       | Ok out =>
           exists zv,
             zoom_shape (shape input) zs = Some (shape out) /\
             mapM (fun io => zoom_factor io.1 io.2)
               (zip (shape input) (shape out)) = Some zv /\
             length zv = ndim input /\
             exists tr' cfg f, tr = tr' ++ [KZoom cfg f zv out]
       | Raise _ => True
       end).
Proof.
  intros Hmode zs. unfold zoom.
  run_with runs_check_parameter. intros tr0 r0 [-> ->].
  destruct (negb (order_ok order)) eqn:Ho; [exact I|].
  destruct (negb (mode_in mode supported_modes)) eqn:Hm; [exact I|].
  apply negb_false_iff in Ho, Hm. rewrite Hmode. fold zs.
  destruct (zoom_shape (shape input) zs) as [oshape|] eqn:Hsh; [|run_raise; exact I].
  destruct (mapM _ _) as [zv|] eqn:Hzv; [|run_raise; exact I].
  run_with runs_get_output. intros tr3 [out|e] H3; [|exact I].
  destruct H3 as (_ & _ & Hs3).
  run_with runs_integers_to_float32. intros tr4 [inp|e] [_ H4]; [|exact I].
  destruct H4 as [_ Hs4].
  run_with (runs_prefiltered_shape ext inp order mode prefilter allow).
  intros tr5 [flt|e] Hs5; [|exact I].
  run_with runs_contiguous. intros tr6 [flt'|e] [_ H6]; [|exact I].
  destruct H6 as [_ Hs6].
  run_with runs_build. intros tb rb [-> [->| ->]]; [|exact I].
  destruct (Nat.eqb_spec (length zv) (ndim flt')) as [E|E]; simpl negb; cbv iota;
    [|run_raise; exact I].
  run_with runs_read. intros t9 [fvals|e] [-> _]; [|exact I].
  run_with runs_launch. intros t10 [[]|e] [-> _]; [|exact I].
  run_ret. exists zv. rewrite Hs3. split; [reflexivity|]. split; [exact Hzv|].
  split; [unfold ndim in *; congruence|].
  eexists _, _, _. simpl app. rewrite !app_assoc. reflexivity.
Qed.

Lemma zoom_extent_rounds i z o :
  zoom_extent i z = Some o ->
  exists fi p, rounds_to (inject_Z i) fi /\ rounds_to (fi * z) p /\ half_even p o.
Proof.
  unfold zoom_extent, float_of_int, fmul. intros H.
  destruct (b64 (inject_Z i)) as [fi|] eqn:E1; [|discriminate]. simpl in H.
  destruct (b64 (fi * z)) as [p|] eqn:E2; [|discriminate]. simpl in H.
  injection H as <-. exists fi, p.
  split; [apply b64_rounds, E1|]. split; [apply b64_rounds, E2|].
  apply py_round_half_even_spec.
Qed.

Lemma zoom_factor_rounds i o q :
  zoom_factor i o = Some q ->
  (o <= 1 -> q = 0%Q) /\
  (1 < o -> exists a b, rounds_to (inject_Z (i - 1)) a /\
                        rounds_to (inject_Z (o - 1)) b /\ rounds_to (a / b) q).
Proof.
  unfold zoom_factor, float_of_int, fdiv.
  destruct (Z.ltb_spec 1 o) as [Ho|Ho]; intros H.
  - split; [lia|]. intros _.
    destruct (b64 (inject_Z (i - 1))) as [a|] eqn:E1; [|discriminate]. simpl in H.
    destruct (b64 (inject_Z (o - 1))) as [b|] eqn:E2; [|discriminate]. simpl in H.
    exists a, b. auto using b64_rounds.
  - injection H as <-. split; [reflexivity|lia].
Qed.

(** C4: outside mode [opencv], a successful [zoom] returns an output with
    one extent per axis of the input, and launches the zoom kernel on one
    factor per axis.  Each extent is [round(input_extent * zoom_factor)]
    as the interpreter computes it: the input extent taken to a float, the
    product rounded to binary64 (nearest, ties to even), the result
    rounded to the nearest integer (ties to even).  Each factor is
    [(input_extent - 1) / (output_extent - 1)], the quotient of the two
    floats rounded to binary64, and 0 where the output extent is at
    most 1. *)
Theorem C4_zoom_geometry {V} (ext : externals V) x z output order mode cval
    prefilter allow (s : state V) out s' :
  String.eqb mode "opencv" = false ->
  zoom ext x z output order mode cval prefilter allow s = (Ok out, s') ->
  let zs := match z with
            | SFloat q => repeat q (ndim x)
            | SList l => l
            end in
  exists tr cfg f zv,
    trace s' = trace s ++ tr ++ [KZoom cfg f zv out] /\
    length (shape out) = length (shape x) /\ length zv = length (shape x) /\
    forall k i o q,
      shape x !! k = Some i -> shape out !! k = Some o -> zv !! k = Some q ->
      exists zk fi p,
        zs !! k = Some zk /\
        rounds_to (inject_Z i) fi /\ rounds_to (fi * zk) p /\ half_even p o /\
        (o <= 1 -> q = 0%Q) /\
        (1 < o -> exists a b,
           rounds_to (inject_Z (i - 1)) a /\ rounds_to (inject_Z (o - 1)) b /\
           rounds_to (a / b) q).
Proof.
  intros Hmode Hrun. cbv zeta.
  pose proof (runs_elim (runs_zoom_kernel ext x z output order cval prefilter
                           allow Hmode) Hrun) as H.
  cbv zeta in H.
  destruct H as (tr & Htr & zv & Hsh & Hzv & Hlen & tr' & cfg & f & ->).
  exists tr', cfg, f, zv. split; [exact Htr|].
  pose proof (length_mapM _ _ _ Hzv) as Hl1. rewrite length_zip in Hl1.
  unfold zoom_shape in Hsh.
  pose proof (length_mapM _ _ _ Hsh) as Hl2. rewrite length_zip in Hl2.
  unfold ndim in Hlen.
  split; [lia|]. split; [exact Hlen|].
  intros k i o q Hi Ho Hq.
  apply mapM_Some_1 in Hsh. apply mapM_Some_1 in Hzv.
  destruct (Forall2_lookup_r _ _ _ _ _ Hsh Ho) as ([i' zk] & Hz1 & Hz2).
  apply lookup_zip_Some in Hz1 as [Hi' Hzk]. simpl in Hz2.
  assert (i' = i) by congruence. subst i'.
  destruct (Forall2_lookup_r _ _ _ _ _ Hzv Hq) as ([i' o'] & Hf1 & Hf2).
  apply lookup_zip_Some in Hf1 as [Hi'' Ho']. simpl in Hf2.
  assert (i' = i) by congruence. assert (o' = o) by congruence. subst i' o'.
  destruct (zoom_extent_rounds Hz2) as (fi & p & H1 & H2 & H3).
  exists zk, fi, p. split; [exact Hzk|].
  split; [exact H1|]. split; [exact H2|]. split; [exact H3|].
  apply zoom_factor_rounds, Hf2.
Qed.

Lemma C4_zoom_geometry_witness :
  let x := Toy.arr0 Float64 [10] in
  let s := Toy.st0 [0; 1; 2; 3; 4; 5; 6; 7; 8; 9]%Q in
  let out := Ndarray 1 1 (seq 0 4) Float64 [4] in
  let z := SFloat (3152519739159347 # 9007199254740992) in
  exists tr cfg f zv,
    trace (zoom Toy.ext x z ONone 1 "constant" 0%Q true true s).2
    = trace s ++ tr ++ [KZoom cfg f zv out] /\
    length (shape out) = length (shape x) /\ length zv = length (shape x) /\
    forall k i o q,
      shape x !! k = Some i -> shape out !! k = Some o -> zv !! k = Some q ->
      exists zk fi p,
        repeat (3152519739159347 # 9007199254740992)%Q (ndim x) !! k = Some zk /\
        rounds_to (inject_Z i) fi /\ rounds_to (fi * zk) p /\ half_even p o /\
        (o <= 1 -> q = 0%Q) /\
        (1 < o -> exists a b,
           rounds_to (inject_Z (i - 1)) a /\ rounds_to (inject_Z (o - 1)) b /\
           rounds_to (a / b) q).
Proof.
  intros x s out z.
  refine (@C4_zoom_geometry Q Toy.ext x z ONone 1 "constant"%string 0%Q
            true true s out _ eq_refl _).
  vm_compute. reflexivity.
Defined.

(** The float nearest to 0.35 times 10 is 3.5 after rounding, so the
    extent is 4 (the exact product lies below 3.5); the float nearest to
    0.1 times 5 rounds to 0.5 and the extent is 0.  A zoom by 2 of an
    extent of 4 samples at steps of [fl(3 / 7)]. *)
Example zoom_extents :
  zoom_shape [10; 5] [3152519739159347 # 9007199254740992;
                      3602879701896397 # 36028797018963968]%Q = Some [4; 0] /\
  py_round (10 * (3152519739159347 # 9007199254740992)) = 3 /\
  py_round (5 * (3602879701896397 # 36028797018963968)) = 1.
Proof. vm_compute. auto. Qed.

Example zoom_by_two :
  exists cfg f out,
    List.last (trace (zoom Toy.ext (Toy.arr0 Float64 [4]) (SFloat 2) ONone 1
                        "constant" 0%Q true true (Toy.st0 [0; 1; 2; 3]%Q)).2)
      (EAlloc (Toy.arr0 Float64 []))
    = KZoom cfg f [7720456504063707 # 18014398509481984] out /\ shape out = [8].
Proof. vm_compute. eauto. Qed.

(** ** Geometry of [rotate] *)









(** ** [highest_power_of_2] *)

Lemma highest_power_of_2_even n :
  highest_power_of_2 (2 * n) = 2 * highest_power_of_2 n.
Proof.
  unfold highest_power_of_2. apply Z.bits_inj'. intros i Hi.
  rewrite Z.land_spec, Z.lnot_spec by lia.
  destruct (Z.eq_dec i 0) as [->|Hne].
  - rewrite !Z.testbit_even_0. reflexivity.
  - replace i with (Z.succ (i - 1)) by lia.
    replace (2 * n - 1) with (2 * (n - 1) + 1) by lia.
    rewrite !Z.testbit_even_succ, Z.testbit_odd_succ by lia.
    rewrite Z.land_spec, Z.lnot_spec by lia. reflexivity.
Qed.

Lemma highest_power_of_2_odd n : highest_power_of_2 (2 * n + 1) = 1.
Proof.
  unfold highest_power_of_2. apply Z.bits_inj'. intros i Hi.
  rewrite Z.land_spec, Z.lnot_spec by lia.
  replace (2 * n + 1 - 1) with (2 * n) by lia.
  destruct (Z.eq_dec i 0) as [->|Hne].
  - rewrite Z.testbit_odd_0, Z.testbit_even_0. reflexivity.
  - replace i with (Z.succ (i - 1)) by lia.
    rewrite Z.testbit_odd_succ, Z.testbit_even_succ by lia.
    change 1 with (2 * 0 + 1). rewrite Z.testbit_odd_succ by lia.
    rewrite Z.testbit_0_l. apply andb_negb_r.
Qed.

(** What it is to be the highest power of two that divides [n]. *)
Lemma highest_power_positive p :
  exists k, 0 <= k /\ highest_power_of_2 (Z.pos p) = 2 ^ k /\
    (2 ^ k | Z.pos p) /\ ~ (2 ^ (k + 1) | Z.pos p).
Proof.
  induction p as [p _|p IH|].
  - exists 0. split; [lia|]. rewrite Pos2Z.inj_xI, highest_power_of_2_odd.
    split; [reflexivity|]. split; [apply Z.divide_1_l|].
    intros [q Hq]. change (2 ^ (0 + 1)) with 2 in Hq. lia.
  - destruct IH as (k & Hk & Hh & [q Hq] & Hn).
    exists (k + 1). split; [lia|].
    rewrite Pos2Z.inj_xO, highest_power_of_2_even, Hh.
    split; [rewrite Z.pow_add_r by lia; lia|].
    split.
    + exists q. rewrite Hq, Z.pow_add_r by lia. lia.
    + intros [q' Hq']. apply Hn. exists q'.
      rewrite (Z.pow_add_r 2 (k + 1) 1) in Hq' by lia.
      change (2 ^ 1) with 2 in Hq'. lia.
  - exists 0. split; [lia|]. split; [reflexivity|]. split; [apply Z.divide_1_l|].
    intros [q Hq]. change (2 ^ (0 + 1)) with 2 in Hq. lia.
Qed.

Lemma highest_power_negative p :
  exists k, 0 <= k /\ highest_power_of_2 (Z.neg p) = 2 ^ k /\
    (2 ^ k | Z.neg p) /\ ~ (2 ^ (k + 1) | Z.neg p).
Proof.
  induction p as [p _|p IH|].
  - exists 0. split; [lia|].
    replace (Z.neg p~1) with (2 * (Z.neg p - 1) + 1) by lia.
    rewrite highest_power_of_2_odd.
    split; [reflexivity|]. split; [apply Z.divide_1_l|].
    intros [q Hq]. change (2 ^ (0 + 1)) with 2 in Hq. lia.
  - destruct IH as (k & Hk & Hh & [q Hq] & Hn).
    exists (k + 1). split; [lia|].
    replace (Z.neg p~0) with (2 * Z.neg p) by lia.
    rewrite highest_power_of_2_even, Hh.
    split; [rewrite Z.pow_add_r by lia; lia|].
    split.
    + exists q. rewrite Hq, Z.pow_add_r by lia. lia.
    + intros [q' Hq']. apply Hn. exists q'.
      rewrite (Z.pow_add_r 2 (k + 1) 1) in Hq' by lia.
      change (2 ^ 1) with 2 in Hq'. lia.
  - exists 0. split; [lia|]. split; [reflexivity|]. split; [apply Z.divide_1_l|].
    intros [q Hq]. change (2 ^ (0 + 1)) with 2 in Hq. lia.
Qed.

(** X1: for an integer other than zero, of either sign,
    [highest_power_of_2] returns the largest power of two that divides
    it. *)
Theorem X1_highest_power_of_2 (n : Z) :
  n <> 0 ->
  exists k, 0 <= k /\ highest_power_of_2 n = 2 ^ k /\
    (2 ^ k | n) /\ ~ (2 ^ (k + 1) | n).
Proof.
  destruct n as [|p|p]; intros Hn.
  - destruct Hn. reflexivity.
  - apply highest_power_positive.
  - apply highest_power_negative.
Qed.

Lemma X1_highest_power_of_2_witness :
  exists k, 0 <= k /\ highest_power_of_2 12 = 2 ^ k /\
    (2 ^ k | 12) /\ ~ (2 ^ (k + 1) | 12).
Proof. apply (@X1_highest_power_of_2 12). discriminate. Defined.

Example highest_power_values :
  map highest_power_of_2 [0; 1; 12; 96; -12; 7] = [0; 1; 4; 32; 4; 1].
Proof. reflexivity. Qed.

(** ** [_minmax] *)












(** ** Further behaviour of the prefilter *)

(** X4: [_get_spline_output] raises the dtype error exactly when the
    input is complex and the output is an array that is not; it then
    leaves the state as it was.  A real dtype given for a complex input is
    not refused. *)
Theorem X4_complex_output_check {V} (ext : externals V) input output allow
    (s : state V) :
  ((_get_spline_output ext input output allow s).1 = Raise DtypeMismatch
   <-> exists o, output = OArr o /\ kind_is_c (dt input) = true /\
                 kind_is_c (dt o) = false) /\
  ((_get_spline_output ext input output allow s).1 = Raise DtypeMismatch ->
   (_get_spline_output ext input output allow s).2 = s).
Proof.
  assert (Hback : (exists o, output = OArr o /\ kind_is_c (dt input) = true /\
                             kind_is_c (dt o) = false) ->
                  _get_spline_output ext input output allow s
                  = (Raise DtypeMismatch, s)).
  { intros (o & -> & Hc & Ho). unfold _get_spline_output. rewrite Hc, Ho.
    reflexivity. }
  assert (Hforth : (_get_spline_output ext input output allow s).1
                   = Raise DtypeMismatch ->
                   exists o, output = OArr o /\ kind_is_c (dt input) = true /\
                             kind_is_c (dt o) = false).
  { intros Hr.
    destruct (runs_get_spline_output ext input output allow s) as (tr & _ & _ & H).
    rewrite Hr in H. destruct H as [H|[_ H]]; [discriminate|exact H]. }
  split; [split|]; auto.
  - intros H%Hback. rewrite H. reflexivity.
  - intros H%Hforth%Hback. rewrite H. reflexivity.
Qed.

Example real_dtype_for_complex_input :
  (_get_spline_output Toy.ext (Toy.arr0 Complex128 [4]) (ODtype Float64) true
     (Toy.st0 [1; 2; 3; 4]%Q)).1
  = Ok (Ndarray 1 1 [0; 1; 2; 3]%nat Complex128 [4], Complex128, Float64).
Proof. reflexivity. Qed.

(** X5: along an axis of extent 0, at an order that needs the kernel,
    [spline_filter1d] always fails (the number of lines is a division by
    the extent), and no kernel has worked by then. *)
Theorem X5_empty_axis_fails {V} (ext : externals V) x order axis ax output
    mode allow (s : state V) :
  2 <= order <= 5 ->
  normalize_axis_index ext axis (ndim x) = Some ax ->
  ndim x <> 0%nat -> nth ax (shape x) 0 = 0 ->
  let r := spline_filter1d ext x order axis output mode allow s in
  exists e tr,
    r.1 = Raise e /\ (e = LibraryError \/ e = DtypeMismatch) /\
    trace r.2 = trace s ++ tr /\ idle tr.
Proof.
  intros Ho Hax Hnd Hext r.
  assert (Hruns : runs (spline_filter1d ext x order axis output mode allow)
            (fun tr r => idle tr /\ exists e, r = Raise e /\
                          (e = LibraryError \/ e = DtypeMismatch))).
  { unfold spline_filter1d.
    replace ((order <? 0) || (5 <? order)) with false
      by (symmetry; apply orb_false_iff; split; apply Z.ltb_ge; lia).
    rewrite Hax, Hext.
    replace (order <? 2) with false by (symmetry; apply Z.ltb_ge; lia).
    replace (ndim x =? 0)%nat with false by (symmetry; apply Nat.eqb_neq; exact Hnd).
    simpl.
    run_with runs_get_spline_output. intros tr1 [[[temp fd] od]|e] [Hi H1].
    - destruct (negb (spline1d_builds _ _ _ _)); run_raise; eauto.
    - split; [auto|]. exists e. split; [auto|]. tauto. }
  destruct (Hruns s) as (tr & Htr & Hi & e & He & Hk).
  exists e, tr. auto.
Qed.

Lemma X5_empty_axis_fails_witness :
  let r := spline_filter1d Toy.ext (Ndarray 0 0 [] Float64 [0; 3]) 3 0
             (ODtype Float64) "mirror" true (Toy.st0 []) in
  exists e tr,
    r.1 = Raise e /\ (e = LibraryError \/ e = DtypeMismatch) /\
    trace r.2 = trace (Toy.st0 []) ++ tr /\ idle tr.
Proof.
  intros r.
  refine (@X5_empty_axis_fails Q Toy.ext (Ndarray 0 0 [] Float64 [0; 3]) 3 0
            0%nat (ODtype Float64) "mirror"%string true (Toy.st0 []) _ eq_refl _
            eq_refl).
  - lia.
  - discriminate.
Defined.

(** ** Further behaviour of [rotate] *)

(** X6: the plane of rotation does not depend on the order in which its
    two axes are given, and an axis counted from the end names the same
    plane as its counterpart counted from the start; in particular the
    sense of rotation is the same for [(a, b)] and [(b, a)]. *)
Theorem X6_rotate_axes {V} (ext : externals V) x angle (a b : Z) reshape
    output order mode cval prefilter allow (s : state V) :
  rotate ext x angle (a, b) reshape output order mode cval prefilter allow s
  = rotate ext x angle (b, a) reshape output order mode cval prefilter allow s /\
  (- Z.of_nat (ndim x) <= a < 0 ->
   rotate ext x angle (a, b) reshape output order mode cval prefilter allow s
   = rotate ext x angle (a + Z.of_nat (ndim x), b) reshape output order mode
       cval prefilter allow s).
Proof.
  split.
  - unfold rotate. unfold bind.
    destruct (_check_parameter "rotate" order mode s) as [[[]|e] s1]; [|reflexivity].
    cbv zeta. cbn [fst snd].
    set (na := if a <? 0 then a + Z.of_nat (ndim x) else a).
    set (nb := if b <? 0 then b + Z.of_nat (ndim x) else b).
    assert (Hp : (if nb <? na then (nb, na) else (na, nb))
                 = (if na <? nb then (na, nb) else (nb, na))).
    { destruct (Z.ltb_spec nb na), (Z.ltb_spec na nb); try reflexivity; try lia.
      f_equal; lia. }
    rewrite Hp. reflexivity.
  - intros Ha. unfold rotate. cbv zeta. cbn [fst snd].
    replace (a <? 0) with true by (symmetry; apply Z.ltb_lt; lia).
    replace (a + Z.of_nat (ndim x) <? 0) with false
      by (symmetry; apply Z.ltb_ge; lia).
    reflexivity.
Qed.

Example rotate_axes_swapped :
  rotate Toy.ext (Toy.arr0 Float64 [3; 5]) 30 (1, 0) true ONone 1 "constant" 0%Q
    true true (Toy.st0 [])
  = rotate Toy.ext (Toy.arr0 Float64 [3; 5]) 30 (-2, -1) true ONone 1 "constant"
      0%Q true true (Toy.st0 []).
Proof. reflexivity. Qed.

(** ** The contract of [shift] *)

Lemma runs_shift_contract {V} (ext : externals V) x sh output order mode cval
    prefilter allow :
  String.eqb mode "opencv" = false ->
  runs (shift ext x sh output order mode cval prefilter allow)
    (fun tr r =>
       match r with
       | Ok out =>
           dt out = requested output (dt x) /\ shape out = shape x /\
           exists tr' cfg f sv,
             tr = tr' ++ [KShift cfg f sv out] /\ unsampled tr' /\
             match sh with
             | Scalar q => sv = repeat q (ndim x)
             | Arr a => a = P1 sv
             end /\
             length sv = ndim x /\ shape f = shape x /\
             dt f = converted (dt x) /\
             cfg = KernelCfg ShiftK (ndim x) (2 ^ 31 <? prod (shape x)) (shape x)
                     mode order (kind_in_iu (dt out))
       | Raise ShapeMismatch => exists o, output = OArr o /\ shape o <> shape x
       | Raise InvalidParameterShape =>
           match sh with
           | Scalar _ => False
           | Arr a => forall sv, a = P1 sv -> length sv <> ndim x
           end
       | Raise _ => True
       end).
Proof.
  intros Hmode. unfold shift.
  run_with runs_check_parameter. intros tr0 r0 [-> ->].
  destruct (negb (order_ok order)) eqn:Ho; [exact I|].
  destruct (negb (mode_in mode supported_modes)) eqn:Hm; [exact I|].
  apply negb_false_iff in Ho, Hm. rewrite Hmode.
  run_with runs_get_output. intros tr3 [out|e] H3; simpl in H3.
  2:{ destruct H3 as [_ [->|[-> H3]]]; [exact I|exact H3]. }
  destruct H3 as (Hi3 & Hd3 & Hs3).
  run_with runs_integers_to_float32. intros tr4 [inp|e] [Hi4 H4]; [|subst e; exact I].
  destruct H4 as [Hd4 Hs4].
  run_with (runs_conj (runs_prefiltered ext inp mode prefilter allow Ho)
              (runs_prefiltered_shape ext inp order mode prefilter allow)).
  intros tr5 [flt|e] [[Hu5 H5] Hs5]; [|subst e; exact I].
  run_with runs_contiguous. intros tr6 [flt'|e] [Hi6 H6]; [|subst e; exact I].
  destruct H6 as [Hd6 Hs6].
  run_with runs_build. intros tb rb [-> [->| ->]]; [|exact I].
  assert (Hn : ndim flt' = ndim x) by (unfold ndim; congruence).
  assert (Hfin : forall sv, length sv = ndim x ->
    match sh with Scalar q => sv = repeat q (ndim x) | Arr a => a = P1 sv end ->
    runs
      (let* fvals := read ext flt' in
       launch (KShift (KernelCfg ShiftK (ndim inp) (2 ^ 31 <? prod (shape inp))
                         (shape inp) mode order (kind_in_iu (dt out)))
                 flt' sv out) out
         (shift_run ext (KernelCfg ShiftK (ndim inp) (2 ^ 31 <? prod (shape inp))
                           (shape inp) mode order (kind_in_iu (dt out)))
            cval fvals sv) ;;
       ret out)
      (fun tr2 r =>
         match r with
         | Ok out0 =>
             dt out0 = requested output (dt x) /\ shape out0 = shape x /\
             exists tr' cfg f sv0,
               [] ++ tr3 ++ tr4 ++ tr5 ++ tr6 ++ [] ++ tr2
               = tr' ++ [KShift cfg f sv0 out0] /\ unsampled tr' /\
               match sh with
               | Scalar q => sv0 = repeat q (ndim x)
               | Arr a => a = P1 sv0
               end /\
               length sv0 = ndim x /\ shape f = shape x /\
               dt f = converted (dt x) /\
               cfg = KernelCfg ShiftK (ndim x) (2 ^ 31 <? prod (shape x)) (shape x)
                       mode order (kind_in_iu (dt out0))
         | Raise ShapeMismatch => exists o, output = OArr o /\ shape o <> shape x
         | Raise InvalidParameterShape =>
             match sh with
             | Scalar _ => False
             | Arr a => forall sv, a = P1 sv -> length sv <> ndim x
             end
         | Raise _ => True
         end)).
  { intros sv Hlen Hsv.
    run_with runs_read. intros t9 [fvals|e] [-> [y Hy]]; [|discriminate].
    run_with runs_launch. intros t10 [[]|e] [-> [y' Hy']]; [|discriminate].
    run_ret. split; [exact Hd3|]. split; [exact Hs3|].
    eexists (tr3 ++ tr4 ++ tr5 ++ tr6), _, flt', sv.
    split; [simpl app; rewrite <- ?app_assoc; reflexivity|].
    split; [solve_trace|]. split; [exact Hsv|]. split; [exact Hlen|].
    split; [congruence|]. split; [congruence|].
    unfold ndim. rewrite Hs4. reflexivity. }
  destruct sh as [q|[q|v|c rows|d1 d2 d3 rest]].
  - rewrite repeat_length, Hn, Nat.eqb_refl. simpl negb. cbv iota.
    apply Hfin; [apply repeat_length|reflexivity].
  - run_raise. discriminate.
  - destruct (Nat.eqb_spec (length v) (ndim flt')) as [E|E]; simpl negb; cbv iota.
    + apply Hfin; [congruence|reflexivity].
    + run_raise. intros sv [= <-]. congruence.
  - run_raise. discriminate.
  - run_raise. discriminate.
Qed.

(** X7: outside mode [opencv], a successful [shift] returns an array of the
    input's shape and of the requested dtype, and its last event is the
    shift kernel, built for the input's shape, on the prefiltered input and
    on one shift per axis: the scalar repeated, or the vector as given. *)
Theorem X7_shift_contract {V} (ext : externals V) x sh output order mode cval
    prefilter allow (s : state V) out s' :
  String.eqb mode "opencv" = false ->
  shift ext x sh output order mode cval prefilter allow s = (Ok out, s') ->
  dt out = requested output (dt x) /\ shape out = shape x /\
  exists tr f sv,
    trace s' = trace s ++ tr ++
      [KShift (KernelCfg ShiftK (ndim x) (2 ^ 31 <? prod (shape x)) (shape x)
                 mode order (kind_in_iu (dt out))) f sv out] /\
    unsampled tr /\
    match sh with
    | Scalar q => sv = repeat q (ndim x)
    | Arr a => a = P1 sv
    end /\
    length sv = ndim x /\ shape f = shape x /\ dt f = converted (dt x).
Proof.
  intros Hmode Hrun.
  destruct (runs_elim (runs_shift_contract ext x sh output order cval prefilter
                         allow Hmode) Hrun)
    as (tr & Htr & Hd & Hs & tr' & cfg & f & sv & -> & Hu & Hsv & Hl & Hf & Hdf & ->).
  split; [exact Hd|]. split; [exact Hs|].
  exists tr', f, sv. auto 10.
Qed.

Lemma X7_shift_contract_witness :
  let x := Toy.arr0 Int32 [4] in
  let s := Toy.st0 [0; 1; 2; 3]%Q in
  let out := Ndarray 1 1 (seq 0 4) Float64 [4] in
  dt out = Float64 /\ shape out = shape x /\
  exists tr f sv,
    trace (shift Toy.ext x (Scalar (1 # 2)) (ODtype Float64) 1 "nearest" 0%Q
             true true s).2
    = trace s ++ tr ++
      [KShift (KernelCfg ShiftK (ndim x) (2 ^ 31 <? prod (shape x)) (shape x)
                 "nearest" 1 (kind_in_iu (dt out))) f sv out] /\
    unsampled tr /\
    sv = repeat (1 # 2)%Q (ndim x) /\
    length sv = ndim x /\ shape f = shape x /\ dt f = converted (dt x).
Proof.
  intros x s out.
  refine (@X7_shift_contract Q Toy.ext x (Scalar (1 # 2)) (ODtype Float64) 1
            "nearest"%string 0%Q true true s out _ eq_refl _).
  vm_compute. reflexivity.
Defined.

(** X8: outside mode [opencv] and with a valid order and mode, [shift]
    raises the shape error of [_get_output] exactly when the output is an
    array whose shape is not the input's; the call then leaves the state as
    it was.  The error about the shift vector is raised only for an array
    that is not a vector with one entry per axis, never for a scalar. *)
Theorem X8_shift_shape_errors {V} (ext : externals V) x sh output order mode
    cval prefilter allow (s : state V) :
  order_ok order = true -> mode_in mode supported_modes = true ->
  String.eqb mode "opencv" = false ->
  let r := shift ext x sh output order mode cval prefilter allow s in
  (r.1 = Raise ShapeMismatch <->
     exists o, output = OArr o /\ shape o <> shape x) /\
  (r.1 = Raise ShapeMismatch -> r.2 = s) /\
  (r.1 = Raise InvalidParameterShape ->
     match sh with
     | Scalar _ => False
     | Arr a => forall sv, a = P1 sv -> length sv <> ndim x
     end).
Proof.
  intros Ho Hm Hmode r.
  assert (Hc : exists tr, trace r.2 = trace s ++ tr /\ _)
    by exact (runs_shift_contract ext x sh output order cval prefilter allow
                Hmode s).
  destruct Hc as (tr & Htr & Hc). fold r in Hc.
  assert (Hbad : forall o, output = OArr o -> shape o <> shape x ->
                 r = (Raise ShapeMismatch, s)).
  { intros o -> Hne. subst r. unfold shift, _check_parameter, bind.
    unfold order_ok in Ho. apply andb_true_iff in Ho as [Ho1 Ho2].
    replace (order <? 0) with false by (symmetry; apply Z.ltb_ge; apply Z.leb_le, Ho1).
    replace (5 <? order) with false by (symmetry; apply Z.ltb_ge; apply Z.leb_le, Ho2).
    simpl orb. cbv iota. rewrite Hm. simpl negb. cbv iota.
    unfold ret at 1. cbv beta iota. rewrite Hmode.
    unfold _get_output, shape_eqb. rewrite bool_decide_eq_false_2 by exact Hne.
    reflexivity. }
  repeat match goal with |- _ /\ _ => split end.
  - split.
    + intros E. rewrite E in Hc. exact Hc.
    + intros (o & Eo & Hne). rewrite (Hbad o Eo Hne). reflexivity.
  - intros E. rewrite E in Hc. destruct Hc as (o & Eo & Hne).
    rewrite (Hbad o Eo Hne). reflexivity.
  - intros E. rewrite E in Hc. exact Hc.
Qed.

Lemma X8_shift_shape_errors_witness :
  let x := Toy.arr0 Float64 [4] in
  let s := Toy.st1 [0; 1; 2; 3]%Q [0; 0]%Q in
  let r := shift Toy.ext x (Scalar 1) (OArr (Toy.arr1 Float64 [2])) 3 "mirror"
             0%Q true true s in
  (r.1 = Raise ShapeMismatch <->
     exists o, OArr (Toy.arr1 Float64 [2]) = OArr o /\ shape o <> shape x) /\
  (r.1 = Raise ShapeMismatch -> r.2 = s) /\
  (r.1 = Raise InvalidParameterShape -> False).
Proof.
  intros x s.
  exact (@X8_shift_shape_errors Q Toy.ext x (Scalar 1)
           (OArr (Toy.arr1 Float64 [2])) 3 "mirror"%string 0%Q true true s
           eq_refl eq_refl eq_refl).
Defined.

(** ** The sequence of zoom factors *)

Lemma runs_zoom_lengths {V} (ext : externals V) input zoom_ output order mode
    cval prefilter allow :
  String.eqb mode "opencv" = false ->
  let zs := match zoom_ with
            | SFloat x => repeat x (ndim input)
            | SList l => l
            end in
  runs (zoom ext input zoom_ output order mode cval prefilter allow)
    (fun tr r =>
       match r with
       | Ok out => (ndim input <= length zs)%nat /\ ndim out = ndim input /\
                   dt out = requested output (dt input)
       | Raise _ => True
       end).
Proof.
  intros Hmode zs. unfold zoom.
  run_with runs_check_parameter. intros tr0 r0 [-> ->].
  destruct (negb (order_ok order)) eqn:Ho; [exact I|].
  destruct (negb (mode_in mode supported_modes)) eqn:Hm; [exact I|].
  apply negb_false_iff in Ho, Hm. rewrite Hmode. fold zs.
  destruct (zoom_shape (shape input) zs) as [oshape|] eqn:Hsh; [|run_raise; exact I].
  destruct (mapM _ _) as [zv|] eqn:Hzv; [|run_raise; exact I].
  run_with runs_get_output. intros tr3 [out|e] H3; [|exact I].
  destruct H3 as (_ & Hd3 & Hs3).
  run_with runs_integers_to_float32. intros tr4 [inp|e] [_ H4]; [|exact I].
  destruct H4 as [_ Hs4].
  run_with (runs_prefiltered_shape ext inp order mode prefilter allow).
  intros tr5 [flt|e] Hs5; [|exact I].
  run_with runs_contiguous. intros tr6 [flt'|e] [_ H6]; [|exact I].
  destruct H6 as [_ Hs6].
  run_with runs_build. intros tb rb [-> [->| ->]]; [|exact I].
  match goal with
  | |- context [negb (?a =? ?b)%nat] => destruct (Nat.eqb_spec a b) as [E|E]
  end; simpl negb; cbv iota; [|run_raise; exact I].
  run_with runs_read. intros t9 [fvals|e] [-> _]; [|exact I].
  run_with runs_launch. intros t10 [[]|e] [-> _]; [|exact I].
  run_ret.
  pose proof (length_mapM _ _ _ Hzv) as Hl1. rewrite length_zip in Hl1.
  unfold zoom_shape in Hsh.
  pose proof (length_mapM _ _ _ Hsh) as Hl2. rewrite length_zip in Hl2.
  unfold ndim in *. rewrite Hs6, Hs5, Hs4 in E. rewrite Hs3.
  split; [lia|]. split; [lia|exact Hd3].
Qed.

(** X9: [zoom] reads one factor per axis of the input and ignores the
    factors that follow: a sequence longer than the rank of the input is
    not refused, in any mode. *)
Theorem X9_zoom_surplus_factors_ignored {V} (ext : externals V) x (l : list Q)
    output order mode cval prefilter allow :
  zoom ext x (SList l) output order mode cval prefilter allow
  = zoom ext x (SList (take (ndim x) l)) output order mode cval prefilter allow.
Proof.
  unfold zoom, zoom_shape, ndim. cbv zeta.
  change (zip (shape x) (take (length (shape x)) l))
    with (zip_with pair (shape x) (take (length (shape x)) l)).
  rewrite (zip_with_take_r pair (shape x) l). reflexivity.
Qed.

(** X10: outside mode [opencv], a successful [zoom] was given at least one
    factor per axis of the input, and returns an array of the rank of the
    input and of the requested dtype: a shorter sequence is refused. *)
Theorem X10_zoom_short_sequence_refused {V} (ext : externals V) x z output
    order mode cval prefilter allow (s : state V) out s' :
  String.eqb mode "opencv" = false ->
  zoom ext x z output order mode cval prefilter allow s = (Ok out, s') ->
  match z with
  | SFloat _ => True
  | SList l => (ndim x <= length l)%nat
  end /\
  ndim out = ndim x /\ dt out = requested output (dt x).
Proof.
  intros Hmode Hrun.
  destruct (runs_elim (runs_zoom_lengths ext x z output order cval prefilter
                         allow Hmode) Hrun) as (tr & _ & Hl & Hn & Hd).
  destruct z; auto.
Qed.

Lemma X10_zoom_short_sequence_refused_witness :
  let x := Toy.arr0 Float64 [2; 2] in
  let s := Toy.st0 [0; 1; 2; 3]%Q in
  let out := Ndarray 1 1 (seq 0 8) Float64 [4; 2] in
  (ndim x <= length [2; 1; 7]%Q)%nat /\
  ndim out = ndim x /\ dt out = requested ONone (dt x).
Proof.
  intros x s out.
  refine (@X10_zoom_short_sequence_refused Q Toy.ext x (SList [2; 1; 7]%Q) ONone 1
            "constant"%string 0%Q true true s out _ eq_refl _).
  vm_compute. reflexivity.
Defined.

Example zoom_short_sequence :
  (zoom Toy.ext (Toy.arr0 Float64 [2; 2]) (SList [2%Q]) ONone 1 "constant" 0%Q
     true true (Toy.st0 [0; 1; 2; 3]%Q)).1 = Raise InvalidParameterShape.
Proof. vm_compute. reflexivity. Qed.

(** ** The contract of [map_coordinates] *)

Lemma runs_map_contract {V} (ext : externals V) input coordinates output order
    mode cval prefilter allow :
  let pad := String.eqb mode "opencv" || String.eqb mode "_opencv_edge" in
  let cd := if pad then add_dtype (dt coordinates) else dt coordinates in
  let fl := if (allow : bool) then Float32 else Float64 in
  runs (map_coordinates ext input coordinates output order mode cval prefilter allow)
    (fun tr r =>
       match r with
       | Ok out =>
           dt out = requested output (dt input) /\
           shape out = tail (shape coordinates) /\
           kind_in_iu cd || kind_is_f cd = true /\
           exists tr' cfg f c,
             tr = tr' ++ [KMap cfg f c out] /\ unsampled tr' /\
             k_shape cfg = shape coordinates /\
             k_mode cfg = (if pad then "constant"%string else mode) /\
             k_ndim cfg = ndim input /\
             shape f = (if pad then map (fun n => n + 2) (shape input)
                        else shape input) /\
             dt f = converted (dt input) /\
             shape c = shape coordinates /\
             dt c = (if kind_in_iu cd && negb (1 <? order) then cd
                     else promote_types cd fl)
       | Raise DtypeMismatch => kind_in_iu cd = false /\ kind_is_f cd = false
       | Raise ShapeMismatch =>
           exists o, output = OArr o /\ shape o <> tail (shape coordinates)
       | Raise _ => True
       end).
Proof.
  intros pad cd fl. unfold map_coordinates.
  run_with runs_check_parameter. intros tr0 r0 [-> ->].
  destruct (negb (order_ok order)) eqn:Ho; [exact I|].
  destruct (negb (mode_in mode supported_modes)) eqn:Hm; [exact I|].
  apply negb_false_iff in Ho, Hm. simpl app. fold pad.
  assert (Hpad : runs
    (if pad then
       let* vals := read ext input in
       let* input' := alloc (dt input) (map (fun n => n + 2) (shape input))
                        (pad_constant ext (shape input) cval vals) in
       let* cvals := read ext coordinates in
       let* coordinates' := alloc (add_dtype (dt coordinates)) (shape coordinates)
                              (map (add_one ext) cvals) in
       ret (input', coordinates', "constant"%string)
     else ret (input, coordinates, mode))
    (fun tr r => idle tr /\
       match r with
       | Ok (i', c', m') =>
           dt i' = dt input /\
           shape i' = (if pad then map (fun n => n + 2) (shape input)
                       else shape input) /\
           dt c' = cd /\ shape c' = shape coordinates /\
           m' = (if pad then "constant"%string else mode)
       | Raise e => e = LibraryError
       end)).
  { subst cd. destruct pad; [|run_ret; auto 10 with trace].
    run_with runs_read. intros t1 [vals|e] [-> [x Hx]]; [|discriminate].
    run_with runs_alloc. intros t2 [i'|e] H2; simpl in H2;
      [|destruct H2 as [-> ->]; auto with trace].
    destruct H2 as (-> & Hd & Hs).
    run_with runs_read. intros t3 [cvals|e] [-> [y Hy]]; [|discriminate].
    run_with runs_alloc. intros t4 [c'|e] H4; simpl in H4;
      [|destruct H4 as [-> ->]; split; [solve_trace|auto]].
    destruct H4 as (-> & Hd' & Hs'). run_ret. split; [solve_trace|auto 10]. }
  eapply runs_bind; [exact Hpad|]. clear Hpad.
  intros tr1 [[[inp0 coords0] mode0]|e] [Hi1 H1]; [|subst e; exact I].
  destruct H1 as (Hd1 & Hs1 & Hcd & Hcs & Hm0).
  run_with runs_get_output. intros tr3 [out|e] H3; simpl in H3.
  2:{ destruct H3 as [_ [->|[-> H3]]]; [exact I|].
      rewrite Hcs in H3. exact H3. }
  destruct H3 as (Hi3 & Hd3 & Hs3).
  run_with runs_integers_to_float32. intros tr4 [inp|e] [Hi4 H4]; [|subst e; exact I].
  destruct H4 as [Hd4 Hs4].
  assert (Hco : runs
    (if kind_in_iu (dt coords0) then
       if 1 <? order then
         astype ext coords0
           (promote_types (dt coords0) (if allow then Float32 else Float64))
       else ret coords0
     else if negb (kind_is_f (dt coords0)) then raise DtypeMismatch
     else
       astype_nocopy ext coords0
         (promote_types (dt coords0) (if allow then Float32 else Float64)))
    (fun tr r => idle tr /\
       match r with
       | Ok c =>
           shape c = shape coordinates /\
           dt c = (if kind_in_iu cd && negb (1 <? order) then cd
                   else promote_types cd fl) /\
           kind_in_iu cd || kind_is_f cd = true
       | Raise e =>
           e = LibraryError \/
           e = DtypeMismatch /\ kind_in_iu cd = false /\ kind_is_f cd = false
       end)).
  { rewrite Hcd. fold fl.
    destruct (kind_in_iu cd) eqn:Hk; simpl andb; simpl orb.
    - destruct (1 <? order); simpl negb; cbv iota.
      + eapply runs_weaken; [apply runs_astype|].
        intros tr [a|e]; simpl; [intros (-> & ? & ?)|intros [-> ->]];
          auto with trace. split; [auto with trace|]. split; [congruence|auto].
      + run_ret. auto with trace.
    - destruct (kind_is_f cd) eqn:Hf; simpl negb; cbv iota.
      + eapply runs_weaken; [apply runs_astype_nocopy|].
        intros tr [a|e]; simpl.
        * intros ([[-> _]| ->] & ? & ?);
            (split; [auto with trace|]; split; [congruence|auto]).
        * intros [-> ->]; auto with trace.
      + run_raise. auto with trace. }
  eapply runs_bind; [exact Hco|]. clear Hco.
  intros tr5 [coords|e] [Hi5 H5].
  2:{ destruct H5 as [->|[-> H5]]; [exact I|exact H5]. }
  destruct H5 as (Hs5 & Hd5 & Hk5).
  run_with (runs_conj (runs_prefiltered ext inp mode0 prefilter allow Ho)
              (runs_prefiltered_shape ext inp order mode0 prefilter allow)).
  intros tr6 [flt|e] [[Hu6 H6] Hs6]; [|subst e; exact I].
  destruct (shape coords) as [|c0 rest] eqn:Hsc; [run_raise; exact I|].
  run_with runs_build. intros tb rb [-> [->| ->]]; [|exact I].
  run_with runs_contiguous. intros tr7 [flt'|e] [Hi7 H7]; [|subst e; exact I].
  destruct H7 as [Hd7 Hs7].
  run_with runs_contiguous. intros tr8 [coords'|e] [Hi8 H8]; [|subst e; exact I].
  destruct H8 as [Hd8 Hs8].
  run_with runs_read. intros t9 [fvals|e] [-> [x Hx]]; [|discriminate].
  run_with runs_read. intros t10 [cvals|e] [-> [y Hy]]; [|discriminate].
  run_with runs_launch. intros t11 [[]|e] [-> [z Hz]]; [|discriminate].
  run_ret. split; [congruence|]. split; [congruence|]. split; [exact Hk5|].
  eexists (tr1 ++ tr3 ++ tr4 ++ tr5 ++ tr6 ++ tr7 ++ tr8), _, flt', coords'.
  split; [simpl app; rewrite <- ?app_assoc; reflexivity|].
  split; [solve_trace|]. simpl.
  split; [congruence|]. split; [exact Hm0|].
  split; [unfold ndim; rewrite Hs6, Hs4, Hs1; destruct pad;
          [apply length_map|reflexivity]|].
  split; [congruence|]. split; [congruence|]. split; congruence.
Qed.

(** X11: a successful [map_coordinates] returns an array of the requested
    dtype whose shape is the shape of the coordinates without its first
    axis; its last event is the map kernel, built for the shape of the
    coordinates, on the prefiltered input and on coordinates of that shape.
    Under the modes [opencv] and [_opencv_edge] the kernel runs in mode
    [constant] on an input two entries longer along each axis; under the
    other modes on an input of the given shape, in the given mode. *)
Theorem X11_map_coordinates_contract {V} (ext : externals V) x coordinates
    output order mode cval prefilter allow (s : state V) out s' :
  map_coordinates ext x coordinates output order mode cval prefilter allow s
  = (Ok out, s') ->
  let pad := String.eqb mode "opencv" || String.eqb mode "_opencv_edge" in
  dt out = requested output (dt x) /\
  shape out = tail (shape coordinates) /\
  exists tr cfg f c,
    trace s' = trace s ++ tr ++ [KMap cfg f c out] /\ unsampled tr /\
    k_shape cfg = shape coordinates /\
    k_mode cfg = (if pad then "constant"%string else mode) /\
    k_ndim cfg = ndim x /\
    shape f = (if pad then map (fun n => n + 2) (shape x) else shape x) /\
    dt f = converted (dt x) /\
    shape c = shape coordinates.
Proof.
  intros Hrun pad.
  destruct (runs_elim (runs_map_contract ext x coordinates output order mode
                         cval prefilter allow) Hrun)
    as (tr & Htr & Hd & Hs & _ & tr' & cfg & f & c & -> & Hu & H1 & H2 & H3 &
        H4 & H5 & H6 & _).
  split; [exact Hd|]. split; [exact Hs|].
  exists tr', cfg, f, c. auto 10.
Qed.

Lemma X11_map_coordinates_contract_witness :
  let x := Toy.arr0 Int32 [4] in
  let coordinates := Toy.arr1 Float64 [1; 4] in
  let s := Toy.st1 [0; 1; 2; 3]%Q [0; 1; 2; 3]%Q in
  let out := Ndarray 4 4 (seq 0 4) Int32 [4] in
  dt out = Int32 /\
  shape out = [4] /\
  exists tr cfg f c,
    trace (map_coordinates Toy.ext x coordinates ONone 1 "opencv" 0%Q true true
             s).2
    = trace s ++ tr ++ [KMap cfg f c out] /\ unsampled tr /\
    k_shape cfg = [1; 4] /\
    k_mode cfg = "constant"%string /\
    k_ndim cfg = 1%nat /\
    shape f = [6] /\
    dt f = Float32 /\
    shape c = [1; 4].
Proof.
  intros x coordinates s out.
  refine (@X11_map_coordinates_contract Q Toy.ext x coordinates ONone 1
            "opencv"%string 0%Q true true s out _ _).
  vm_compute. reflexivity.
Defined.

(** X12: [map_coordinates] accepts coordinates of integer, unsigned or
    floating dtype only, where under the modes [opencv] and [_opencv_edge]
    the dtype is taken after the addition of 1, which turns booleans into
    integers.  Its dtype error is raised for no other reason.  Integer
    coordinates reach the kernel unconverted when the order is at most 1;
    all other coordinates are promoted with float32, or with float64
    when float32 is not allowed. *)
Theorem X12_coordinates_dtype {V} (ext : externals V) x coordinates output
    order mode cval prefilter allow (s : state V) :
  let pad := String.eqb mode "opencv" || String.eqb mode "_opencv_edge" in
  let cd := if pad then add_dtype (dt coordinates) else dt coordinates in
  let r := map_coordinates ext x coordinates output order mode cval prefilter
             allow s in
  match r.1 with
  | Ok out =>
      kind_in_iu cd || kind_is_f cd = true /\
      exists tr cfg f c,
        trace r.2 = trace s ++ tr ++ [KMap cfg f c out] /\
        dt c = (if kind_in_iu cd && negb (1 <? order) then cd
                else promote_types cd (if allow then Float32 else Float64))
  | Raise DtypeMismatch => kind_in_iu cd = false /\ kind_is_f cd = false
  | Raise _ => True
  end.
Proof.
  intros pad cd r.
  destruct (runs_map_contract ext x coordinates output order mode cval
              prefilter allow s) as (tr & Htr & H).
  fold r in Htr, H. fold pad in H. fold cd in H.
  destruct r.1 as [out|e].
  - destruct H as (_ & _ & Hk & tr' & cfg & f & c & -> & _ & _ & _ & _ & _ & _
                   & _ & Hc).
    split; [exact Hk|]. exists tr', cfg, f, c. auto.
  - destruct e; auto.
Qed.

Example boolean_coordinates :
  let x := Toy.arr0 Float64 [4] in
  let c := Toy.arr1 Bool [1; 4] in
  let s := Toy.st1 [0; 1; 2; 3]%Q [0; 1; 1; 0]%Q in
  (map_coordinates Toy.ext x c ONone 1 "nearest" 0%Q true true s).1
  = Raise DtypeMismatch /\
  exists out,
    (map_coordinates Toy.ext x c ONone 1 "opencv" 0%Q true true s).1 = Ok out.
Proof. split; [vm_compute; reflexivity|eexists; vm_compute; reflexivity]. Qed.

(** ** The contract of [affine_transform] *)

Lemma runs_normalize_matrix_form {V} n matrix offset :
  runs (V:=V) (normalize_matrix n matrix offset)
    (fun tr r => tr = [] /\
       match r with
       | Ok (m1, o1) =>
           match matrix with
           | P1 _ => m1 = matrix /\ o1 = offset
           | P2 _ _ => exists c rows, m1 = P2 c rows
           | _ => False
           end
       | Raise e => e = LibraryError \/ e = InvalidTransformMatrix
       end).
Proof.
  unfold normalize_matrix.
  destruct matrix as [q|v|c rows|d1 d2 d3 rest]; simpl negb; cbv iota.
  - run_raise. auto.
  - run_ret. auto.
  - repeat run_case; eauto.
  - unfold pndim. simpl. run_raise. auto.
Qed.

Lemma runs_affine_contract {V} (ext : externals V) input matrix offset
    output_shape output order mode cval prefilter allow :
  let oshape := match output_shape with
                | None => shape input
                | Some sh => sh
                end in
  let off0 := match offset with
              | Scalar q => P1 (repeat q (ndim input))
              | Arr a => a
              end in
  let cfg nm out :=
    KernelCfg nm (ndim input)
      (2 ^ 31 <? Z.max (prod (shape input)) (prod oshape)) oshape mode order
      (kind_in_iu (dt out)) in
  runs (affine_transform ext input matrix offset output_shape output order mode
          cval prefilter allow)
    (fun tr r =>
       match r with
       | Ok out =>
           dt out = requested output (dt input) /\ shape out = oshape /\
           exists tr' f k,
             tr = tr' ++ [k] /\ unsampled tr' /\
             shape f = shape input /\ dt f = converted (dt input) /\
             match matrix with
             | P1 mv =>
                 if String.eqb mode "opencv"
                 then exists m, k = KAffine (cfg AffineK out) f m out
                 else k = KZoomShift (cfg ZoomShiftK out) f off0 mv out
             | _ => exists m, k = KAffine (cfg AffineK out) f m out
             end
       | Raise ShapeMismatch => exists o, output = OArr o /\ shape o <> oshape
       | Raise _ => True
       end).
Proof.
  intros oshape off0 cfg. unfold affine_transform.
  run_with runs_check_parameter. intros tr0 r0 [-> ->].
  destruct (negb (order_ok order)) eqn:Ho; [exact I|].
  destruct (negb (mode_in mode supported_modes)) eqn:Hm; [exact I|].
  apply negb_false_iff in Ho. fold off0. fold oshape.
  run_with (@runs_normalize_matrix_form V). intros tr1 [[m1 o1]|e] [-> H1]; simpl app.
  2:{ destruct H1 as [->| ->]; exact I. }
  assert (Hocv : runs
    (if String.eqb mode "opencv" then opencv_matrix ext (ndim input) m1 o1
     else ret (m1, o1))
    (fun tr r => tr = [] /\
       match r with
       | Ok (m2, o2) =>
           if String.eqb mode "opencv" then exists c rows, m2 = P2 c rows
           else m2 = m1 /\ o2 = o1
       | Raise e => e = LibraryError
       end)).
  { destruct (String.eqb _ _); [|run_ret; auto].
    unfold opencv_matrix. repeat run_case; eauto. }
  eapply runs_bind; [exact Hocv|]. clear Hocv.
  intros tr2 [[m2 o2]|e] [-> H2]; simpl app; [|subst e; exact I].
  run_with runs_get_output. intros tr3 [out|e] H3; simpl in H3.
  2:{ destruct H3 as [_ [->|[-> H3]]]; [exact I|exact H3]. }
  destruct H3 as (Hi3 & Hd3 & Hs3).
  run_with runs_integers_to_float32. intros tr4 [inp|e] [Hi4 H4]; [|subst e; exact I].
  destruct H4 as [Hd4 Hs4].
  run_with (runs_conj (runs_prefiltered ext inp mode prefilter allow Ho)
              (runs_prefiltered_shape ext inp order mode prefilter allow)).
  intros tr5 [flt|e] [[Hu5 H5] Hs5]; [|subst e; exact I].
  run_with runs_contiguous. intros tr6 [flt'|e] [Hi6 H6]; [|subst e; exact I].
  destruct H6 as [Hd6 Hs6].
  assert (Hpre : unsampled (tr3 ++ tr4 ++ tr5 ++ tr6)) by solve_trace.
  assert (Hdt : dt flt' = converted (dt input)) by congruence.
  assert (Hsh : shape flt' = shape input) by congruence.
  assert (Haff : forall m,
    match matrix with
    | P1 _ => String.eqb mode "opencv" = true
    | _ => True
    end ->
    runs
      (let* fvals := read ext flt' in
       launch (KAffine (KernelCfg AffineK (ndim input)
                          (2 ^ 31 <? Z.max (prod (shape inp)) (prod oshape))
                          oshape mode order (kind_in_iu (dt out))) flt' m out)
         out
         (affine_run ext (KernelCfg AffineK (ndim input)
                            (2 ^ 31 <? Z.max (prod (shape inp)) (prod oshape))
                            oshape mode order (kind_in_iu (dt out)))
            cval fvals m) ;;
       ret out)
      (fun tr7 r =>
         match r with
         | Ok out0 =>
             dt out0 = requested output (dt input) /\ shape out0 = oshape /\
             exists tr' f k,
               tr3 ++ tr4 ++ tr5 ++ tr6 ++ [] ++ tr7 = tr' ++ [k] /\
               unsampled tr' /\
               shape f = shape input /\ dt f = converted (dt input) /\
               match matrix with
               | P1 mv =>
                   if String.eqb mode "opencv"
                   then exists m, k = KAffine (cfg AffineK out0) f m out0
                   else k = KZoomShift (cfg ZoomShiftK out0) f off0 mv out0
               | _ => exists m, k = KAffine (cfg AffineK out0) f m out0
               end
         | Raise ShapeMismatch => exists o, output = OArr o /\ shape o <> oshape
         | Raise _ => True
         end)).
  { intros m Hmat.
    run_with runs_read. intros t9 [fvals|e] [-> [y Hy]]; [|discriminate].
    run_with runs_launch. intros t10 [[]|e] [-> [y' Hy']]; [|discriminate].
    run_ret. split; [exact Hd3|]. split; [exact Hs3|].
    eexists (tr3 ++ tr4 ++ tr5 ++ tr6), flt', _.
    split; [simpl app; rewrite <- ?app_assoc; reflexivity|].
    split; [exact Hpre|]. split; [exact Hsh|]. split; [exact Hdt|].
    subst cfg. cbv beta. rewrite Hs4.
    destruct matrix; try rewrite Hmat; eexists; reflexivity. }
  destruct m2 as [q|mv|c rows|d1 d2 d3 rest].
  2:{ (* a vector left as it was: the zoom and shift kernel *)
      assert (Hv : String.eqb mode "opencv" = false /\ matrix = P1 mv /\ o2 = off0).
      { destruct (String.eqb mode "opencv").
        - destruct H2 as (? & ? & ?). discriminate.
        - destruct H2 as [E2 ->]. subst m1. split; [reflexivity|].
          destruct matrix; try contradiction.
          + destruct H1; auto.
          + destruct H1 as (? & ? & ?). discriminate. }
      destruct Hv as (Hmode & -> & ->).
      destruct (negb (broadcast_ok _ _)); [run_raise; exact I|].
      run_with runs_build. intros tb rb [-> [->| ->]]; [|exact I].
      run_with runs_read. intros t9 [fvals|e] [-> [y Hy]]; [|discriminate].
      run_with runs_launch. intros t10 [[]|e] [-> [y' Hy']]; [|discriminate].
      run_ret. split; [exact Hd3|]. split; [exact Hs3|].
      eexists (tr3 ++ tr4 ++ tr5 ++ tr6), flt', _.
      split; [simpl app; rewrite <- ?app_assoc; reflexivity|].
      split; [exact Hpre|]. split; [exact Hsh|]. split; [exact Hdt|].
      rewrite Hmode. subst cfg. cbv beta. rewrite Hs4. reflexivity. }
  all: assert (Hmat : match matrix with
                      | P1 _ => String.eqb mode "opencv" = true
                      | _ => True
                      end);
    [destruct matrix; auto; destruct (String.eqb mode "opencv"); auto;
     destruct H2 as [E2 _]; subst m1; destruct H1 as [H1 _]; discriminate|].
  all: run_with runs_build; intros tb rb [-> [->| ->]]; [|exact I].
  all: destruct (bcast_mat _ _); [|run_raise; exact I].
  all: destruct (to_column _ _); [|run_raise; exact I].
  all: apply Haff; exact Hmat.
Qed.

(** X13: a successful [affine_transform] returns an array of the requested
    dtype and of the output shape, the input's when none is given.  Its
    last event is a sampling kernel on the prefiltered input, built for
    that shape: the zoom and shift kernel, on the offset and on the matrix
    as given, for a matrix of rank 1 outside mode [opencv]; the affine
    kernel in every other case. *)
Theorem X13_affine_transform_contract {V} (ext : externals V) x matrix offset
    output_shape output order mode cval prefilter allow (s : state V) out s' :
  affine_transform ext x matrix offset output_shape output order mode cval
    prefilter allow s = (Ok out, s') ->
  let oshape := match output_shape with
                | None => shape x
                | Some sh => sh
                end in
  let off0 := match offset with
              | Scalar q => P1 (repeat q (ndim x))
              | Arr a => a
              end in
  let cfg nm :=
    KernelCfg nm (ndim x) (2 ^ 31 <? Z.max (prod (shape x)) (prod oshape))
      oshape mode order (kind_in_iu (dt out)) in
  dt out = requested output (dt x) /\ shape out = oshape /\
  exists tr f k,
    trace s' = trace s ++ tr ++ [k] /\ unsampled tr /\
    shape f = shape x /\ dt f = converted (dt x) /\
    match matrix with
    | P1 mv =>
        if String.eqb mode "opencv"
        then exists m, k = KAffine (cfg AffineK) f m out
        else k = KZoomShift (cfg ZoomShiftK) f off0 mv out
    | _ => exists m, k = KAffine (cfg AffineK) f m out
    end.
Proof.
  intros Hrun oshape off0 cfg.
  destruct (runs_elim (runs_affine_contract ext x matrix offset output_shape
                         output order mode cval prefilter allow) Hrun)
    as (tr & Htr & Hd & Hs & tr' & f & k & -> & Hu & Hsf & Hdf & Hk).
  split; [exact Hd|]. split; [exact Hs|].
  exists tr', f, k. auto 10.
Qed.

Lemma X13_affine_transform_contract_witness :
  let x := Toy.arr0 Float64 [4] in
  let s := Toy.st0 [0; 1; 2; 3]%Q in
  let out := Ndarray 1 1 (seq 0 6) Float64 [6] in
  let cfg nm := KernelCfg nm 1 false [6] "mirror" 1 false in
  dt out = Float64 /\ shape out = [6] /\
  exists tr f k,
    trace (affine_transform Toy.ext x (P1 [2%Q]) (Scalar 1) (Some [6]) ONone 1
             "mirror" 0%Q true true s).2 = trace s ++ tr ++ [k] /\
    unsampled tr /\
    shape f = [4] /\ dt f = Float64 /\
    k = KZoomShift (cfg ZoomShiftK) f (P1 [1%Q]) [2%Q] out.
Proof.
  intros x s out cfg.
  refine (@X13_affine_transform_contract Q Toy.ext x (P1 [2%Q]) (Scalar 1)
            (Some [6]) ONone 1 "mirror"%string 0%Q true true s out _ _).
  vm_compute. reflexivity.
Defined.

Lemma normalize_homogeneous {V} n rows bottom offset offset' :
  length rows = n ->
  normalize_matrix (V:=V) n (P2 (S n) (rows ++ [bottom])) offset
  = normalize_matrix n (P2 (S n) rows) offset'.
Proof.
  intros Hn. unfold normalize_matrix, pndim, pshape.
  cbn [length Nat.eqb orb negb]. rewrite length_app. cbn [length].
  replace (Z.of_nat (length rows + 1) =? Z.of_nat (S n) - 1) with false
    by (symmetry; apply Z.eqb_neq; lia).
  replace (Z.of_nat (length rows) =? Z.of_nat (S n) - 1) with true
    by (symmetry; apply Z.eqb_eq; lia).
  replace (length rows + 1 =? n + 1)%nat with true
    by (symmetry; apply Nat.eqb_eq; lia).
  cbn [Nat.eqb].
  assert (Hb : but_last (rows ++ [bottom]) = rows).
  { unfold but_last. rewrite length_app. cbn [length].
    replace (length rows + 1 - 1)%nat with (length rows) by lia.
    apply take_app_length. }
  rewrite Hb. reflexivity.
Qed.

(** X14: of a homogeneous matrix, of one row and one column more than the
    input has axes, [affine_transform] reads neither the bottom row nor the
    [offset] argument: the call is the one on the matrix without that row,
    with any offset. *)
Theorem X14_homogeneous_matrix {V} (ext : externals V) x rows bottom
    offset offset' output_shape output order mode cval prefilter allow :
  length rows = ndim x ->
  affine_transform ext x (P2 (S (ndim x)) (rows ++ [bottom])) offset
    output_shape output order mode cval prefilter allow
  = affine_transform ext x (P2 (S (ndim x)) rows) offset' output_shape output
      order mode cval prefilter allow.
Proof.
  intros Hn. unfold affine_transform.
  rewrite (normalize_homogeneous bottom
             (match offset with
              | Scalar q => P1 (repeat q (ndim x))
              | Arr a => a
              end)
             (match offset' with
              | Scalar q => P1 (repeat q (ndim x))
              | Arr a => a
              end) Hn).
  reflexivity.
Qed.

Lemma X14_homogeneous_matrix_witness :
  let x := Toy.arr0 Float64 [4] in
  affine_transform Toy.ext x (P2 2 ([[2; 1]%Q] ++ [[0; 1]%Q])) (Scalar 7) None
    ONone 1 "mirror" 0%Q true true
  = affine_transform Toy.ext x (P2 2 [[2; 1]%Q]) (Arr (P1 [])) None ONone 1
      "mirror" 0%Q true true.
Proof.
  intros x.
  exact (@X14_homogeneous_matrix Q Toy.ext x [[2; 1]%Q] [0; 1]%Q (Scalar 7)
           (Arr (P1 [])) None ONone 1 "mirror"%string 0%Q true true eq_refl).
Defined.

(** ** The contract of [rotate] *)








(** ** The output array of [spline_filter] *)

Lemma runs_spline_filter_into {V} (ext : externals V) input order o mode allow :
  runs (spline_filter ext input order (OArr o) mode allow)
    (fun tr r =>
       match r with
       | Ok a => a = o /\ exists tr' temp, tr = tr' ++ [EAssign o temp] /\
                                           dt temp = promote_types (dt o)
                                                       (min_float (dt input) allow)
       | Raise _ => True
       end).
Proof.
  unfold spline_filter.
  destruct ((order <? 2) || (5 <? order)); [run_raise; exact I|].
  run_with runs_get_spline_output. intros tr1 [[[temp fd] od]|e] [_ H1]; [|exact I].
  destruct H1 as (Hd & Hod & Hfd & _). simpl in Hod. subst od fd.
  assert (Hpre : runs
    (if negb ((order =? 0) || (order =? 1)) && (0 <? ndim input)%nat
     then
       for_each (seq 0 (ndim input)) input
         (fun x axis =>
            spline_filter1d ext x order (Z.of_nat axis) (OArr temp) mode allow ;;
            ret temp) ;;
       ret tt
     else ret tt)
    (fun _ _ => True)).
  { destruct (_ && _); [|run_ret; exact I].
    eapply runs_bind.
    - apply (@runs_for_each V _ _ _ _ (fun _ => True) (fun _ => True)
               (fun _ => True)); auto.
      intros acc ax _. run_with runs_spline_filter1d.
      intros tr2 [a|e] _; [run_ret|]; auto.
    - intros tr2 [a|e] _; [run_ret|]; exact I. }
  eapply runs_bind; [exact Hpre|]. clear Hpre. intros tr2 [[]|e] _; [|exact I].
  apply runs_assoc.
  run_with runs_assign. intros tr3 [[]|e] H3; simpl in H3; [|exact I]. subst tr3.
  apply runs_bind_ret. unfold dtype_eqb.
  rewrite bool_decide_eq_true_2 by reflexivity. simpl negb. cbv iota.
  run_ret. split; [reflexivity|].
  exists (tr1 ++ tr2), temp. rewrite <- app_assoc. auto.
Qed.

(** X16: given an array as output, a successful [spline_filter] returns
    that array, and the last thing it does is to assign the workspace,
    whose dtype is the output's promoted with the least float dtype, to
    it. *)
Theorem X16_spline_filter_returns_output {V} (ext : externals V) x order o
    mode allow (s : state V) out s' :
  spline_filter ext x order (OArr o) mode allow s = (Ok out, s') ->
  out = o /\
  exists tr temp,
    trace s' = trace s ++ tr ++ [EAssign o temp] /\
    dt temp = promote_types (dt o) (min_float (dt x) allow).
Proof.
  intros Hrun.
  destruct (runs_elim (runs_spline_filter_into ext x order o mode allow) Hrun)
    as (tr & Htr & Ho & tr' & temp & -> & Hd).
  split; [exact Ho|]. exists tr', temp. auto.
Qed.

Lemma X16_spline_filter_returns_output_witness :
  let x := Toy.arr0 Float64 [4] in
  let o := Toy.arr1 Float32 [4] in
  let s := Toy.st1 [0; 1; 2; 3]%Q [0; 0; 0; 0]%Q in
  o = o /\
  exists tr temp,
    trace (spline_filter Toy.ext x 3 (OArr o) "mirror" true s).2
    = trace s ++ tr ++ [EAssign o temp] /\
    dt temp = promote_types (dt o) (min_float (dt x) true).
Proof.
  intros x o s.
  refine (@X16_spline_filter_returns_output Q Toy.ext x 3 o "mirror"%string true
            s o _ _).
  vm_compute. reflexivity.
Defined.

(** ** The launches of the prefilter kernel *)

Lemma spline_launches_app t1 t2 :
  spline_launches (t1 ++ t2) = spline_launches t1 ++ spline_launches t2.
Proof. apply omap_app. Qed.

Lemma idle_no_launches tr : idle tr -> spline_launches tr = [].
Proof.
  induction 1 as [|e tr He _ IH]; [reflexivity|].
  unfold spline_launches in *. cbn [omap list_omap]. rewrite IH.
  destruct e; try reflexivity. discriminate He.
Qed.

Section Launches.
Context {V : Type} (ext : externals V).

Lemma runs_spline_filter1d_launches x order axis output mode allow :
  runs (spline_filter1d ext x order axis output mode allow)
    (fun tr r =>
       match r with
       | Ok a =>
           exists ax, normalize_axis_index ext axis (ndim x) = Some ax /\
             spline_launches tr
             = if negb ((order <? 2) || (ndim x =? 0)%nat
                        || (nth ax (shape x) 0 =? 1))
               then [(order, mode, ax)] else []
       | Raise _ => True
       end).
Proof.
  unfold spline_filter1d.
  destruct ((order <? 0) || (5 <? order)); [run_raise; exact I|].
  destruct (normalize_axis_index ext axis (ndim x)) as [ax|]; [|run_raise; exact I].
  destruct (negb ((order <? 2) || (ndim x =? 0)%nat || (nth ax (shape x) 0 =? 1)))
    eqn:Hrun; simpl negb; cbv iota.
  - run_with runs_get_spline_output. intros tr1 [[[temp fd] od]|e] [Hi H1]; [|exact I].
    destruct (negb (spline1d_builds _ _ _ _)); [run_raise; exact I|].
    destruct (_ =? 0); [run_raise; exact I|].
    run_with runs_update. intros tr2 [[]|e] [-> [y Hy]]; [|discriminate].
    run_with runs_update. intros tr3 [[]|e] [-> [z Hz]]; [|discriminate].
    assert (Hfin : forall tr4, idle tr4 ->
      exists ax0, Some ax = Some ax0 /\
        spline_launches
          (tr1 ++ [EScale order temp] ++
           [KSpline1d order mode ax
              (size x / nth ax (shape x) 0 :: nth ax (shape x) 0 :: shape x) temp]
           ++ tr4)
        = if negb ((order <? 2) || (ndim x =? 0)%nat
                   || (nth ax0 (shape x) 0 =? 1))
          then [(order, mode, ax0)] else []).
    { intros tr4 H4. exists ax. split; [reflexivity|]. rewrite Hrun.
      rewrite !spline_launches_app, (idle_no_launches Hi), (idle_no_launches H4).
      reflexivity. }
    destruct output as [|d|o].
    + eapply runs_weaken; [apply runs_astype_nocopy|].
      intros tr [a|e] H; simpl in H; [|exact I].
      apply Hfin. destruct H as ([[-> _]| ->] & _); auto with trace.
    + eapply runs_weaken; [apply runs_astype_nocopy|].
      intros tr [a|e] H; simpl in H; [|exact I].
      apply Hfin. destruct H as ([[-> _]| ->] & _); auto with trace.
    + destruct (negb (is_ temp o)).
      * run_with runs_assign. intros tr4 [[]|e] H4; simpl in H4; [|exact I].
        subst tr4. run_ret. apply Hfin. auto with trace.
      * eapply runs_weaken; [apply runs_astype_nocopy|].
        intros tr [a|e] H; simpl in H; [|exact I].
        apply Hfin. destruct H as ([[-> _]| ->] & _); auto with trace.
  - run_with runs_get_output. intros tr1 [out|e] H1; simpl in H1; [|exact I].
    destruct H1 as (Hi & _).
    run_with runs_assign. intros tr2 [[]|e] H2; simpl in H2; [|exact I].
    subst tr2. run_ret. exists ax. split; [reflexivity|]. rewrite Hrun.
    rewrite spline_launches_app, (idle_no_launches Hi). reflexivity.
Qed.

Hypothesis normalize_axis_index_id :
  forall (i n : nat), (i < n)%nat ->
    normalize_axis_index ext (Z.of_nat i) n = Some i.

Lemma runs_filter_axes input temp order mode allow :
  2 <= order -> shape temp = shape input ->
  forall xs acc,
    Forall (fun ax => (ax < ndim input)%nat) xs -> shape acc = shape input ->
    runs
      (for_each xs acc
         (fun x axis =>
            spline_filter1d ext x order (Z.of_nat axis) (OArr temp) mode allow ;;
            ret temp))
      (fun tr r =>
         match r with
         | Ok _ =>
             spline_launches tr
             = map (fun ax => (order, mode, ax))
                 (List.filter (fun ax => negb (nth ax (shape input) 0 =? 1)) xs)
         | Raise _ => True
         end).
Proof.
  intros Hord Htemp xs. induction xs as [|ax xs IH]; intros acc Hxs Hacc.
  - simpl. run_ret. reflexivity.
  - apply Forall_cons in Hxs as [Hax Hxs]. cbn [for_each].
    eapply runs_bind with
      (G1 := fun tr r =>
               match r with
               | Ok a =>
                   a = temp /\
                   exists ax0,
                     normalize_axis_index ext (Z.of_nat ax) (ndim acc) = Some ax0 /\
                     spline_launches tr
                     = if negb ((order <? 2) || (ndim acc =? 0)%nat
                                || (nth ax0 (shape acc) 0 =? 1))
                       then [(order, mode, ax0)] else []
               | Raise _ => True
               end).
    + run_with runs_spline_filter1d_launches. intros tr1 [a|e] H1.
      * run_ret. split; [reflexivity|exact H1].
      * exact I.
    + cbv beta. intros tr1 [a|e] H1; [|exact I].
      destruct H1 as (-> & ax' & Hn & Hl).
      assert (Hnd : ndim acc = ndim input) by (unfold ndim; congruence).
      rewrite Hnd in Hl.
      rewrite Hnd, normalize_axis_index_id in Hn by exact Hax.
      injection Hn as <-.
      replace (order <? 2) with false in Hl by (symmetry; apply Z.ltb_ge; lia).
      replace (ndim input =? 0)%nat with false in Hl
        by (symmetry; apply Nat.eqb_neq; lia).
      rewrite Hacc in Hl. cbn [orb] in Hl.
      eapply runs_weaken; [apply (IH temp Hxs Htemp)|].
      cbv beta. intros tr2 [b|e] H2; [|exact I].
      rewrite spline_launches_app, Hl, H2. cbn [List.filter].
      destruct (negb (nth ax (shape input) 0 =? 1)); reflexivity.
Qed.

Lemma runs_spline_filter_launches input order output mode allow :
  match output with
  | OArr o => shape o = shape input
  | _ => True
  end ->
  runs (spline_filter ext input order output mode allow)
    (fun tr r =>
       match r with
       | Ok _ =>
           spline_launches tr
           = map (fun ax => (order, mode, ax))
               (List.filter (fun ax => negb (nth ax (shape input) 0 =? 1))
                  (seq 0 (ndim input)))
       | Raise _ => True
       end).
Proof.
  intros Hout. unfold spline_filter.
  destruct ((order <? 2) || (5 <? order)) eqn:Ho; [run_raise; exact I|].
  apply orb_false_iff in Ho as [Ho _]. apply Z.ltb_ge in Ho.
  run_with runs_get_spline_output. intros tr1 [[[temp fd] od]|e] [Hi H1]; [|exact I].
  destruct H1 as (_ & _ & _ & Hsh).
  assert (Hs : shape temp = shape input).
  { destruct Hsh as [Hsh| ->]; [exact Hsh|exact Hout]. }
  assert (Hpre : runs
    (if negb ((order =? 0) || (order =? 1)) && (0 <? ndim input)%nat
     then
       for_each (seq 0 (ndim input)) input
         (fun x axis =>
            spline_filter1d ext x order (Z.of_nat axis) (OArr temp) mode allow ;;
            ret temp) ;;
       ret tt
     else ret tt)
    (fun tr r =>
       match r with
       | Ok _ =>
           spline_launches tr
           = map (fun ax => (order, mode, ax))
               (List.filter (fun ax => negb (nth ax (shape input) 0 =? 1))
                  (seq 0 (ndim input)))
       | Raise _ => True
       end)).
  { replace (order =? 0) with false by (symmetry; apply Z.eqb_neq; lia).
    replace (order =? 1) with false by (symmetry; apply Z.eqb_neq; lia).
    cbn [orb negb andb].
    destruct (Nat.ltb_spec 0 (ndim input)) as [Hn|Hn].
    - eapply runs_bind.
      + apply (runs_filter_axes mode allow Ho Hs).
        * apply Forall_forall. intros i Hi'. apply elem_of_seq in Hi'. lia.
        * reflexivity.
      + cbv beta. intros tr2 [a|e] H2; [|exact I]. run_ret. exact H2.
    - run_ret. replace (ndim input) with 0%nat by lia. reflexivity. }
  eapply runs_bind; [exact Hpre|]. clear Hpre. cbv beta.
  intros tr2 [[]|e] H2; [|exact I].
  assert (Hfin : forall tr3, idle tr3 ->
            spline_launches (tr1 ++ tr2 ++ tr3)
            = map (fun ax => (order, mode, ax))
                (List.filter (fun ax => negb (nth ax (shape input) 0 =? 1))
                   (seq 0 (ndim input)))).
  { intros tr3 H3.
    rewrite !spline_launches_app, (idle_no_launches Hi), (idle_no_launches H3), H2.
    simpl. apply app_nil_r. }
  assert (Hlast : forall a : ndarray,
    runs (if negb (dtype_eqb (dt a) od) then astype ext a od else ret a)
      (fun tr3 r => match r with Ok _ => idle tr3 | Raise _ => True end)).
  { intros a. destruct (negb _); [|run_ret; auto with trace].
    eapply runs_weaken; [apply runs_astype|].
    intros tr [b|e] H; simpl in H; [|exact I].
    destruct H as (-> & _). auto with trace. }
  destruct output as [|d|o].
  - apply runs_bind_ret. eapply runs_weaken; [apply Hlast|].
    cbv beta. intros tr3 [a|e] H3; [|exact I]. apply Hfin, H3.
  - apply runs_bind_ret. eapply runs_weaken; [apply Hlast|].
    cbv beta. intros tr3 [a|e] H3; [|exact I]. apply Hfin, H3.
  - apply runs_assoc.
    run_with runs_assign. intros tr3 [[]|e] H3; simpl in H3; [|exact I]. subst tr3.
    apply runs_bind_ret. eapply runs_weaken; [apply Hlast|].
    cbv beta. intros tr4 [a|e] H4; [|exact I].
    apply (Hfin ([EAssign o temp] ++ tr4)). auto with trace.
Qed.

End Launches.

(** X17: a successful [spline_filter] launches the prefilter kernel once
    along each axis of the input whose extent is not 1, in the order of
    the axes, each time with the order and the mode of the call; this for
    an output that is no array or an array of the input's shape, and for a
    normalisation of axes that leaves an axis in range as it is. *)
Theorem X17_spline_filter_launches {V} (ext : externals V) x order output mode
    allow (s : state V) out s' :
  (forall (i n : nat), (i < n)%nat ->
     normalize_axis_index ext (Z.of_nat i) n = Some i) ->
  match output with
  | OArr o => shape o = shape x
  | _ => True
  end ->
  spline_filter ext x order output mode allow s = (Ok out, s') ->
  exists tr,
    trace s' = trace s ++ tr /\
    spline_launches tr
    = map (fun ax => (order, mode, ax))
        (List.filter (fun ax => negb (nth ax (shape x) 0 =? 1))
           (seq 0 (ndim x))).
Proof.
  intros Hnorm Hout Hrun.
  exact (runs_elim (@runs_spline_filter_launches V ext Hnorm x order output mode
                      allow Hout) Hrun).
Qed.

Lemma toy_normalize_axis_id (i n : nat) :
  (i < n)%nat -> normalize_axis_index Toy.ext (Z.of_nat i) n = Some i.
Proof.
  intros Hi. simpl. unfold Toy.normalize_axis.
  replace (Z.of_nat i <? 0) with false by (symmetry; apply Z.ltb_ge; lia).
  replace (0 <=? Z.of_nat i) with true by (symmetry; apply Z.leb_le; lia).
  replace (Z.of_nat i <? Z.of_nat n) with true by (symmetry; apply Z.ltb_lt; lia).
  simpl. rewrite Nat2Z.id. reflexivity.
Defined.

Lemma X17_spline_filter_launches_witness :
  let x := Toy.arr0 Float64 [2; 1; 3] in
  let s := Toy.st0 [0; 1; 2; 3; 4; 5]%Q in
  exists tr,
    trace (spline_filter Toy.ext x 3 (ODtype Float64) "mirror" true s).2
    = trace s ++ tr /\
    spline_launches tr = [(3, "mirror"%string, 0%nat); (3, "mirror"%string, 2%nat)].
Proof.
  intros x s.
  refine (@X17_spline_filter_launches Q Toy.ext x 3 (ODtype Float64)
            "mirror"%string true s (Ndarray 1 1 (seq 0 6) Float64 [2; 1; 3]) _
            toy_normalize_axis_id I _).
  vm_compute. reflexivity.
Defined.

(** ** What a call writes *)

Section FrameRules.
Context {V : Type} (ext : externals V) (n0 : nat) (W : nat -> Prop).
Hypothesis new_allocations : forall k, (n0 <= k)%nat -> W k.

Lemma frames_ret {A} (a : A) (Q : A -> Prop) :
  Q a -> frames (V:=V) n0 W (ret a) Q.
Proof. intros H s Hs. simpl. auto. Qed.

Lemma frames_raise {A} (e : error) (Q : A -> Prop) :
  frames (V:=V) n0 W (raise e) Q.
Proof. intros s Hs. simpl. auto. Qed.

Lemma frames_bind {A B} (m : M V A) (f : A -> M V B) Q1 (Q : B -> Prop) :
  frames n0 W m Q1 -> (forall a, Q1 a -> frames n0 W (f a) Q) ->
  frames n0 W (bind m f) Q.
Proof.
  intros Hm Hf s Hs. unfold bind.
  destruct (Hm s Hs) as (H1 & H2 & H3).
  destruct (m s) as [[a|e] s1]; simpl in *.
  - destruct (Hf a H3 s1 H1) as (H4 & H5 & H6).
    split; [exact H4|]. split; [|exact H6].
    intros k Hk. rewrite H5, H2 by exact Hk. reflexivity.
  - auto.
Qed.

Lemma frames_weaken {A} (m : M V A) (Q1 Q : A -> Prop) :
  frames n0 W m Q1 -> (forall a, Q1 a -> Q a) -> frames n0 W m Q.
Proof.
  intros Hm HQ s Hs. destruct (Hm s Hs) as (H1 & H2 & H3).
  split; [exact H1|]. split; [exact H2|].
  destruct (m s).1; auto.
Qed.

Lemma frames_bind_ret {A B} (a : A) (f : A -> M V B) Q :
  frames n0 W (f a) Q -> frames n0 W (bind (ret a) f) Q.
Proof. intros H s. exact (H s). Qed.

Lemma frames_assoc {A B C} (m : M V A) (f : A -> M V B) (g : B -> M V C) Q :
  frames n0 W (bind m (fun a => bind (f a) g)) Q ->
  frames n0 W (bind (bind m f) g) Q.
Proof.
  intros H s Hs. specialize (H s Hs). unfold bind in *.
  destruct (m s) as [[a|e] s1]; exact H.
Qed.

Lemma frames_for_each {A B} (xs : list A) (body : B -> A -> M V B)
    (I : B -> Prop) :
  (forall acc x, I acc -> frames n0 W (body acc x) I) ->
  forall acc, I acc -> frames n0 W (for_each xs acc body) I.
Proof.
  intros Hbody. induction xs as [|x xs IH]; intros acc Hacc; simpl.
  - apply frames_ret, Hacc.
  - eapply frames_bind; [apply Hbody, Hacc|]. intros a Ha. apply IH, Ha.
Qed.

Lemma frames_read a : frames n0 W (read ext a) (fun _ => True).
Proof. intros s Hs. simpl. auto. Qed.

Lemma frames_emit e : frames (V:=V) n0 W (emit e) (fun _ => True).
Proof. intros s Hs. simpl. auto. Qed.

Lemma frames_write a (vals : list V) :
  may_write W a -> frames n0 W (write a vals) (fun _ => True).
Proof.
  intros Ha s Hs. simpl. split; [exact Hs|]. split; [|exact I].
  intros k Hk. destruct (Nat.eqb_spec k (mem a)) as [->|Hne]; [|reflexivity].
  destruct Ha as [Ha|Ha]; [|contradiction]. rewrite Ha. reflexivity.
Qed.

Lemma frames_alloc d sh (vals : list V) :
  frames n0 W (alloc d sh vals) (fun a => W (mem a)).
Proof.
  intros s Hs. unfold alloc. destruct (existsb _ sh); simpl; [auto|].
  split; [lia|]. split; [|apply new_allocations, Hs].
  intros k Hk. destruct (Nat.eqb_spec k (next_mem s)) as [->|Hne]; [|reflexivity].
  destruct Hk. apply new_allocations, Hs.
Qed.

Tactic Notation "frame_with" uconstr(lem) :=
  eapply frames_bind; [eapply lem|]; cbv beta.

Lemma frames_zeros sh d : frames n0 W (zeros ext sh d) (fun a => W (mem a)).
Proof. apply frames_alloc. Qed.

Lemma frames_astype a d : frames n0 W (astype ext a d) (fun a' => W (mem a')).
Proof. unfold astype. frame_with frames_read. intros vals _. apply frames_alloc. Qed.

Lemma frames_copy a : frames n0 W (copy ext a) (fun a' => W (mem a')).
Proof. unfold copy. frame_with frames_read. intros vals _. apply frames_alloc. Qed.

Lemma frames_astype_nocopy a d :
  frames n0 W (astype_nocopy ext a d) (fun a' => a' = a \/ W (mem a')).
Proof.
  unfold astype_nocopy. destruct (dtype_eqb _ _); [apply frames_ret; auto|].
  eapply frames_weaken; [apply frames_astype|]. auto.
Qed.

Lemma frames_ascontiguousarray a :
  frames n0 W (ascontiguousarray ext a) (fun a' => a' = a \/ W (mem a')).
Proof.
  unfold ascontiguousarray. destruct (c_contiguous a); [apply frames_ret; auto|].
  eapply frames_weaken; [apply frames_copy|]. auto.
Qed.

Lemma frames_assign dst src :
  may_write W dst -> frames n0 W (assign ext dst src) (fun _ => True).
Proof.
  intros Hd. unfold assign. destruct (negb _); [apply frames_raise|].
  frame_with frames_read. intros vals _.
  frame_with frames_emit. intros _ _. apply frames_write, Hd.
Qed.

Lemma frames_update e a f :
  may_write W a -> frames n0 W (update ext e a f) (fun _ => True).
Proof.
  intros Ha. unfold update. frame_with frames_read. intros vals _.
  frame_with frames_emit. intros _ _. apply frames_write, Ha.
Qed.

Lemma frames_launch e out (vals : list V) :
  may_write W out -> frames n0 W (launch e out vals) (fun _ => True).
Proof.
  intros Ho. unfold launch. frame_with frames_emit. intros _ _.
  apply frames_write, Ho.
Qed.

Lemma frames_get_output output input shp :
  output_within W output ->
  frames n0 W (_get_output ext output input shp) (may_write W).
Proof.
  intros Ho. unfold _get_output. destruct output as [|d|o].
  - eapply frames_weaken; [apply frames_zeros|]. unfold may_write. auto.
  - eapply frames_weaken; [apply frames_zeros|]. unfold may_write. auto.
  - destruct (negb _); [apply frames_raise|apply frames_ret, Ho].
Qed.

Lemma shares_memory_self a : shares_memory a a = false -> size a = 0.
Proof.
  unfold shares_memory, is_. rewrite Nat.eqb_refl. simpl andb.
  destruct (Z.eqb_spec (size a) 0) as [E|E]; [auto|]. simpl. discriminate.
Qed.

Lemma frames_workspace_from_input input fd :
  tame W input ->
  frames n0 W (workspace_from_input ext input fd) (may_write W).
Proof.
  intros Hin. unfold workspace_from_input.
  frame_with frames_astype_nocopy. intros t1 H1.
  frame_with frames_ascontiguousarray. intros t2 H2.
  destruct (shares_memory t2 input) eqn:Hsm.
  - eapply frames_weaken; [apply frames_copy|]. unfold may_write. auto.
  - apply frames_ret.
    destruct H2 as [->|H2]; [|right; exact H2].
    destruct H1 as [->|H1]; [|right; exact H1].
    destruct Hin as [Hin|Hin]; [exact Hin|].
    left. apply Hin, shares_memory_self, Hsm.
Qed.

Lemma frames_get_spline_output input output allow :
  tame W input -> output_within W output ->
  frames n0 W (_get_spline_output ext input output allow)
    (fun r => may_write W r.1.1).
Proof.
  intros Hin Ho. unfold _get_spline_output. destruct output as [|d|o].
  - frame_with frames_workspace_from_input; [exact Hin|]. intros t Ht.
    apply frames_ret. exact Ht.
  - frame_with frames_workspace_from_input; [exact Hin|]. intros t Ht.
    apply frames_ret. exact Ht.
  - destruct (_ && negb _); [apply frames_raise|].
    destruct (_ && _ && _).
    + eapply frames_bind with (Q1 := fun _ => True).
      * destruct (negb _); [apply frames_assign, Ho|apply frames_ret; exact I].
      * intros _ _. apply frames_ret. exact Ho.
    + frame_with frames_workspace_from_input; [exact Hin|]. intros t Ht.
      apply frames_ret. exact Ht.
Qed.

Lemma may_write_tame a : may_write W a -> tame W a.
Proof. left. assumption. Qed.

Lemma frames_spline_filter1d x order axis output mode allow :
  tame W x -> output_within W output ->
  frames n0 W (spline_filter1d ext x order axis output mode allow) (may_write W).
Proof.
  intros Hx Ho. unfold spline_filter1d.
  destruct (_ || _); [apply frames_raise|].
  destruct (normalize_axis_index ext axis (ndim x)) as [ax|]; [|apply frames_raise].
  destruct (negb (negb _)).
  - frame_with frames_get_output; [exact Ho|]. intros out Hout.
    frame_with frames_assign; [exact Hout|]. intros _ _.
    apply frames_ret, Hout.
  - frame_with frames_get_spline_output; [exact Hx|exact Ho|].
    intros [[temp fd] od] Ht. simpl in Ht. cbv beta iota.
    destruct (negb _); [apply frames_raise|].
    destruct (_ =? 0); [apply frames_raise|].
    frame_with frames_update; [exact Ht|]. intros _ _.
    frame_with frames_update; [exact Ht|]. intros _ _.
    assert (Hlast : frames n0 W (astype_nocopy ext temp od) (may_write W)).
    { eapply frames_weaken; [apply frames_astype_nocopy|].
      intros a [->|Ha]; [exact Ht|right; exact Ha]. }
    destruct output as [|d|o]; try exact Hlast.
    destruct (negb _); [|exact Hlast].
    frame_with frames_assign; [exact Ho|]. intros _ _. apply frames_ret, Ho.
Qed.

Lemma frames_spline_filter input order output mode allow :
  tame W input -> output_within W output ->
  frames n0 W (spline_filter ext input order output mode allow) (may_write W).
Proof.
  intros Hx Ho. unfold spline_filter.
  destruct (_ || _); [apply frames_raise|].
  frame_with frames_get_spline_output; [exact Hx|exact Ho|].
  intros [[temp fd] od] Ht. simpl in Ht. cbv beta iota.
  eapply frames_bind with (Q1 := fun _ => True).
  { destruct (_ && _); [|apply frames_ret; exact I].
    eapply frames_bind with (Q1 := tame W).
    - apply frames_for_each; [|exact Hx]. intros acc ax Hacc.
      frame_with frames_spline_filter1d; [exact Hacc|exact Ht|].
      intros _ _. apply frames_ret, may_write_tame, Ht.
    - intros _ _. apply frames_ret. exact I. }
  intros _ _.
  assert (Hlast : forall a : ndarray, may_write W a ->
    frames n0 W (if negb (dtype_eqb (dt a) od) then astype ext a od else ret a)
      (may_write W)).
  { intros a Ha. destruct (negb _); [|apply frames_ret, Ha].
    eapply frames_weaken; [apply frames_astype|]. unfold may_write. auto. }
  destruct output as [|d|o].
  - apply frames_bind_ret, Hlast, Ht.
  - apply frames_bind_ret, Hlast, Ht.
  - apply frames_assoc. frame_with frames_assign; [exact Ho|]. intros _ _.
    apply frames_bind_ret, Hlast, Ho.
Qed.

Lemma frames_integers_to_float32 input :
  tame W input -> frames n0 W (integers_to_float32 ext input) (tame W).
Proof.
  intros Hx. unfold integers_to_float32.
  destruct (kind_in_iu _); [|apply frames_ret, Hx].
  eapply frames_weaken; [apply frames_astype|]. unfold tame, may_write. auto.
Qed.

Lemma frames_prefiltered input order mode prefilter allow :
  tame W input ->
  frames n0 W (prefiltered ext input order mode prefilter allow) (fun _ => True).
Proof.
  intros Hx. unfold prefiltered. destruct (_ && _); [|apply frames_ret; exact I].
  eapply frames_weaken; [apply frames_spline_filter; [exact Hx|exact I]|]. auto.
Qed.

Lemma frames_contiguous a :
  frames n0 W (contiguous ext a) (fun _ => True).
Proof.
  unfold contiguous. destruct (negb _); [|apply frames_ret; exact I].
  eapply frames_weaken; [apply frames_ascontiguousarray|]. auto.
Qed.

Lemma frames_build cfg : frames n0 W (build ext cfg) (fun _ => True).
Proof.
  unfold build. destruct (interp_builds _ _); [apply frames_ret; exact I|].
  apply frames_raise.
Qed.

Lemma frames_check_parameter name order mode :
  frames (V:=V) n0 W (_check_parameter name order mode) (fun _ => True).
Proof.
  unfold _check_parameter.
  destruct (_ || _); [apply frames_raise|].
  destruct (negb _); [apply frames_raise|apply frames_ret; exact I].
Qed.

Lemma frames_pure {A} (m : M V A) :
  (forall s, (m s).2 = s) -> frames n0 W m (fun _ => True).
Proof.
  intros H s Hs. rewrite H. split; [exact Hs|]. split; [reflexivity|].
  destruct (m s).1; exact I.
Qed.

Ltac frame_sample Hout :=
  frame_with frames_read; intros ? _;
  frame_with frames_launch; [exact Hout|]; intros _ _;
  apply frames_ret; exact I.

Lemma frames_affine_transform input matrix offset output_shape output order
    mode cval prefilter allow :
  tame W input -> output_within W output ->
  frames n0 W
    (affine_transform ext input matrix offset output_shape output order mode
       cval prefilter allow) (fun _ => True).
Proof.
  intros Hx Ho. unfold affine_transform.
  frame_with frames_check_parameter. intros _ _.
  frame_with frames_pure; [apply normalize_matrix_state|]. intros [m1 o1] _.
  eapply frames_bind with (Q1 := fun _ => True).
  { destruct (String.eqb _ _); [|apply frames_ret; exact I].
    apply frames_pure, opencv_matrix_state. }
  intros [m2 o2] _.
  frame_with frames_get_output; [exact Ho|]. intros out Hout.
  frame_with frames_integers_to_float32; [exact Hx|]. intros inp Hinp.
  frame_with frames_prefiltered; [exact Hinp|]. intros flt _.
  frame_with frames_contiguous. intros flt' _.
  destruct m2.
  2:{ destruct (negb _); [apply frames_raise|].
      frame_with frames_build. intros _ _. frame_sample Hout. }
  all: frame_with frames_build; intros _ _.
  all: destruct (bcast_mat _ _); [|apply frames_raise].
  all: destruct (to_column _ _); [|apply frames_raise].
  all: frame_sample Hout.
Qed.

Lemma frames_rotate input angle axes reshape output order mode cval prefilter
    allow :
  tame W input -> output_within W output ->
  frames n0 W
    (rotate ext input angle axes reshape output order mode cval prefilter allow)
    (fun _ => True).
Proof.
  intros Hx Ho. unfold rotate.
  frame_with frames_check_parameter. intros _ _. cbv zeta.
  destruct (if _ <? _ then _ else _) as [a0 a1].
  destruct (_ || _); [apply frames_raise|].
  destruct (rotate_plan _ _ _ _ _ _) as [[matrix offset] oshape].
  apply frames_affine_transform; assumption.
Qed.

Lemma frames_shift input shift_ output order mode cval prefilter allow :
  tame W input -> output_within W output ->
  frames n0 W (shift ext input shift_ output order mode cval prefilter allow)
    (fun _ => True).
Proof.
  intros Hx Ho. unfold shift.
  frame_with frames_check_parameter. intros _ _. cbv zeta.
  destruct (String.eqb _ _); [apply frames_affine_transform; assumption|].
  frame_with frames_get_output; [exact Ho|]. intros out Hout.
  frame_with frames_integers_to_float32; [exact Hx|]. intros inp Hinp.
  frame_with frames_prefiltered; [exact Hinp|]. intros flt _.
  frame_with frames_contiguous. intros flt' _.
  frame_with frames_build. intros _ _.
  destruct (match shift_ with Scalar _ => _ | Arr a => a end);
    try apply frames_raise.
  destruct (negb _); [apply frames_raise|]. frame_sample Hout.
Qed.

Lemma frames_zoom input zoom_ output order mode cval prefilter allow :
  tame W input -> output_within W output ->
  frames n0 W (zoom ext input zoom_ output order mode cval prefilter allow)
    (fun _ => True).
Proof.
  intros Hx Ho. unfold zoom.
  frame_with frames_check_parameter. intros _ _. cbv zeta.
  destruct (zoom_shape _ _) as [oshape|]; [|apply frames_raise].
  destruct (String.eqb _ _).
  { destruct (mapM _ _); [|apply frames_raise].
    apply frames_affine_transform; assumption. }
  destruct (mapM _ _) as [zv|]; [|apply frames_raise].
  frame_with frames_get_output; [exact Ho|]. intros out Hout.
  frame_with frames_integers_to_float32; [exact Hx|]. intros inp Hinp.
  frame_with frames_prefiltered; [exact Hinp|]. intros flt _.
  frame_with frames_contiguous. intros flt' _.
  frame_with frames_build. intros _ _.
  destruct (negb _); [apply frames_raise|]. frame_sample Hout.
Qed.

Lemma frames_map_coordinates input coordinates output order mode cval prefilter
    allow :
  tame W input -> output_within W output ->
  frames n0 W
    (map_coordinates ext input coordinates output order mode cval prefilter
       allow) (fun _ => True).
Proof.
  intros Hx Ho. unfold map_coordinates.
  frame_with frames_check_parameter. intros _ _.
  eapply frames_bind with (Q1 := fun r => tame W r.1.1).
  { destruct (_ || _); [|apply frames_ret; exact Hx].
    frame_with frames_read. intros vals _.
    frame_with frames_alloc. intros i' Hi'.
    frame_with frames_read. intros cvals _.
    frame_with frames_alloc. intros c' _.
    apply frames_ret. left. right. exact Hi'. }
  intros [[inp0 coords0] mode0] Hinp0. simpl in Hinp0. cbv beta iota.
  frame_with frames_get_output; [exact Ho|]. intros out Hout.
  frame_with frames_integers_to_float32; [exact Hinp0|]. intros inp Hinp.
  eapply frames_bind with (Q1 := fun _ => True).
  { destruct (kind_in_iu _).
    - destruct (1 <? order); [|apply frames_ret; exact I].
      eapply frames_weaken; [apply frames_astype|]. auto.
    - destruct (negb _); [apply frames_raise|].
      eapply frames_weaken; [apply frames_astype_nocopy|]. auto. }
  intros coords _.
  frame_with frames_prefiltered; [exact Hinp|]. intros flt _.
  destruct (shape coords); [apply frames_raise|].
  frame_with frames_build. intros _ _.
  frame_with frames_contiguous. intros flt' _.
  frame_with frames_contiguous. intros coords' _.
  frame_with frames_read. intros fvals _.
  frame_with frames_read. intros cvals _.
  frame_with frames_launch; [exact Hout|]. intros _ _.
  apply frames_ret. exact I.
Qed.

End FrameRules.

(** X18: a transform or a prefilter writes only into allocations that it
    creates and into the allocation of the output array: every other
    allocation that existed before the call, the input's among them, holds
    after the call what it held before.  This for an input that has no
    cell when it has no element, and for kernels that write their output
    operand only. *)
Theorem X18_writes_confined {V} (ext : externals V) x output (s : state V)
    (k : nat) :
  (size x = 0 -> idx x = []) ->
  (k < next_mem s)%nat ->
  match output with
  | OArr o => mem o <> k
  | _ => True
  end ->
  (forall sh order mode cval prefilter allow,
     store (shift ext x sh output order mode cval prefilter allow s).2 k
     = store s k) /\
  (forall z order mode cval prefilter allow,
     store (zoom ext x z output order mode cval prefilter allow s).2 k
     = store s k) /\
  (forall c order mode cval prefilter allow,
     store (map_coordinates ext x c output order mode cval prefilter allow s).2 k
     = store s k) /\
  (forall m off osh order mode cval prefilter allow,
     store (affine_transform ext x m off osh output order mode cval prefilter
              allow s).2 k
     = store s k) /\
  (forall angle axes reshape order mode cval prefilter allow,
     store (rotate ext x angle axes reshape output order mode cval prefilter
              allow s).2 k
     = store s k) /\
  (forall order mode allow,
     store (spline_filter ext x order output mode allow s).2 k = store s k) /\
  (forall order axis mode allow,
     store (spline_filter1d ext x order axis output mode allow s).2 k
     = store s k).
Proof.
  intros Hx Hk Ho.
  set (W := fun j : nat => j <> k).
  assert (HW : forall j, (next_mem s <= j)%nat -> W j) by (unfold W; lia).
  assert (Htame : tame W x) by (right; exact Hx).
  assert (Hout : output_within W output).
  { destruct output as [|d|o]; simpl; auto. right. exact Ho. }
  assert (Hk' : ~ W k) by (unfold W; tauto).
  assert (Huse : forall A (m : M V A) Q,
            frames (next_mem s) W m Q -> store (m s).2 k = store s k).
  { intros A m Q Hm. destruct (Hm s (Nat.le_refl _)) as (_ & H & _).
    apply H, Hk'. }
  repeat match goal with |- _ /\ _ => split end; intros.
  - eapply Huse, (frames_shift ext HW); assumption.
  - eapply Huse, (frames_zoom ext HW); assumption.
  - eapply Huse, (frames_map_coordinates ext HW); assumption.
  - eapply Huse, (frames_affine_transform ext HW); assumption.
  - eapply Huse, (frames_rotate ext HW); assumption.
  - eapply Huse, (frames_spline_filter ext HW); assumption.
  - eapply Huse, (frames_spline_filter1d ext HW); assumption.
Qed.

Lemma X18_writes_confined_witness :
  let x := Toy.arr0 Float64 [4] in
  let s := Toy.st1 [0; 1; 2; 3]%Q [9; 9; 9; 9]%Q in
  store (shift Toy.ext x (Scalar 1) (OArr (Toy.arr1 Float32 [4])) 3 "mirror" 0%Q
           true true s).2 0%nat
  = store s 0%nat.
Proof.
  intros x s.
  refine (proj1 (@X18_writes_confined Q Toy.ext x (OArr (Toy.arr1 Float32 [4]))
                   s 0%nat _ _ _)
            (Scalar 1) 3 "mirror"%string 0%Q true true).
  - intros H. vm_compute in H. discriminate H.
  - simpl. lia.
  - simpl. lia.
Defined.

(** A call that is given its input as the output array does write the
    input. *)
Example output_aliasing_input :
  let x := Toy.arr0 Float64 [4] in
  let s := Toy.st0 [0; 1; 2; 3]%Q in
  store (spline_filter Toy.ext x 3 (OArr x) "mirror" true s).2 0%nat
  <> store s 0%nat.
Proof. vm_compute. discriminate. Qed.
